(** * WPlaceBot: task resolution and resumable drawing engine

    A shallow embedding of the [WPlaceBot] class (release 1.5.0, the
    lock-aware variant) and the properties of its task queue, colour
    resolution, drawing loop and checkpoint store.

    Conventions of the embedding.
    - JavaScript strings are [string]: one character is one UTF-16 code
      unit, and the type holds the code units below 256 (ISO 8859-1
      text, of which ASCII text is the lower half).  On these the
      character classes of the regular expressions and of [trim] are
      modelled in full.
    - Integer-valued numbers are [Z].  The model is exact as long as every
      number stays below 2^53, where IEEE doubles represent integers
      exactly; [NaN] is written out where the code can produce it.
    - The object's fields are the fields of the record [bot]; methods are
      functions from [bot] to [bot] (and a result).  What a method does to
      the page and to the console is appended to the [trace] field.
    - [localStorage] is one slot (the key never changes) holding what
      [getItem] and [JSON.parse] make of it, and a flag telling whether
      [setItem] succeeds.
    - [Math.hypot] is the engine's: the language asks only for an
      approximation of the root of the sum of squares.  The class [Math]
      stands for the engine; general statements hold for every engine,
      or say what they ask of it. *)

From Stdlib Require Import ZArith QArith Qround Qabs List Bool Ascii String Lia.
From Stdlib Require Import Permutation Sorted.
Import ListNotations.

Local Open Scope string_scope.
Local Open Scope Z_scope.

(** ** Characters and strings *)

Module Js.

Definition code (c : ascii) : Z := Z.of_nat (nat_of_ascii c).

(** [\d] *)
Definition is_digit (c : ascii) : bool := (48 <=? code c) && (code c <=? 57).

(** [[a-f\d]] under the [i] flag *)
Definition is_hex_digit (c : ascii) : bool :=
  is_digit c
  || ((97 <=? code c) && (code c <=? 102))
  || ((65 <=? code c) && (code c <=? 70)).

(** [\s], and what [trim] strips: the white space and line terminators
    of the language.  Below 256 these are TAB, LF, VT, FF, CR, space and
    the no-break space U+00A0. *)
Definition is_space (c : ascii) : bool :=
  ((9 <=? code c) && (code c <=? 13)) || (code c =? 32) || (code c =? 160).

(** ASCII lower-casing, for the [i] flag on letters. *)
Definition lower (c : ascii) : ascii :=
  if (65 <=? code c) && (code c <=? 90)
  then ascii_of_nat (nat_of_ascii c + 32) else c.

Fixpoint all_chars (f : ascii -> bool) (s : string) : bool :=
  match s with
  | EmptyString => true
  | String c s' => f c && all_chars f s'
  end.

Fixpoint trim_start (s : string) : string :=
  match s with
  | EmptyString => EmptyString
  | String c s' => if is_space c then trim_start s' else s
  end.

Fixpoint trim_end (s : string) : string :=
  match s with
  | EmptyString => EmptyString
  | String c s' =>
      match trim_end s' with
      | EmptyString => if is_space c then EmptyString else String c EmptyString
      | t => String c t
      end
  end.

(** [String.prototype.trim] *)
Definition trim (s : string) : string := trim_end (trim_start s).

(** [s.slice(1)] *)
Definition slice1 (s : string) : string :=
  match s with
  | EmptyString => EmptyString
  | String _ s' => s'
  end.

(** [s.match(/\d+/g)]: the maximal runs of digits, left to right.  The
    empty list stands for the [null] the method returns without a match. *)
Fixpoint digit_runs (cur : string) (s : string) : list string :=
  match s with
  | EmptyString =>
      match cur with EmptyString => [] | _ => [cur] end
  | String c s' =>
      if is_digit c then digit_runs (cur ++ String c EmptyString) s'
      else match cur with
           | EmptyString => digit_runs EmptyString s'
           | _ => cur :: digit_runs EmptyString s'
           end
  end.

Definition match_digits (s : string) : list string := digit_runs EmptyString s.

Definition digit_val (c : ascii) : Z :=
  if is_digit c then code c - 48
  else if (97 <=? code c) && (code c <=? 102) then code c - 87
  else code c - 55.

Fixpoint parse_radix (radix : Z) (acc : Z) (s : string) : Z :=
  match s with
  | EmptyString => acc
  | String c s' => parse_radix radix (acc * radix + digit_val c) s'
  end.

(** [parseInt(s, 10)] on a run of digits, [parseInt(s, 16)] on hex digits. *)
Definition parseInt10 (s : string) : Z := parse_radix 10 0 s.
Definition parseInt16 (s : string) : Z := parse_radix 16 0 s.

Definition radix_digit (d : Z) : ascii :=
  if d <? 10 then ascii_of_nat (Z.to_nat (48 + d))
  else ascii_of_nat (Z.to_nat (87 + d)).

Fixpoint to_radix (radix : Z) (fuel : nat) (n : Z) (acc : string) : string :=
  match fuel with
  | O => acc
  | S f =>
      let acc' := String (radix_digit (n mod radix)) acc in
      if n <? radix then acc' else to_radix radix f (n / radix) acc'
  end.

(** Digits of a non-negative integer; the bit length bounds the number of
    digits in any radix above one. *)
Definition digits_of (radix : Z) (n : Z) : string :=
  to_radix radix (S (Z.to_nat (Z.log2 n))) n EmptyString.

(** [n.toString(radix)] for an integer [n]. *)
Definition toString (radix : Z) (n : Z) : string :=
  if n <? 0 then String "-"%char (digits_of radix (- n)) else digits_of radix n.

(** A number that may be [NaN]: the sum in [rgbToHex] adds [undefined]. *)
Definition num := option Z.

Definition num_toString (radix : Z) (n : num) : string :=
  match n with
  | Some z => toString radix z
  | None => "NaN"
  end.

(** [ToInt32]: wrap to the signed 32-bit range. *)
Definition toInt32 (z : Z) : Z := (z + 2 ^ 31) mod 2 ^ 32 - 2 ^ 31.

(** [a << k] with [k] below 32; [undefined << k] is [0]. *)
Definition shl (a : num) (k : Z) : Z :=
  match a with
  | Some z => toInt32 (Z.shiftl (toInt32 z) k)
  | None => 0
  end.

(** [x | 0] *)
Definition or0 (z : Z) : Z := toInt32 z.

End Js.

(** ** Colour helpers *)

Record rgb := { r : Z; g : Z; b : Z }.

(** The [i]-th element of a match array, [undefined] past its end. *)
Definition channel (m : list string) (i : nat) : Js.num :=
  option_map Js.parseInt10 (nth_error m i).

(** [(1<<24) + (r<<16) + (g<<8) + b]: the shifts coerce their operand to a
    32-bit integer, the final addition does not. *)
Definition pack (cr cg cb : Js.num) : Js.num :=
  match cb with
  | Some vb => Some (Js.shl (Some 1) 24 + Js.shl cr 16 + Js.shl cg 8 + vb)
  | None => None
  end.

Definition rgbToHex (s : string) : string :=
  match Js.match_digits s with
  | [] => "#000000"
  | m =>
      String "#"%char
        (Js.slice1 (Js.num_toString 16 (pack (channel m 0) (channel m 1) (channel m 2))))
  end.

(** [/^#?([a-f\d]{2})([a-f\d]{2})([a-f\d]{2})$/i] *)
Definition hexToRgb (hex : string) : option rgb :=
  let body := match hex with
              | String "#"%char rest => rest
              | _ => hex
              end in
  if (Nat.eqb (String.length body) 6) && Js.all_chars Js.is_hex_digit body then
    Some {| r := Js.parseInt16 (substring 0 2 body);
            g := Js.parseInt16 (substring 2 2 body);
            b := Js.parseInt16 (substring 4 2 body) |}
  else None.

Definition rgbStringToObject (s : string) : option rgb :=
  match Js.match_digits s with
  | m0 :: m1 :: m2 :: _ =>
      Some {| r := Js.parseInt10 m0; g := Js.parseInt10 m1; b := Js.parseInt10 m2 |}
  | _ => None
  end.

(** The engine's [Math.hypot] on three integers.  Its result is a double,
    which is a rational number; which double it is for given arguments
    is up to the engine. *)
Class Math := { hypot : Z -> Z -> Z -> Q }.

Definition _dist {M : Math} (a c : rgb) : Q :=
  hypot (r a - r c) (g a - g c) (b a - b c).

(** ** Palette *)

(** [element] names the swatch in the page. *)
Record entry := { element : nat; color : string; locked : bool }.

Definition black : rgb := {| r := 0; g := 0; b := 0 |}.

(** [d < bestD] on doubles. *)
Definition below (d bestD : Q) : bool := negb (Qle_bool bestD d).

(** One turn of the [for] loop of [findClosestEntry] on the pair
    [(best, bestD)]; [bestD = None] is [Infinity]. *)
Definition closer {M : Math} (target : rgb) (onlyUnlocked : bool)
    (acc : option entry * option Q) (e : entry) : option entry * option Q :=
  if onlyUnlocked && locked e then acc
  else match rgbStringToObject (color e) with
       | None => acc
       | Some c =>
           let d := _dist target c in
           match snd acc with
           | None => (Some e, Some d)
           | Some bestD => if below d bestD then (Some e, Some d) else acc
           end
       end.

Definition findClosestEntry {M : Math} (palette : list entry) (targetHex : string)
    (onlyUnlocked : bool) : option entry :=
  let target := match hexToRgb targetHex with Some t => t | None => black end in
  fst (fold_left (closer target onlyUnlocked) palette (None, None)).

(** ** The bot object *)

(** One unit of work: place [pcolor] at the logical cell [(px, py)]. *)
Record task := { px : Z; py : Z; pcolor : string }.

Inductive mode := ModeSkip | ModeMap | ModeManual.

(** The record written under [stateKey].  A field that [loadState] guards
    with [Number.isFinite] is [None] when it is absent, [null] or not a
    finite number.  The time stamp [savedAt], which nothing reads, is
    left out. *)
Record saved := {
  s_version : Z;
  s_imageName : string;
  s_startX : option Z;
  s_startY : option Z;
  s_delay : option Z;
  s_currentPixel : nat;
  s_totalPixels : nat;
  s_remaining : list task;
  s_cellW : option Z;
  s_cellH : option Z
}.

(** What [getItem] finds under the key, as [loadState] tells it apart:
    the empty text, which it takes for no entry; text that [JSON.parse]
    rejects; text for a falsy value ([null], [false], [0] or the empty
    string); text for any other value whose [remaining] is not an array;
    or a value whose [remaining] is an array, of tasks as [saveState]
    writes them. *)
Inductive item := Blank | Unparsable | Falsy | NoQueue | Parsed (s : saved).

(** Console lines of the modelled methods. *)
Inductive console :=
| ErrNotArray | ErrBadItem | ErrInvalidRgb | ErrColorFormat | ErrXY
| LogLoaded (n : nat) | LogLargeImage
| LogAlreadyRunning | LogLoadFirst | LogNoCanvas
| WarnNoPalette | WarnNoCell | LogStarted
| WarnSkipLocked | WarnManualLocked | WarnNoUnlocked
| LogFinished | LogStoppedMidway
| LogNotRunning | LogStopped
| WarnCellSize | LogCellSize | LogStartPosition | LogDelay
| WarnOverlap | LogCalibrated
| LogLoadedSession | WarnSaveFailed | WarnLoadFailed
| LogNoSession | WarnLockedMode | LogLockedMode | LogManualMode
| LogCalibratedH | LogSimpleImage | WarnNoAutoSelect.

Inductive event :=
| SwatchClick (el : nat)      (* [entry.element.click()] *)
| CanvasClick (cx cy : Z)     (* [clickCanvas(cx, cy)], relative to the board *)
| Sleep (ms : Z)              (* [await this.sleep(ms)] *)
| Console (c : console).

Record bot := mkBot {
  isRunning : bool;
  delay : Z;
  currentPixel : nat;
  pixels : list task;
  startX : Z;
  startY : Z;
  canvas : bool (* the board element was found *);
  colorPalette : list entry;
  selectedColor : string;
  useAutoPalette : bool;
  lockedColorMode : mode;
  cellW : option Z (* [null] until calibrated *);
  cellH : option Z;
  imageName : string;
  _warnedNoCell : bool;
  _skipWarned : bool;
  _manualWarned : bool;
  _autoWarned : bool;
  storage : option item (* the slot of [localStorage] under [stateKey] *);
  storage_ok : bool (* [setItem] succeeds (quota, access) *);
  trace : list event (* page and console effects, oldest first *)
}.

(** Field assignments [this.f = v]. *)

Definition set_isRunning (v : bool) (st : bot) : bot :=
  mkBot v (delay st) (currentPixel st) (pixels st) (startX st) (startY st)
    (canvas st) (colorPalette st) (selectedColor st) (useAutoPalette st)
    (lockedColorMode st) (cellW st) (cellH st) (imageName st)
    (_warnedNoCell st) (_skipWarned st) (_manualWarned st) (_autoWarned st)
    (storage st) (storage_ok st) (trace st).

Definition set_currentPixel (v : nat) (st : bot) : bot :=
  mkBot (isRunning st) (delay st) v (pixels st) (startX st) (startY st)
    (canvas st) (colorPalette st) (selectedColor st) (useAutoPalette st)
    (lockedColorMode st) (cellW st) (cellH st) (imageName st)
    (_warnedNoCell st) (_skipWarned st) (_manualWarned st) (_autoWarned st)
    (storage st) (storage_ok st) (trace st).

Definition set_pixels (v : list task) (st : bot) : bot :=
  mkBot (isRunning st) (delay st) (currentPixel st) v (startX st) (startY st)
    (canvas st) (colorPalette st) (selectedColor st) (useAutoPalette st)
    (lockedColorMode st) (cellW st) (cellH st) (imageName st)
    (_warnedNoCell st) (_skipWarned st) (_manualWarned st) (_autoWarned st)
    (storage st) (storage_ok st) (trace st).

Definition set_startX (v : Z) (st : bot) : bot :=
  mkBot (isRunning st) (delay st) (currentPixel st) (pixels st) v (startY st)
    (canvas st) (colorPalette st) (selectedColor st) (useAutoPalette st)
    (lockedColorMode st) (cellW st) (cellH st) (imageName st)
    (_warnedNoCell st) (_skipWarned st) (_manualWarned st) (_autoWarned st)
    (storage st) (storage_ok st) (trace st).

Definition set_startY (v : Z) (st : bot) : bot :=
  mkBot (isRunning st) (delay st) (currentPixel st) (pixels st) (startX st) v
    (canvas st) (colorPalette st) (selectedColor st) (useAutoPalette st)
    (lockedColorMode st) (cellW st) (cellH st) (imageName st)
    (_warnedNoCell st) (_skipWarned st) (_manualWarned st) (_autoWarned st)
    (storage st) (storage_ok st) (trace st).

Definition set_delay (v : Z) (st : bot) : bot :=
  mkBot (isRunning st) v (currentPixel st) (pixels st) (startX st) (startY st)
    (canvas st) (colorPalette st) (selectedColor st) (useAutoPalette st)
    (lockedColorMode st) (cellW st) (cellH st) (imageName st)
    (_warnedNoCell st) (_skipWarned st) (_manualWarned st) (_autoWarned st)
    (storage st) (storage_ok st) (trace st).

Definition set_selectedColor (v : string) (st : bot) : bot :=
  mkBot (isRunning st) (delay st) (currentPixel st) (pixels st) (startX st)
    (startY st) (canvas st) (colorPalette st) v (useAutoPalette st)
    (lockedColorMode st) (cellW st) (cellH st) (imageName st)
    (_warnedNoCell st) (_skipWarned st) (_manualWarned st) (_autoWarned st)
    (storage st) (storage_ok st) (trace st).

Definition set_useAutoPalette (v : bool) (st : bot) : bot :=
  mkBot (isRunning st) (delay st) (currentPixel st) (pixels st) (startX st)
    (startY st) (canvas st) (colorPalette st) (selectedColor st) v
    (lockedColorMode st) (cellW st) (cellH st) (imageName st)
    (_warnedNoCell st) (_skipWarned st) (_manualWarned st) (_autoWarned st)
    (storage st) (storage_ok st) (trace st).

Definition set_cellW (v : option Z) (st : bot) : bot :=
  mkBot (isRunning st) (delay st) (currentPixel st) (pixels st) (startX st)
    (startY st) (canvas st) (colorPalette st) (selectedColor st)
    (useAutoPalette st) (lockedColorMode st) v (cellH st) (imageName st)
    (_warnedNoCell st) (_skipWarned st) (_manualWarned st) (_autoWarned st)
    (storage st) (storage_ok st) (trace st).

Definition set_cellH (v : option Z) (st : bot) : bot :=
  mkBot (isRunning st) (delay st) (currentPixel st) (pixels st) (startX st)
    (startY st) (canvas st) (colorPalette st) (selectedColor st)
    (useAutoPalette st) (lockedColorMode st) (cellW st) v (imageName st)
    (_warnedNoCell st) (_skipWarned st) (_manualWarned st) (_autoWarned st)
    (storage st) (storage_ok st) (trace st).

Definition set_imageName (v : string) (st : bot) : bot :=
  mkBot (isRunning st) (delay st) (currentPixel st) (pixels st) (startX st)
    (startY st) (canvas st) (colorPalette st) (selectedColor st)
    (useAutoPalette st) (lockedColorMode st) (cellW st) (cellH st) v
    (_warnedNoCell st) (_skipWarned st) (_manualWarned st) (_autoWarned st)
    (storage st) (storage_ok st) (trace st).

Definition set_warnedNoCell (v : bool) (st : bot) : bot :=
  mkBot (isRunning st) (delay st) (currentPixel st) (pixels st) (startX st)
    (startY st) (canvas st) (colorPalette st) (selectedColor st)
    (useAutoPalette st) (lockedColorMode st) (cellW st) (cellH st)
    (imageName st) v (_skipWarned st) (_manualWarned st) (_autoWarned st)
    (storage st) (storage_ok st) (trace st).

Definition set_skipWarned (v : bool) (st : bot) : bot :=
  mkBot (isRunning st) (delay st) (currentPixel st) (pixels st) (startX st)
    (startY st) (canvas st) (colorPalette st) (selectedColor st)
    (useAutoPalette st) (lockedColorMode st) (cellW st) (cellH st)
    (imageName st) (_warnedNoCell st) v (_manualWarned st) (_autoWarned st)
    (storage st) (storage_ok st) (trace st).

Definition set_manualWarned (v : bool) (st : bot) : bot :=
  mkBot (isRunning st) (delay st) (currentPixel st) (pixels st) (startX st)
    (startY st) (canvas st) (colorPalette st) (selectedColor st)
    (useAutoPalette st) (lockedColorMode st) (cellW st) (cellH st)
    (imageName st) (_warnedNoCell st) (_skipWarned st) v (_autoWarned st)
    (storage st) (storage_ok st) (trace st).

Definition set_autoWarned (v : bool) (st : bot) : bot :=
  mkBot (isRunning st) (delay st) (currentPixel st) (pixels st) (startX st)
    (startY st) (canvas st) (colorPalette st) (selectedColor st)
    (useAutoPalette st) (lockedColorMode st) (cellW st) (cellH st)
    (imageName st) (_warnedNoCell st) (_skipWarned st) (_manualWarned st) v
    (storage st) (storage_ok st) (trace st).

Definition set_storage (v : option item) (st : bot) : bot :=
  mkBot (isRunning st) (delay st) (currentPixel st) (pixels st) (startX st)
    (startY st) (canvas st) (colorPalette st) (selectedColor st)
    (useAutoPalette st) (lockedColorMode st) (cellW st) (cellH st)
    (imageName st) (_warnedNoCell st) (_skipWarned st) (_manualWarned st)
    (_autoWarned st) v (storage_ok st) (trace st).

Definition set_trace (v : list event) (st : bot) : bot :=
  mkBot (isRunning st) (delay st) (currentPixel st) (pixels st) (startX st)
    (startY st) (canvas st) (colorPalette st) (selectedColor st)
    (useAutoPalette st) (lockedColorMode st) (cellW st) (cellH st)
    (imageName st) (_warnedNoCell st) (_skipWarned st) (_manualWarned st)
    (_autoWarned st) (storage st) (storage_ok st) v.
Definition emit (e : event) (st : bot) : bot := set_trace (trace st ++ [e]) st.

Definition say (c : console) (st : bot) : bot := emit (Console c) st.

(** Assigned in the constructor only. *)
Definition autosaveEvery : nat := 20.
Definition largeSaveCap : nat := Z.to_nat 50000.
Arguments largeSaveCap : simpl never.
Definition default_name : string := "Custom Image".

(** The state the constructor builds; [init] then looks for the board and
    the palette in the page, which the two arguments stand for. *)
Definition new_bot (found_canvas : bool) (palette : list entry) : bot :=
  {| isRunning := false; delay := 600; currentPixel := 0%nat; pixels := [];
     startX := 0; startY := 0; canvas := found_canvas;
     colorPalette := palette; selectedColor := "#000000";
     useAutoPalette := true; lockedColorMode := ModeMap;
     cellW := None; cellH := None; imageName := default_name;
     _warnedNoCell := false; _skipWarned := false; _manualWarned := false;
     _autoWarned := false;
     storage := None; storage_ok := true; trace := [] |}.

(** ** Colour resolution *)

(** What [selectColorSmart] returns: [true], [false] or ['SKIP']. *)
Inductive res := ResTrue | ResFalse | ResSkip.

(** [if (!this.flag) { console.warn(...); this.flag = true; }] *)
Definition warn_once (flag : bot -> bool) (set_flag : bool -> bot -> bot)
    (c : console) (st : bot) : bot :=
  if flag st then st else set_flag true (say c st).

(** [e.element.click(); this.selectedColor = this.rgbToHex(e.color)] *)
Definition pick (e : entry) (st : bot) : bot :=
  set_selectedColor (rgbToHex (color e)) (emit (SwatchClick (element e)) st).

Definition selectColorSmart {M : Math} (targetHex : string) (st : bot) : res * bot :=
  match colorPalette st with
  | [] => (ResFalse, st)
  | _ :: _ =>
      match findClosestEntry (colorPalette st) targetHex false with
      | None => (ResFalse, st)
      | Some closest =>
          if locked closest then
            match lockedColorMode st with
            | ModeSkip =>
                (ResSkip, warn_once _skipWarned set_skipWarned WarnSkipLocked st)
            | ModeManual =>
                (ResFalse,
                 set_useAutoPalette false
                   (warn_once _manualWarned set_manualWarned WarnManualLocked st))
            | ModeMap =>
                match findClosestEntry (colorPalette st) targetHex true with
                | Some unlocked => (ResTrue, pick unlocked st)
                | None =>
                    (ResFalse,
                     set_useAutoPalette false
                       (warn_once _manualWarned set_manualWarned WarnNoUnlocked st))
                end
            end
          else (ResTrue, pick closest st)
      end
  end.

(** ** Persistence *)

Definition saveState (st : bot) : bot :=
  let remaining := skipn (currentPixel st) (pixels st) in
  let state :=
    {| s_version := 1;
       s_imageName := imageName st;
       s_startX := Some (startX st);
       s_startY := Some (startY st);
       s_delay := Some (delay st);
       s_currentPixel := currentPixel st;
       s_totalPixels := List.length (pixels st);
       s_remaining :=
         if (largeSaveCap <? List.length remaining)%nat
         then firstn largeSaveCap remaining else remaining;
       s_cellW := cellW st;
       s_cellH := cellH st |} in
  if storage_ok st then set_storage (Some (Parsed state)) st
  else say WarnSaveFailed st.

Definition or_else (v : option Z) (d : Z) : Z :=
  match v with Some z => z | None => d end.

Definition keep (v d : option Z) : option Z :=
  match v with Some z => Some z | None => d end.

Definition loadState (st : bot) : bool * bot :=
  match storage st with
  | None | Some Blank => (false, st)
  | Some Unparsable => (false, say WarnLoadFailed st)
  | Some Falsy | Some NoQueue => (false, st)
  | Some (Parsed s) =>
      if negb (s_version s =? 1) then (false, st)
      else
        let st := set_imageName
                    (if String.eqb (s_imageName s) "" then default_name
                     else s_imageName s) st in
        let st := set_startX (or_else (s_startX s) (startX st)) st in
        let st := set_startY (or_else (s_startY s) (startY st)) st in
        let st := set_delay (or_else (s_delay s) (delay st)) st in
        let st := set_cellW (keep (s_cellW s) (cellW st)) st in
        let st := set_cellH (keep (s_cellH s) (cellH st)) st in
        let st := set_currentPixel 0%nat (set_pixels (s_remaining s) st) in
        (true, say LogLoadedSession st)
  end.

Definition clearState (st : bot) : bot := set_storage None st.

(** ** The drawing loop *)

Definition clickCanvas (cx cy : Z) (st : bot) : bot :=
  if canvas st then emit (CanvasClick cx cy) st else st.

Definition stop (st : bot) : bot :=
  let st := if isRunning st then st else say LogNotRunning st in
  say LogStopped (saveState (set_isRunning false st)).

(** The three places where [start] awaits a timer.  Only there can the
    user's [stop()] run. *)
Inductive pause := AfterSkip | AfterSelect | AfterPlace.

(** [who k n] tells whether the user calls [stop()] during the pause [k]
    taken while the cursor is [n]. *)
Definition user := pause -> nat -> bool.

Definition await (who : user) (k : pause) (ms : Z) (st : bot) : bot :=
  let st := emit (Sleep ms) st in
  if who k (currentPixel st) then stop st else st.

(** [W] and [H] of [start]. *)
Definition gridW (st : bot) : Z :=
  match cellW st with
  | Some w => if 0 <? w then w else 1
  | None => 1
  end.

Definition gridH (st : bot) : Z :=
  match cellH st with
  | Some h => if 0 <? h then h else gridW st
  | None => gridW st
  end.

Definition place (who : user) (cx cy : Z) (st : bot) : bot :=
  let st := clickCanvas cx cy st in
  let st := set_currentPixel (S (currentPixel st)) st in
  let st := if (currentPixel st mod autosaveEvery =? 0)%nat
            then saveState st else st in
  await who AfterPlace (delay st) st.

(** The body of the [while] loop for the task [p] under the cursor. *)
Definition drawStep {M : Math} (who : user) (W H : Z) (p : task) (st : bot) : bot :=
  let cx := startX st + px p * W + W / 2 in
  let cy := startY st + py p * H + H / 2 in
  if useAutoPalette st then
    match selectColorSmart (pcolor p) st with
    | (ResSkip, st) =>
        await who AfterSkip 1 (set_currentPixel (S (currentPixel st)) st)
    | (ResTrue, st) => place who cx cy (await who AfterSelect 180 st)
    | (ResFalse, st) => place who cx cy st
    end
  else place who cx cy st.

Definition looping (st : bot) : bool :=
  isRunning st && (currentPixel st <? List.length (pixels st))%nat.

Fixpoint drawLoop {M : Math} (fuel : nat) (who : user) (W H : Z) (st : bot) : option bot :=
  if looping st then
    match fuel with
    | O => None
    | S fuel' =>
        match nth_error (pixels st) (currentPixel st) with
        | Some p => drawLoop fuel' who W H (drawStep who W H p st)
        | None => None
        end
    end
  else Some st.

Definition finish (st : bot) : bot :=
  let st := set_isRunning false st in
  if (List.length (pixels st) <=? currentPixel st)%nat
  then clearState (say LogFinished st)
  else saveState (say LogStoppedMidway st).

Definition prepare (st : bot) : bot :=
  let st := if useAutoPalette st && Nat.eqb (List.length (colorPalette st)) 0
            then set_useAutoPalette false
                   (warn_once _autoWarned set_autoWarned WarnNoPalette st)
            else st in
  let st := if ((gridW st =? 1) || (gridH st =? 1)) && negb (_warnedNoCell st)
            then set_warnedNoCell true (say WarnNoCell st) else st in
  say LogStarted (set_isRunning true st).

(** [None] would mean that the loop did not come to its end within the
    given number of turns; [start_returns] below shows it never happens. *)
Definition start {M : Math} (who : user) (st : bot) : option bot :=
  if isRunning st then Some (say LogAlreadyRunning st)
  else if Nat.eqb (List.length (pixels st)) 0 then Some (say LogLoadFirst st)
  else if negb (canvas st) then Some (say LogNoCanvas st)
  else
    let st := prepare st in
    option_map finish
      (drawLoop (List.length (pixels st) - currentPixel st) who (gridW st) (gridH st) st).

(** ** Loading a task queue from raw data *)

(** A JavaScript number as [loadImageFromData] can receive it. *)
Inductive jsnum := Fin (q : Q) | NaN | PosInf | NegInf.

(** A field of a raw item, as far as [typeof] tells values apart. *)
Inductive jsval := JUndefined | JNumber (n : jsnum) | JString (s : string) | JOther.

(** An element of [pixelData]: a falsy value, or anything else seen
    through its [x], [y] and [color] properties. *)
Inductive raw := RawFalsy | RawObj (x y color : jsval).

Inductive arg := NotArray | Array (items : list raw).

(** [/^#([0-9a-f]{6})$/i] *)
Definition is_hex6 (s : string) : bool :=
  match s with
  | String "#"%char body =>
      Nat.eqb (String.length body) 6 && Js.all_chars Js.is_hex_digit body
  | _ => false
  end.

(** [/^rgb\s*\(/i] *)
Definition is_rgb_call (s : string) : bool :=
  match s with
  | String c0 (String c1 (String c2 rest)) =>
      Ascii.eqb (Js.lower c0) "r" && Ascii.eqb (Js.lower c1) "g"
      && Ascii.eqb (Js.lower c2) "b"
      && match Js.trim_start rest with
         | String "("%char _ => true
         | _ => false
         end
  | _ => false
  end.

(** [`rgb(${v.r},${v.g},${v.b})`] *)
Definition rgb_text (v : rgb) : string :=
  "rgb(" ++ Js.toString 10 (r v) ++ "," ++ Js.toString 10 (g v) ++ ","
  ++ Js.toString 10 (b v) ++ ")".

Definition normalize_color (c : string) : console + string :=
  let color := Js.trim c in
  if is_hex6 color then inr color
  else if is_rgb_call color then
    match rgbStringToObject color with
    | None => inl ErrInvalidRgb
    | Some v => inr (rgbToHex (rgb_text v))
    end
  else inl ErrColorFormat.

(** [Math.floor(v)] followed by the test
    [x<0 || !Number.isFinite(x)]: the floor when it passes. *)
Definition floor_coord (n : jsnum) : option Z :=
  match n with
  | Fin q => if Qfloor q <? 0 then None else Some (Qfloor q)
  | _ => None
  end.

(** The body of the validation loop for one item. *)
Definition normalize (p : raw) : console + task :=
  match p with
  | RawObj (JNumber nx) (JNumber ny) (JString c) =>
      match normalize_color c with
      | inl e => inl e
      | inr color =>
          match floor_coord nx, floor_coord ny with
          | Some x, Some y => inr {| px := x; py := y; pcolor := color |}
          | _, _ => inl ErrXY
          end
      end
  | _ => inl ErrBadItem
  end.

(** The validation loop: the first bad item ends it. *)
Fixpoint normalize_all (items : list raw) : console + list task :=
  match items with
  | [] => inr []
  | p :: rest =>
      match normalize p with
      | inl e => inl e
      | inr t =>
          match normalize_all rest with
          | inl e => inl e
          | inr norm => inr (t :: norm)
          end
      end
  end.

(** The key [`${p.x},${p.y}`].  Number-to-string conversion is injective
    on the normalized coordinates, so keys are compared as pairs. *)
Definition key : Type := Z * Z.

Definition key_of (p : task) : key := (px p, py p).

Definition key_eqb (k1 k2 : key) : bool :=
  (fst k1 =? fst k2) && (snd k1 =? snd k2).

(** [Map.prototype.set] on an insertion-ordered map: a key already present
    keeps its place and takes the new value. *)
Fixpoint map_set (k : key) (v : task) (m : list (key * task)) : list (key * task) :=
  match m with
  | [] => [(k, v)]
  | (k', v') :: m' =>
      if key_eqb k k' then (k, v) :: m' else (k', v') :: map_set k v m'
  end.

Definition map_values (m : list (key * task)) : list task := List.map snd m.

(** [(a,b) => (a.y-b.y) || (a.x-b.x)] *)
Definition compare_tasks (a c : task) : Z :=
  if py a - py c =? 0 then px a - px c else py a - py c.

(** [Array.prototype.sort] is stable; with a consistent comparator it is
    determined by that, and insertion from the right computes it. *)
Fixpoint insert_task (a : task) (l : list task) : list task :=
  match l with
  | [] => [a]
  | h :: t => if compare_tasks a h <=? 0 then a :: l else h :: insert_task a t
  end.

Definition sort_tasks (l : list task) : list task := fold_right insert_task [] l.

Definition dedup (norm : list task) : list task :=
  sort_tasks
    (map_values (fold_left (fun m p => map_set (key_of p) p m) norm [])).

Definition loadImageFromData (pixelData : arg) (name : option string)
    (st : bot) : bool * bot :=
  match pixelData with
  | NotArray => (false, say ErrNotArray st)
  | Array items =>
      match normalize_all items with
      | inl e => (false, say e st)
      | inr norm =>
          let d := dedup norm in
          let st := set_pixels d st in
          let st := set_currentPixel 0%nat st in
          let st := set_imageName
                      (match name with Some n => n | None => default_name end) st in
          let st := say (LogLoaded (List.length d)) st in
          (true,
           if (List.length d <=? largeSaveCap)%nat then saveState st
           else say LogLargeImage st)
      end
  end.

(** ** Position and pace *)

Definition setStartPosition (x y : Z) (st : bot) : bot :=
  saveState (say LogStartPosition (set_startY (Js.or0 y) (set_startX (Js.or0 x) st))).

Definition setDelay (ms : Z) (st : bot) : bot :=
  saveState (say LogDelay (set_delay (Z.max 0 (Js.or0 ms)) st)).

(** ** Grid calibration *)

(** [Math.round] of a positive finite number. *)
Definition round (q : Q) : Z := Qfloor (q + (1 # 2))%Q.

Definition positive_number (v : jsval) : option Q :=
  match v with
  | JNumber (Fin q) => if Qle_bool q 0 then None else Some q
  | _ => None
  end.

Definition setCellSize (w h : jsval) (st : bot) : bot :=
  match positive_number w, positive_number h with
  | Some qw, Some qh =>
      saveState
        (say LogCellSize (set_cellH (Some (round qh)) (set_cellW (Some (round qw)) st)))
  | _, _ => say WarnCellSize st
  end.

(** [calibrate]: the handler has seen two clicks, at the horizontal
    positions [x1] and [x2]. *)
Definition calibrate (x1 x2 : Q) (st : bot) : bot :=
  let dx := Qabs (x2 - x1) in
  if Qle_bool 1 dx
  then saveState (say LogCalibrated (set_cellW (Some (round dx)) st))
  else say WarnOverlap st.

(** ** Modes, resuming and the vertical calibration *)

Definition set_lockedColorMode (v : mode) (st : bot) : bot :=
  mkBot (isRunning st) (delay st) (currentPixel st) (pixels st) (startX st)
    (startY st) (canvas st) (colorPalette st) (selectedColor st)
    (useAutoPalette st) v (cellW st) (cellH st) (imageName st)
    (_warnedNoCell st) (_skipWarned st) (_manualWarned st) (_autoWarned st)
    (storage st) (storage_ok st) (trace st).

(** [['skip','map','manual'].includes(mode)] *)
Definition mode_named (s : string) : option mode :=
  if String.eqb s "skip" then Some ModeSkip
  else if String.eqb s "map" then Some ModeMap
  else if String.eqb s "manual" then Some ModeManual
  else None.

(** The argument is [None] when it is omitted, which stands for ['map']. *)
Definition setLockedColorMode (m : option string) (st : bot) : bot :=
  match mode_named (match m with Some s => s | None => "map" end) with
  | Some v => say LogLockedMode (set_lockedColorMode v st)
  | None => say WarnLockedMode st
  end.

Definition setManualColorMode (on : bool) (st : bot) : bot :=
  say LogManualMode (set_useAutoPalette (negb on) st).

(** [calibrateY]: the handler has seen two clicks, at the vertical
    positions [y1] and [y2]. *)
Definition calibrateY (y1 y2 : Q) (st : bot) : bot :=
  let dy := Qabs (y2 - y1) in
  if Qle_bool 1 dy
  then saveState (say LogCalibratedH (set_cellH (Some (round dy)) st))
  else say WarnOverlap st.

Definition resume {M : Math} (who : user) (st : bot) : option bot :=
  if Nat.eqb (List.length (pixels st)) 0 then
    match loadState st with
    | (false, st) => Some (say LogNoSession st)
    | (true, st) => start who st
    end
  else start who st.

(** ** Reading a decoded image *)

(** [v.toString(16).padStart(2,'0')] *)
Definition pad2 (s : string) : string :=
  match s with
  | String c EmptyString => String "0"%char (String c EmptyString)
  | EmptyString => "00"
  | _ => s
  end.

Definition byte_hex (v : Z) : string := pad2 (Js.toString 16 v).

(** The body of the two loops of [_loadImageViaTag] at [(x, y)].  A read
    past the end of [data] gives [undefined]: as the alpha it does not
    pass [a<128], as a colour channel it makes [toString] throw, which
    is the [None]. *)
Definition pixel_at (w : nat) (data : list Z) (x y : nat) : option (list raw) :=
  let i := ((y * w + x) * 4)%nat in
  let transparent :=
    match nth_error data (i + 3) with
    | Some va => va <? 128
    | None => false
    end in
  if transparent then Some []
  else
    match nth_error data i, nth_error data (i + 1), nth_error data (i + 2) with
    | Some vr, Some vg, Some vb =>
        Some [RawObj (JNumber (Fin (inject_Z (Z.of_nat x))))
                     (JNumber (Fin (inject_Z (Z.of_nat y))))
                     (JString (String "#"%char
                                 (byte_hex vr ++ byte_hex vg ++ byte_hex vb)))]
    | _, _, _ => None
    end.

(** Runs the bodies in order; the first throw ends the loops. *)
Fixpoint collect (steps : list (option (list raw))) : option (list raw) :=
  match steps with
  | [] => Some []
  | None :: _ => None
  | Some l :: rest =>
      match collect rest with
      | Some l' => Some (l ++ l')%list
      | None => None
      end
  end.

(** [for(y<h) for(x<w)] over the bytes that [getImageData(0,0,w,h)]
    returned. *)
Definition readPixels (w h : nat) (data : list Z) : option (list raw) :=
  collect (flat_map (fun y => List.map (fun x => pixel_at w data x y) (seq 0 w))
             (seq 0 h)).

(** [_loadImageViaTag] from the point where the scaled image has been
    drawn and read back: [None] when reading the pixels throws; the
    answer of [loadImageFromData] is not looked at. *)
Definition _loadImageViaTag (w h : nat) (data : list Z) (name : option string)
    (st : bot) : option (bool * bot) :=
  match readPixels w h data with
  | None => None
  | Some items => Some (true, snd (loadImageFromData (Array items) name st))
  end.

(** ** The earlier release (1.3.0)

    The same object without the lock-aware fields; what differs from the
    later release is modelled here, on the same record. *)

Module Kuro.

(** One turn of the [for] loop of [findClosestColor] on [(best, min)]. *)
Definition nearer {M : Math} (target : rgb) (acc : option entry * option Q) (e : entry)
    : option entry * option Q :=
  match rgbStringToObject (color e) with
  | None => acc
  | Some c =>
      let d := hypot (r target - r c) (g target - g c) (b target - b c) in
      match snd acc with
      | None => (Some e, Some d)
      | Some m => if below d m then (Some e, Some d) else acc
      end
  end.

(** [best] starts as the first entry, so an entry is returned whenever
    the palette is not empty. *)
Definition findClosestColor {M : Math} (palette : list entry) (targetHex : string)
    : option entry :=
  match palette with
  | [] => None
  | first :: _ =>
      let target := match hexToRgb targetHex with Some t => t | None => black end in
      fst (fold_left (nearer target) palette (Some first, None))
  end.

Definition selectColor {M : Math} (colorHex : string) (st : bot) : bool * bot :=
  match findClosestColor (colorPalette st) colorHex with
  | Some e => (true, set_selectedColor colorHex (emit (SwatchClick (element e)) st))
  | None => (false, st)
  end.

Definition saved_of (st : bot) (remaining : list task) : saved :=
  {| s_version := 1;
     s_imageName := imageName st;
     s_startX := Some (startX st);
     s_startY := Some (startY st);
     s_delay := Some (delay st);
     s_currentPixel := currentPixel st;
     s_totalPixels := List.length (pixels st);
     s_remaining := remaining;
     s_cellW := None;
     s_cellH := None |}.

Definition saveState (st : bot) : bot :=
  let remaining := skipn (currentPixel st) (pixels st) in
  let kept := if (largeSaveCap <? List.length remaining)%nat
              then firstn largeSaveCap remaining else remaining in
  if storage_ok st then set_storage (Some (Parsed (saved_of st kept))) st
  else say WarnSaveFailed st.

(** [pixels.slice(c, c + Math.min(largeSaveCap, pixels.length))] *)
Definition saveStateLight (st : bot) : bot :=
  let kept := firstn (Nat.min largeSaveCap (List.length (pixels st)))
                (skipn (currentPixel st) (pixels st)) in
  if storage_ok st then set_storage (Some (Parsed (saved_of st kept))) st
  else say WarnSaveFailed st.

Definition loadState (st : bot) : bool * bot :=
  match storage st with
  | None | Some Blank => (false, st)
  | Some Unparsable => (false, say WarnLoadFailed st)
  | Some Falsy | Some NoQueue => (false, st)
  | Some (Parsed s) =>
      if negb (s_version s =? 1) then (false, st)
      else
        let st := set_imageName
                    (if String.eqb (s_imageName s) "" then default_name
                     else s_imageName s) st in
        let st := set_startX (or_else (s_startX s) (startX st)) st in
        let st := set_startY (or_else (s_startY s) (startY st)) st in
        let st := set_delay (or_else (s_delay s) (delay st)) st in
        let st := set_currentPixel 0%nat (set_pixels (s_remaining s) st) in
        (true, say LogLoadedSession st)
  end.

(** The inner body of [loadSimpleImage] at [(x, y)]. *)
Definition cell_of (flat : list string) (width : nat) (x y : nat) : list task :=
  match nth_error flat (y * width + x) with
  | Some c => [{| px := Z.of_nat x; py := Z.of_nat y; pcolor := c |}]
  | None => []
  end.

(** [width] and [height] are whole numbers; the colours are taken as they
    come. *)
Definition loadSimpleImage (flat : list string) (width height : nat) (st : bot)
    : bool * bot :=
  let out := flat_map (fun y => flat_map (fun x => cell_of flat width x y) (seq 0 width))
               (seq 0 height) in
  let st := set_pixels out st in
  let st := set_currentPixel 0%nat st in
  let st := set_imageName "Simple Image" st in
  (true, saveStateLight (say LogSimpleImage st)).

(** [stop], [sleep] and the loop of [start] in this release: they save
    with this release's [saveState], a click lands at the start position
    plus the task's coordinates, and the colour is picked with
    [selectColor]. *)
Definition stop (st : bot) : bot :=
  let st := if isRunning st then st else say LogNotRunning st in
  say LogStopped (saveState (set_isRunning false st)).

Definition await (who : user) (k : pause) (ms : Z) (st : bot) : bot :=
  let st := emit (Sleep ms) st in
  if who k (currentPixel st) then stop st else st.

Definition place (who : user) (cx cy : Z) (st : bot) : bot :=
  let st := clickCanvas cx cy st in
  let st := set_currentPixel (S (currentPixel st)) st in
  let st := if (currentPixel st mod autosaveEvery =? 0)%nat
            then saveState st else st in
  await who AfterPlace (delay st) st.

Definition drawStep {M : Math} (who : user) (p : task) (st : bot) : bot :=
  let cx := startX st + px p in
  let cy := startY st + py p in
  let st :=
    if useAutoPalette st then
      let (ok, st) := selectColor (pcolor p) st in
      let st := if negb ok && negb (_autoWarned st)
                then set_useAutoPalette false
                       (set_autoWarned true (say WarnNoAutoSelect st))
                else st in
      if useAutoPalette st then await who AfterSelect 200 st else st
    else st in
  place who cx cy st.

Fixpoint drawLoop {M : Math} (fuel : nat) (who : user) (st : bot) : option bot :=
  if looping st then
    match fuel with
    | O => None
    | S fuel' =>
        match nth_error (pixels st) (currentPixel st) with
        | Some p => drawLoop fuel' who (drawStep who p st)
        | None => None
        end
    end
  else Some st.

Definition finish (st : bot) : bot :=
  let st := set_isRunning false st in
  if (List.length (pixels st) <=? currentPixel st)%nat
  then clearState (say LogFinished st)
  else saveState (say LogStoppedMidway st).

Definition prepare (st : bot) : bot :=
  let st := if useAutoPalette st && Nat.eqb (List.length (colorPalette st)) 0
            then set_useAutoPalette false
                   (warn_once _autoWarned set_autoWarned WarnNoPalette st)
            else st in
  say LogStarted (set_isRunning true st).

Definition start {M : Math} (who : user) (st : bot) : option bot :=
  if isRunning st then Some (say LogAlreadyRunning st)
  else if Nat.eqb (List.length (pixels st)) 0 then Some (say LogLoadFirst st)
  else if negb (canvas st) then Some (say LogNoCanvas st)
  else
    let st := prepare st in
    option_map finish (drawLoop (List.length (pixels st) - currentPixel st) who st).

End Kuro.

(** ** Notions used in the statements *)

(** Two lower-case hex digits of a byte. *)
Definition hex2 (v : Z) : string :=
  String (Js.radix_digit (v / 16)) (String (Js.radix_digit (v mod 16)) EmptyString).

(** The conversion in the words of the specification: a channel that is
    missing or outside 0..255 counts as 0, and the result always has six
    hex digits. *)
Definition spec_channel (m : list string) (i : nat) : Z :=
  match nth_error m i with
  | Some d =>
      let v := Js.parseInt10 d in
      if (0 <=? v) && (v <=? 255) then v else 0
  | None => 0
  end.

Definition spec_toHex (s : string) : string :=
  let m := Js.match_digits s in
  String "#"%char
    (hex2 (spec_channel m 0) ++ hex2 (spec_channel m 1) ++ hex2 (spec_channel m 2)).

(** The entries [findClosestEntry] ranks: those that pass the lock filter
    and whose colour text parses. *)
Definition candidate (onlyUnlocked : bool) (e : entry) : bool :=
  negb (onlyUnlocked && locked e)
  && match rgbStringToObject (color e) with Some _ => true | None => false end.

Definition target_of (targetHex : string) : rgb :=
  match hexToRgb targetHex with Some t => t | None => black end.

(** The square of the Euclidean distance between two colours, exactly. *)
Definition squares (a c : rgb) : Z :=
  (r a - r c) * (r a - r c) + (g a - g c) * (g a - g c) + (b a - b c) * (b a - b c).

(** Squared Euclidean distance of an entry to the target, for an entry
    that parses. *)
Definition dist_to (target : rgb) (e : entry) : option Z :=
  option_map (squares target) (rgbStringToObject (color e)).

(** The distance the scan computes for an entry that parses. *)
Definition measured {M : Math} (target : rgb) (e : entry) : option Q :=
  option_map (_dist target) (rgbStringToObject (color e)).

(** Channels as a swatch of the page or a [#RRGGBB] text has them. *)
Definition byte_rgb (v : rgb) : Prop :=
  0 <= r v <= 255 /\ 0 <= g v <= 255 /\ 0 <= b v <= 255.

Definition byte_palette (palette : list entry) : Prop :=
  forall e v, In e palette -> rgbStringToObject (color e) = Some v -> byte_rgb v.

(** What the statements on nearest entries ask of the engine: on
    differences of byte channels, the triple with the smaller sum of
    squares gets the smaller [hypot].  Two such sums differ by 1 at
    least and are 195075 at most, so their roots differ by more than
    0.001: an engine is far within this whose result is the rounded
    root, or off by a few units in the last place.  Nothing is asked
    where the sums are equal. *)
Definition orders (M : Math) : Prop :=
  forall a b c a' b' c',
    - 255 <= a <= 255 -> - 255 <= b <= 255 -> - 255 <= c <= 255 ->
    - 255 <= a' <= 255 -> - 255 <= b' <= 255 -> - 255 <= c' <= 255 ->
    a * a + b * b + c * c < a' * a' + b' * b' + c' * c' ->
    (hypot a b c < hypot a' b' c')%Q.

(** [e] is an entry of the palette that passes the filter [u], parses,
    and is by the exact distance at least as near to the target as every
    such entry. *)
Definition nearest (u : bool) (palette : list entry) (target : rgb) (e : entry) : Prop :=
  In e palette /\ candidate u e = true
  /\ exists d, dist_to target e = Some d
       /\ forall e' d', In e' palette -> candidate u e' = true ->
                        dist_to target e' = Some d' -> d <= d'.

(** An engine to compute with: the root of the sum of squares cut after
    52 binary places. *)
Definition root52 (a b c : Z) : Q :=
  Z.sqrt ((a * a + b * b + c * c) * 2 ^ 104) # 4503599627370496.

(** The closed examples of this file, which name no engine, are computed
    with this one. *)
#[global] Instance root_math : Math | 100 := {| hypot := root52 |}.

(** The state of the scan after the entries [seen]. *)
Definition scan_inv {M : Math} (target : rgb) (u : bool) (seen : list entry)
    (acc : option entry * option Q) : Prop :=
  match acc with
  | (None, None) => forall e, In e seen -> candidate u e = false
  | (Some e, Some d) =>
      In e seen /\ candidate u e = true /\ measured target e = Some d
      /\ forall e' d', In e' seen -> candidate u e' = true ->
                       measured target e' = Some d' -> (d <= d')%Q
  | _ => False
  end.

(** The palette of the policy table: for the target [#000000], [A] is
    locked at distance 1 and [B] is unlocked at distance 5. *)
Definition swatchA : entry := {| element := 1; color := "rgb(1, 0, 0)"; locked := true |}.
Definition swatchB : entry := {| element := 2; color := "rgb(3, 4, 0)"; locked := false |}.

Definition table_bot (m : mode) : bot :=
  {| isRunning := false; delay := 600; currentPixel := 0%nat; pixels := [];
     startX := 0; startY := 0; canvas := true;
     colorPalette := [swatchA; swatchB]; selectedColor := "#000000";
     useAutoPalette := true; lockedColorMode := m;
     cellW := None; cellH := None; imageName := default_name;
     _warnedNoCell := false; _skipWarned := false; _manualWarned := false;
     _autoWarned := false;
     storage := None; storage_ok := true; trace := [] |}.

(** A row of [n] black tasks, as a one-line image loads. *)
Fixpoint row_from (x : Z) (n : nat) : list task :=
  match n with
  | O => []
  | S n' => {| px := x; py := 0; pcolor := "#000000" |} :: row_from (x + 1) n'
  end.

Definition row (n : nat) : list task := row_from 0 n.

Definition row_bot (n : nat) : bot := set_pixels (row n) (new_bot true []).

(** The queue order: ascending by [y], then by [x]. *)
Definition yx_le (a c : task) : Prop := py a < py c \/ (py a = py c /\ px a <= px c).
Definition yx_lt (a c : task) : Prop := py a < py c \/ (py a = py c /\ px a < px c).

(** The task given last for the cell [k] in the normalized input. *)
Definition last_at (k : key) (norm : list task) : option task :=
  find (fun p => key_eqb (key_of p) k) (rev norm).

(** The [Map] built from the normalized input. *)
Definition cells (norm : list task) : list (key * task) :=
  fold_left (fun m p => map_set (key_of p) p m) norm [].

(** A raw item with integer coordinates. *)
Definition item_at (x y : Z) (c : string) : raw :=
  RawObj (JNumber (Fin (inject_Z x))) (JNumber (Fin (inject_Z y))) (JString c).

(** An item the validation loop turns down: a field of the wrong type, a
    coordinate that is not finite or whose floor is negative, or a colour
    text that, trimmed, neither is [#] with six hex digits nor opens with
    [rgb(] and holds three digit runs. *)
Definition bad_coord (n : jsnum) : bool :=
  match n with
  | Fin q => Qfloor q <? 0
  | _ => true
  end.

Definition bad_color (c : string) : bool :=
  negb (is_hex6 (Js.trim c))
  && negb (is_rgb_call (Js.trim c)
           && (3 <=? List.length (Js.match_digits (Js.trim c)))%nat).

Definition malformed (p : raw) : bool :=
  match p with
  | RawObj (JNumber nx) (JNumber ny) (JString c) =>
      bad_color c || bad_coord nx || bad_coord ny
  | _ => true
  end.

Fixpoint last_char (s : string) : option ascii :=
  match s with
  | EmptyString => None
  | String c EmptyString => Some c
  | String _ s' => last_char s'
  end.

(** The colour forms in the words of the specification: [#RRGGBB], or
    [rgb(r,g,b)] read generously as text that opens with [rgb(], closes
    with [)] and holds three numbers. *)
Definition is_rgb_triple (s : string) : bool :=
  is_rgb_call s
  && match last_char s with Some c => Ascii.eqb c ")" | None => false end
  && Nat.eqb (List.length (Js.match_digits s)) 3.

Definition spec_bad_color (c : string) : bool :=
  negb (is_hex6 (Js.trim c)) && negb (is_rgb_triple (Js.trim c)).

Definition spec_malformed (p : raw) : bool :=
  match p with
  | RawObj (JNumber nx) (JNumber ny) (JString c) =>
      spec_bad_color c || bad_coord nx || bad_coord ny
  | _ => true
  end.

(** What a run of the loop leaves alone. *)
Definition same_setup (st st' : bot) : Prop :=
  pixels st' = pixels st /\ startX st' = startX st /\ startY st' = startY st
  /\ delay st' = delay st /\ canvas st' = canvas st
  /\ colorPalette st' = colorPalette st /\ lockedColorMode st' = lockedColorMode st
  /\ cellW st' = cellW st /\ cellH st' = cellH st
  /\ storage_ok st' = storage_ok st /\ imageName st' = imageName st
  /\ _autoWarned st' = _autoWarned st.

(** The clicks on the board in a list of events. *)
Definition clicks (evs : list event) : list (Z * Z) :=
  flat_map (fun e => match e with CanvasClick x y => [(x, y)] | _ => [] end) evs.

(** Any event but the missing-palette advisory. *)
Definition calm (e : event) : Prop :=
  match e with
  | Console WarnNoPalette => False
  | _ => True
  end.

(** [st'] has the trace of [st] followed by events whose clicks on the
    board are [cl], in this order, and that hold no missing-palette
    advisory. *)
Definition grows (cl : list (Z * Z)) (st st' : bot) : Prop :=
  exists evs, trace st' = (trace st ++ evs)%list /\ clicks evs = cl /\ Forall calm evs.

(** A stretch of a run: the setup stays, the trace grows with the clicks
    [cl], and a session in manual colour mode stays in it. *)
Definition proceeds (cl : list (Z * Z)) (st st' : bot) : Prop :=
  same_setup st st' /\ grows cl st st'
  /\ (useAutoPalette st = false -> useAutoPalette st' = false).

(** Where [start] clicks for the task [p]. *)
Definition deviceX (st : bot) (p : task) : Z := startX st + px p * gridW st + gridW st / 2.
Definition deviceY (st : bot) (p : task) : Z := startY st + py p * gridH st + gridH st / 2.

(** The point [start] computes for the task [p] from the cell size [W],
    [H] it settled on. *)
Definition target_point (W H : Z) (st : bot) (p : task) : Z * Z :=
  (startX st + px p * W + W / 2, startY st + py p * H + H / 2).

(** The task under the cursor is passed over without a click. *)
Definition skips {M : Math} (st : bot) (p : task) : bool :=
  useAutoPalette st
  && match fst (selectColorSmart (pcolor p) st) with ResSkip => true | _ => false end.

(** The clicks on the board of one turn of the loop. *)
Definition step_clicks {M : Math} (W H : Z) (st : bot) (p : task) : list (Z * Z) :=
  if skips st p then [] else [target_point W H st p].

(** The user never calls [stop()]. *)
Definition never : user := fun _ _ => false.

(** The last line the run wrote on the console. *)
Definition ended_with (c : console) (st : bot) : Prop :=
  exists evs, trace st = (evs ++ [Console c])%list.

(** The number of tasks in the stored checkpoint. *)
Definition saved_count (st : bot) : option nat :=
  match storage st with
  | Some (Parsed s) => Some (List.length (s_remaining s))
  | _ => None
  end.

(** The missing-palette advisory, when [start] gives it. *)
Definition advisory (st : bot) : list event :=
  if useAutoPalette st && Nat.eqb (List.length (colorPalette st)) 0
     && negb (_autoWarned st)
  then [Console WarnNoPalette] else [].

(** The user calls [stop()] during the pause after the first placement. *)
Definition stop_after_first : user :=
  fun k n => match k with AfterPlace => Nat.eqb n 1 | _ => false end.

(** The mapping in the words of the specification: a cell dimension that
    is not calibrated counts as 1. *)
Definition unit_or (c : option Z) : Z :=
  match c with
  | Some v => if 0 <? v then v else 1
  | None => 1
  end.

Definition claimed_point (st : bot) (p : task) : Z * Z :=
  (startX st + px p * unit_or (cellW st) + unit_or (cellW st) / 2,
   startY st + py p * unit_or (cellH st) + unit_or (cellH st) / 2).

(** A session whose width was calibrated to 14 and whose height was not,
    with one task in the second row. *)
Definition half_calibrated : bot :=
  calibrate 100 114
    (snd (loadImageFromData (Array [item_at 0 1 "#000000"]) None (new_bot true []))).

(** A batch that names the cell [(1, 0)] twice. *)
Definition sample_batch : list raw :=
  [item_at 1 0 "#ff0000"; item_at 0 0 "rgb(1, 2, 3)"; item_at 1 0 "#00ff00"].

Definition sample_loaded : bot :=
  snd (loadImageFromData (Array sample_batch) None (new_bot true [])).

(** The quick test of the help text: a 5 by 5 block of [#FF0000], start
    position (120, 300), delay 300, no palette in the page. *)
Definition block5 : list raw :=
  flat_map (fun y => List.map (fun x => item_at x y "#FF0000") [0; 1; 2; 3; 4])
    [0; 1; 2; 3; 4].

Definition quick_test : bot :=
  setDelay 300
    (setStartPosition 120 300
       (snd (loadImageFromData (Array block5) (Some "Red 5x5") (new_bot true [])))).

(** A session opened on the checkpoint that [st] left behind: a new
    object on a page with the given board and palette. *)
Definition reopened (found_canvas : bool) (palette : list entry) (st : bot) : bot :=
  set_storage (storage st) (new_bot found_canvas palette).

(** The same session on a store that refuses writes. *)
Definition set_storage_ok_false (st : bot) : bot :=
  mkBot (isRunning st) (delay st) (currentPixel st) (pixels st) (startX st)
    (startY st) (canvas st) (colorPalette st) (selectedColor st)
    (useAutoPalette st) (lockedColorMode st) (cellW st) (cellH st) (imageName st)
    (_warnedNoCell st) (_skipWarned st) (_manualWarned st) (_autoWarned st)
    (storage st) false (trace st).

(** [st'] has the trace of [st] followed by events that all satisfy [P]. *)
Definition adds (P : event -> Prop) (st st' : bot) : Prop :=
  exists evs, trace st' = (trace st ++ evs)%list /\ Forall P evs.

(** Not a click on a swatch. *)
Definition noswatch (e : event) : Prop :=
  match e with SwatchClick _ => False | _ => True end.

(** A click on a swatch is on an unlocked entry of [palette]. *)
Definition permitted (palette : list entry) (e : event) : Prop :=
  match e with
  | SwatchClick el => exists en, In en palette /\ element en = el /\ locked en = false
  | _ => True
  end.

(** What a turn of the loop may add when it starts in the state [st]. *)
Definition in_policy (st : bot) (e : event) : Prop :=
  permitted (colorPalette st) e /\ (useAutoPalette st = false -> noswatch e).

(** The queue is strictly ascending by [(y, x)], and so is the list of
    tasks in the stored checkpoint, if there is one. *)
Definition tidy (st : bot) : Prop :=
  StronglySorted yx_lt (pixels st)
  /\ forall s, storage st = Some (Parsed s) -> StronglySorted yx_lt (s_remaining s).

(** A tidy session whose cursor is within the queue. *)
Definition orderly (st : bot) : Prop :=
  (currentPixel st <= List.length (pixels st))%nat /\ tidy st.

(** The best entry so far stands in [seen] after entries whose computed
    distances are all strictly greater. *)
Definition scan_first {M : Math} (target : rgb) (u : bool) (seen : list entry)
    (acc : option entry * option Q) : Prop :=
  match acc with
  | (Some e, Some d) =>
      exists l1 l2, seen = (l1 ++ e :: l2)%list
        /\ forall e' d', In e' l1 -> candidate u e' = true ->
                         measured target e' = Some d' -> (d < d')%Q
  | _ => True
  end.

(** What a decoded image shows at [(x, y)]: nothing where the alpha is
    below 128, else the task with the three colour bytes in hex. *)
Definition visible (w : nat) (data : list Z) (x y : nat) : list task :=
  let i := ((y * w + x) * 4)%nat in
  if nth (i + 3) data 0 <? 128 then []
  else [ {| px := Z.of_nat x; py := Z.of_nat y;
            pcolor := String "#"%char
                        (hex2 (nth i data 0) ++ hex2 (nth (i + 1) data 0)
                         ++ hex2 (nth (i + 2) data 0)) |} ].

(** The visible pixels, row by row from the top, each row left to right. *)
Definition picture (w h : nat) (data : list Z) : list task :=
  flat_map (fun y => flat_map (fun x => visible w data x y) (seq 0 w)) (seq 0 h).

(** How the scan of the earlier release relates to the later one's
    without the lock filter: the same least distance, the same entry
    once a colour has parsed, and until then the first entry against
    none. *)
Definition paired (first : entry) (old new : option entry * option Q) : Prop :=
  snd old = snd new
  /\ match snd new with
     | Some _ => fst old = fst new
     | None => fst old = Some first /\ fst new = None
     end.

(** The task that [loadSimpleImage] makes of the [i]-th colour of a
    matrix [width] wide. *)
Definition cell_task (flat : list string) (width : nat) (i : nat) : task :=
  {| px := Z.of_nat (i mod width); py := Z.of_nat (i / width);
     pcolor := nth i flat "" |}.

(** The actions on the page in a list of events: clicks on swatches and
    on the board, in their order. *)
Definition page_events (evs : list event) : list event :=
  filter (fun e => match e with
                   | SwatchClick _ | CanvasClick _ _ => true
                   | _ => false
                   end) evs.

(** What release 1.3.0 does on the page for one task: in auto mode a
    click on the swatch nearest to the task's colour, then the click on
    the board. *)
Definition earlier_turn {M : Math} (st : bot) (p : task) : list event :=
  ((if useAutoPalette st then
      match Kuro.findClosestColor (colorPalette st) (pcolor p) with
      | Some e => [SwatchClick (element e)]
      | None => []
      end
    else [])
   ++ [CanvasClick (startX st + px p) (startY st + py p)])%list.

(** A stretch of a run of release 1.3.0 that is not stopped: the setup
    stays, and the trace grows by events whose actions on the page are
    [pg]. *)
Definition acts (pg : list event) (st st' : bot) : Prop :=
  pixels st' = pixels st /\ startX st' = startX st /\ startY st' = startY st
  /\ canvas st' = canvas st /\ colorPalette st' = colorPalette st
  /\ useAutoPalette st' = useAutoPalette st /\ isRunning st' = isRunning st
  /\ exists evs, trace st' = (trace st ++ evs)%list /\ page_events evs = pg.

(** A text with its capital letters turned to small ones. *)
Fixpoint lower_text (s : string) : string :=
  match s with
  | EmptyString => EmptyString
  | String c s' => String (Js.lower c) (lower_text s')
  end.

(** A session in skip mode with both dimensions calibrated, on a palette
    with a locked and an unlocked entry: the first task is nearest to
    the locked entry, the second to the unlocked one. *)
Definition mixed_run : bot :=
  setStartPosition 100 200
    (setCellSize (JNumber (Fin (inject_Z 14))) (JNumber (Fin (inject_Z 10)))
       (setLockedColorMode (Some "skip")
          (snd (loadImageFromData
                  (Array [item_at 0 0 "#000000"; item_at 2 1 "#030400"]) None
                  (new_bot true [swatchA; swatchB]))))).

(** * Properties *)

(** ** Colour conversion *)

Example rgbToHex_plain : rgbToHex "rgb(255, 128, 0)" = "#ff8000".
Proof. reflexivity. Qed.

Example rgbToHex_rgba : rgbToHex "rgba(1, 2, 3, 0.5)" = "#010203".
Proof. reflexivity. Qed.

Example hexToRgb_plain : hexToRgb "#FF8000" = Some {| r := 255; g := 128; b := 0 |}.
Proof. reflexivity. Qed.

Example hexToRgb_short : hexToRgb "#FFF" = None.
Proof. reflexivity. Qed.

Lemma nibble_cases (d : Z) :
  0 <= d < 16 ->
  d = 0 \/ d = 1 \/ d = 2 \/ d = 3 \/ d = 4 \/ d = 5 \/ d = 6 \/ d = 7 \/
  d = 8 \/ d = 9 \/ d = 10 \/ d = 11 \/ d = 12 \/ d = 13 \/ d = 14 \/ d = 15.
Proof. lia. Qed.

Lemma radix_digit_hex (d : Z) :
  0 <= d < 16 ->
  Js.is_hex_digit (Js.radix_digit d) = true /\ Js.digit_val (Js.radix_digit d) = d.
Proof.
  intros Hd.
  destruct (nibble_cases d Hd) as
    [->|[->|[->|[->|[->|[->|[->|[->|[->|[->|[->|[->|[->|[->|[->| ->]]]]]]]]]]]]]]];
    split; reflexivity.
Qed.

Lemma parseInt16_hex2 (v : Z) : 0 <= v < 256 -> Js.parseInt16 (hex2 v) = v.
Proof.
  intros Hv.
  assert (H1 : 0 <= v / 16 < 16) by (split; [apply Z.div_pos | apply Z.div_lt_upper_bound]; lia).
  assert (H0 : 0 <= v mod 16 < 16) by (apply Z.mod_pos_bound; lia).
  unfold Js.parseInt16, hex2; simpl.
  rewrite (proj2 (radix_digit_hex _ H1)), (proj2 (radix_digit_hex _ H0)).
  pose proof (Z.div_mod v 16); lia.
Qed.

Lemma hex2_is_hex (v : Z) :
  0 <= v < 256 -> Js.all_chars Js.is_hex_digit (hex2 v) = true.
Proof.
  intros Hv.
  assert (H1 : 0 <= v / 16 < 16) by (split; [apply Z.div_pos | apply Z.div_lt_upper_bound]; lia).
  assert (H0 : 0 <= v mod 16 < 16) by (apply Z.mod_pos_bound; lia).
  unfold hex2; simpl.
  now rewrite (proj1 (radix_digit_hex _ H1)), (proj1 (radix_digit_hex _ H0)).
Qed.

Lemma to_radix_S (radix : Z) (f : nat) (n : Z) (acc : string) :
  Js.to_radix radix (S f) n acc
  = if n <? radix then String (Js.radix_digit (n mod radix)) acc
    else Js.to_radix radix f (n / radix) (String (Js.radix_digit (n mod radix)) acc).
Proof. reflexivity. Qed.

Lemma to_radix16_more (f : nat) (m d : Z) (acc : string) :
  0 <= d < 16 -> 1 <= m ->
  Js.to_radix 16 (S f) (16 * m + d) acc
  = Js.to_radix 16 f m (String (Js.radix_digit d) acc).
Proof.
  intros Hd Hm. rewrite to_radix_S.
  replace ((16 * m + d) mod 16) with d
    by (apply (Z.mod_unique _ _ m); lia).
  replace ((16 * m + d) / 16) with m
    by (apply (Z.div_unique _ _ m d); lia).
  destruct (Z.ltb_spec (16 * m + d) 16); [lia | reflexivity].
Qed.

Lemma toInt32_small (z : Z) : - 2 ^ 31 <= z < 2 ^ 31 -> Js.toInt32 z = z.
Proof.
  intros Hz. unfold Js.toInt32.
  rewrite Z.mod_small by lia. lia.
Qed.

Lemma shl_byte (v k : Z) :
  0 <= v < 256 -> 0 <= k <= 16 -> Js.shl (Some v) k = v * 2 ^ k.
Proof.
  intros Hv Hk. unfold Js.shl.
  rewrite (toInt32_small v) by lia.
  rewrite Z.shiftl_mul_pow2 by lia.
  apply toInt32_small.
  assert (0 < 2 ^ k <= 2 ^ 16) by (split; [apply Z.pow_pos_nonneg | apply Z.pow_le_mono_r]; lia).
  nia.
Qed.

(** The packed number of three bytes prints as [1] followed by their six
    hex digits. *)
Lemma toString16_packed (vr vg vb : Z) :
  0 <= vr < 256 -> 0 <= vg < 256 -> 0 <= vb < 256 ->
  Js.toString 16 (2 ^ 24 + vr * 2 ^ 16 + vg * 2 ^ 8 + vb)
  = String "1"%char (hex2 vr ++ hex2 vg ++ hex2 vb).
Proof.
  intros Hr Hg Hb.
  set (n := 2 ^ 24 + vr * 2 ^ 16 + vg * 2 ^ 8 + vb).
  assert (Hn : 2 ^ 24 <= n < 2 ^ 25) by (subst n; lia).
  unfold Js.toString.
  destruct (Z.ltb_spec n 0); [lia |].
  unfold Js.digits_of.
  replace (Z.log2 n) with 24 by (symmetry; apply Z.log2_unique; lia).
  change (Z.to_nat 24) with 24%nat.
  pose proof (Z.div_mod vr 16) as Er. pose proof (Z.div_mod vg 16) as Eg.
  pose proof (Z.div_mod vb 16) as Eb.
  assert (0 <= vr / 16 < 16) by (split; [apply Z.div_pos | apply Z.div_lt_upper_bound]; lia).
  assert (0 <= vg / 16 < 16) by (split; [apply Z.div_pos | apply Z.div_lt_upper_bound]; lia).
  assert (0 <= vb / 16 < 16) by (split; [apply Z.div_pos | apply Z.div_lt_upper_bound]; lia).
  assert (0 <= vr mod 16 < 16) by (apply Z.mod_pos_bound; lia).
  assert (0 <= vg mod 16 < 16) by (apply Z.mod_pos_bound; lia).
  assert (0 <= vb mod 16 < 16) by (apply Z.mod_pos_bound; lia).
  replace n with
    (16 * (16 * (16 * (16 * (16 * (16 * 1 + vr / 16) + vr mod 16) + vg / 16)
                 + vg mod 16) + vb / 16) + vb mod 16)
    by (subst n; lia).
  do 6 (rewrite to_radix16_more by lia).
  reflexivity.
Qed.

Lemma pack_bytes (vr vg vb : Z) :
  0 <= vr < 256 -> 0 <= vg < 256 -> 0 <= vb < 256 ->
  pack (Some vr) (Some vg) (Some vb)
  = Some (2 ^ 24 + vr * 2 ^ 16 + vg * 2 ^ 8 + vb).
Proof.
  intros Hr Hg Hb. unfold pack.
  rewrite (shl_byte vr 16), (shl_byte vg 8) by lia.
  change (Js.shl (Some 1) 24) with (2 ^ 24).
  reflexivity.
Qed.

Lemma hexToRgb_hex2 (vr vg vb : Z) :
  0 <= vr < 256 -> 0 <= vg < 256 -> 0 <= vb < 256 ->
  is_hex6 (String "#"%char (hex2 vr ++ hex2 vg ++ hex2 vb)) = true
  /\ hexToRgb (String "#"%char (hex2 vr ++ hex2 vg ++ hex2 vb))
     = Some {| r := vr; g := vg; b := vb |}.
Proof.
  intros Hr Hg Hb.
  pose proof (hex2_is_hex vr Hr) as Ar. pose proof (hex2_is_hex vg Hg) as Ag.
  pose proof (hex2_is_hex vb Hb) as Ab.
  pose proof (parseInt16_hex2 vr Hr) as Pr. pose proof (parseInt16_hex2 vg Hg) as Pg.
  pose proof (parseInt16_hex2 vb Hb) as Pb.
  unfold hex2 in *. unfold is_hex6, hexToRgb.
  cbn [append String.length Nat.eqb Js.all_chars substring andb] in *.
  apply andb_prop in Ar as [Ar1 Ar2]. apply andb_prop in Ag as [Ag1 Ag2].
  apply andb_prop in Ab as [Ab1 Ab2].
  rewrite andb_true_r in Ar2, Ag2, Ab2.
  rewrite Ar1, Ar2, Ag1, Ag2, Ab1, Ab2. cbn [andb].
  now rewrite Pr, Pg, Pb.
Qed.

(** C9, as the code has it.  When the first three digit runs of the input
    are channel values in 0..255, [rgbToHex] yields [#] and the six hex
    digits of the three channels, which [hexToRgb] reads back; an input
    without any digit yields [#000000]. *)
Theorem rgbToHex_bytes (s : string) :
  (Js.match_digits s = [] -> rgbToHex s = "#000000")
  /\ (forall m0 m1 m2 rest,
        Js.match_digits s = m0 :: m1 :: m2 :: rest ->
        0 <= Js.parseInt10 m0 <= 255 ->
        0 <= Js.parseInt10 m1 <= 255 ->
        0 <= Js.parseInt10 m2 <= 255 ->
        rgbToHex s
        = String "#"%char
            (hex2 (Js.parseInt10 m0) ++ hex2 (Js.parseInt10 m1) ++ hex2 (Js.parseInt10 m2))
        /\ is_hex6 (rgbToHex s) = true
        /\ hexToRgb (rgbToHex s)
           = Some {| r := Js.parseInt10 m0; g := Js.parseInt10 m1; b := Js.parseInt10 m2 |}).
Proof.
  split.
  - intros E. unfold rgbToHex. now rewrite E.
  - intros m0 m1 m2 rest E H0 H1 H2.
    assert (R : rgbToHex s
                = String "#"%char
                    (hex2 (Js.parseInt10 m0) ++ hex2 (Js.parseInt10 m1)
                     ++ hex2 (Js.parseInt10 m2))).
    { unfold rgbToHex. rewrite E. unfold channel.
      cbn [nth_error option_map].
      rewrite pack_bytes by lia.
      cbn [Js.num_toString].
      rewrite toString16_packed by lia.
      reflexivity. }
    rewrite R. split; [reflexivity |].
    apply hexToRgb_hex2; lia.
Qed.

Lemma rgbToHex_bytes_witness :
  Js.match_digits "rgb(255, 128, 0)" = ["255"; "128"; "0"]
  /\ rgbToHex "rgb(255, 128, 0)" = "#ff8000"
  /\ is_hex6 (rgbToHex "rgb(255, 128, 0)") = true
  /\ hexToRgb (rgbToHex "rgb(255, 128, 0)") = Some {| r := 255; g := 128; b := 0 |}.
Proof.
  split; [reflexivity |].
  apply (proj2 (rgbToHex_bytes "rgb(255, 128, 0)") "255" "128" "0" []);
    [reflexivity | vm_compute; split; discriminate ..].
Defined.

(** C9 as stated fails: a missing third channel makes the sum [NaN], and a
    channel above 255 is packed as it is, so it is neither dropped nor is
    the length kept. *)
Lemma rgbToHex_not_clamped :
  rgbToHex "rgb(1,2)" = "#aN"
  /\ is_hex6 (rgbToHex "rgb(1,2)") = false
  /\ rgbToHex "rgb(300,0,0)" = "#2c0000"
  /\ spec_toHex "rgb(300,0,0)" = "#000000"
  /\ rgbToHex "rgb(4096,0,0)" = "#1000000"
  /\ is_hex6 (rgbToHex "rgb(4096,0,0)") = false.
Proof. repeat split. Qed.

Lemma hex_digit_back (c : ascii) :
  Js.is_hex_digit c = true ->
  0 <= Js.digit_val c < 16 /\ Js.radix_digit (Js.digit_val c) = Js.lower c.
Proof.
  intros Hc.
  assert (H : forallb
                (fun n =>
                   let a := ascii_of_nat n in
                   implb (Js.is_hex_digit a)
                     ((0 <=? Js.digit_val a) && (Js.digit_val a <? 16)
                      && Ascii.eqb (Js.radix_digit (Js.digit_val a)) (Js.lower a)))
                (seq 0 256) = true) by (vm_compute; reflexivity).
  rewrite forallb_forall in H.
  assert (Hin : In (nat_of_ascii c) (seq 0 256)).
  { apply in_seq. pose proof (nat_ascii_bounded c). lia. }
  specialize (H _ Hin). cbv zeta in H. rewrite ascii_nat_embedding, Hc in H.
  cbn [implb] in H. apply andb_prop in H as [H1 H3]. apply andb_prop in H1 as [H1 H2].
  apply Z.leb_le in H1. apply Z.ltb_lt in H2. apply Ascii.eqb_eq in H3.
  split; [lia | exact H3].
Qed.

Lemma hex_pair (c1 c2 : ascii) :
  Js.is_hex_digit c1 = true -> Js.is_hex_digit c2 = true ->
  0 <= Js.parseInt16 (String c1 (String c2 "")) <= 255
  /\ hex2 (Js.parseInt16 (String c1 (String c2 "")))
     = String (Js.lower c1) (String (Js.lower c2) "").
Proof.
  intros H1 H2.
  destruct (hex_digit_back c1 H1) as [R1 <-]. destruct (hex_digit_back c2 H2) as [R2 <-].
  unfold Js.parseInt16. cbn [Js.parse_radix].
  set (d1 := Js.digit_val c1) in *. set (d2 := Js.digit_val c2) in *.
  replace ((0 * 16 + d1) * 16 + d2) with (d2 + d1 * 16) by lia.
  split; [lia |]. unfold hex2.
  rewrite Z.div_add, Z.mod_add by lia.
  rewrite Z.div_small, Z.mod_small by lia. reflexivity.
Qed.

(** ** Nearest palette entry *)

Lemma below_spec (d bestD : Q) :
  (below d bestD = true -> (d < bestD)%Q) /\ (below d bestD = false -> (bestD <= d)%Q).
Proof.
  unfold below. destruct (Qle_bool bestD d) eqn:E; cbn; split; try discriminate; intros _.
  - now apply Qle_bool_iff.
  - apply Qnot_le_lt. intros H. apply Qle_bool_iff in H. congruence.
Qed.

Section Scan.

Context {M : Math}.
Variable target : rgb.
Variable u : bool.

Lemma closer_inv (seen : list entry) (acc : option entry * option Q) (e : entry) :
  scan_inv target u seen acc ->
  scan_inv target u (seen ++ [e]) (closer target u acc e).
Proof.
  intros Hinv.
  assert (Hskip : candidate u e = false -> scan_inv target u (seen ++ [e]) acc).
  { intros Hc. destruct acc as [[b0|] [d0|]]; cbn in *; try contradiction.
    - destruct Hinv as (Hin & Hcand & Hd & Hmin).
      split; [apply in_or_app; now left |].
      split; [assumption |]. split; [assumption |].
      intros e' d' Hin' Hc' Hd'. apply in_app_or in Hin' as [Hin'|[<-|[]]].
      + eauto.
      + congruence.
    - intros e' Hin'. apply in_app_or in Hin' as [Hin'|[<-|[]]]; auto. }
  unfold closer.
  destruct (u && locked e) eqn:Hlock.
  { apply Hskip. unfold candidate. now rewrite Hlock. }
  destruct (rgbStringToObject (color e)) as [c|] eqn:Hparse.
  2:{ apply Hskip. unfold candidate. rewrite Hparse. apply andb_false_r. }
  assert (Hce : candidate u e = true) by (unfold candidate; now rewrite Hlock, Hparse).
  assert (Hde : measured target e = Some (_dist target c))
    by (unfold measured; now rewrite Hparse).
  destruct acc as [[b0|] [d0|]]; cbn [snd scan_inv] in *; try contradiction.
  - destruct Hinv as (Hin & Hcand & Hd & Hmin).
    destruct (below_spec (_dist target c) d0) as [Hlt Hge].
    destruct (below (_dist target c) d0).
    + specialize (Hlt eq_refl).
      split; [apply in_or_app; right; now left |].
      split; [assumption |]. split; [assumption |].
      intros e' d' Hin' Hc' Hd'. apply in_app_or in Hin' as [Hin'|[<-|[]]].
      * specialize (Hmin e' d' Hin' Hc' Hd').
        apply Qlt_le_weak. now apply Qlt_le_trans with d0.
      * rewrite Hde in Hd'. injection Hd' as <-. apply Qle_refl.
    + specialize (Hge eq_refl).
      split; [apply in_or_app; now left |].
      split; [assumption |]. split; [assumption |].
      intros e' d' Hin' Hc' Hd'. apply in_app_or in Hin' as [Hin'|[<-|[]]].
      * eauto.
      * rewrite Hde in Hd'. injection Hd' as <-. exact Hge.
  - split; [apply in_or_app; right; now left |].
    split; [assumption |]. split; [assumption |].
    intros e' d' Hin' Hc' Hd'. apply in_app_or in Hin' as [Hin'|[<-|[]]].
    + rewrite Hinv in Hc' by assumption. discriminate.
    + rewrite Hde in Hd'. injection Hd' as <-. apply Qle_refl.
Qed.

Lemma scan_spec (palette : list entry) :
  scan_inv target u palette (fold_left (closer target u) palette (None, None)).
Proof.
  induction palette as [|e l IH] using rev_ind.
  - cbn. intros e [].
  - rewrite fold_left_app. cbn [fold_left]. now apply closer_inv.
Qed.

Lemma scan_first_spec (palette : list entry) :
  scan_first target u palette (fold_left (closer target u) palette (None, None)).
Proof.
  induction palette as [|x l IH] using rev_ind; [exact I |].
  rewrite fold_left_app. cbn [fold_left].
  pose proof (scan_spec l) as Hinv.
  destruct (fold_left (closer target u) l (None, None)) as [b0 d0].
  unfold closer.
  assert (Hkeep : scan_first target u l (b0, d0) -> scan_first target u (l ++ [x]) (b0, d0)).
  { destruct b0 as [e|], d0 as [d|]; cbn; auto.
    intros (l1 & l2 & -> & Hl1). exists l1, (l2 ++ [x])%list.
    split; [now rewrite <- app_assoc | exact Hl1]. }
  destruct (u && locked x); [now apply Hkeep |].
  destruct (rgbStringToObject (color x)) as [c|] eqn:Hparse; [| now apply Hkeep].
  cbn [snd]. destruct d0 as [d|].
  - destruct (below_spec (_dist target c) d) as [Hlt _].
    destruct (below (_dist target c) d); [| now apply Hkeep].
    specialize (Hlt eq_refl).
    destruct b0 as [e|]; cbn in Hinv; [| contradiction].
    destruct Hinv as (_ & _ & _ & Hmin).
    exists l, []. split; [reflexivity |].
    intros e' d' Hin Hc Hd. specialize (Hmin e' d' Hin Hc Hd).
    now apply Qlt_le_trans with d.
  - destruct b0 as [e|]; cbn in Hinv; [contradiction |].
    exists l, []. split; [reflexivity |].
    intros e' d' Hin Hc _. rewrite (Hinv e' Hin) in Hc. discriminate.
Qed.

End Scan.

(** What [findClosestEntry] returns is an entry of the palette that passes
    the filter, parses, and whose computed distance is no greater than
    that of every other such entry. *)
Lemma findClosestEntry_some {M : Math} (palette : list entry) (hex : string) (u : bool)
    (e : entry) :
  findClosestEntry palette hex u = Some e ->
  In e palette /\ candidate u e = true
  /\ exists d, measured (target_of hex) e = Some d
       /\ forall e' d', In e' palette -> candidate u e' = true ->
                        measured (target_of hex) e' = Some d' -> (d <= d')%Q.
Proof.
  unfold findClosestEntry. fold (target_of hex).
  pose proof (scan_spec (target_of hex) u palette) as H.
  destruct (fold_left _ palette _) as [[b0|] [d0|]]; cbn in *; try contradiction;
    intros [= <-] || intros [=].
  destruct H as (Hin & Hc & Hd & Hmin). eauto 6.
Qed.

Lemma findClosestEntry_none {M : Math} (palette : list entry) (hex : string) (u : bool) :
  findClosestEntry palette hex u = None <->
  forall e, In e palette -> candidate u e = false.
Proof.
  unfold findClosestEntry. fold (target_of hex).
  pose proof (scan_spec (target_of hex) u palette) as H.
  destruct (fold_left _ palette _) as [[b0|] [d0|]]; cbn in *; try contradiction.
  - destruct H as (Hin & Hc & _). split; [discriminate |].
    intros Hall. rewrite Hall in Hc by assumption. discriminate.
  - split; auto.
Qed.

Lemma findClosestEntry_finds {M : Math} (palette : list entry) (hex : string) (u : bool)
    (e : entry) :
  In e palette -> candidate u e = true ->
  exists c, findClosestEntry palette hex u = Some c.
Proof.
  intros Hin Hc. destruct (findClosestEntry palette hex u) as [c|] eqn:E; [eauto |].
  rewrite findClosestEntry_none in E. rewrite (E e Hin) in Hc. discriminate.
Qed.

(** The engine to compute with orders byte distances. *)
Lemma root_orders : orders root_math.
Proof.
  intros a b c a' b' c' Ha Hb Hc Ha' Hb' Hc' Hlt.
  cbn [hypot root_math]. unfold root52, Qlt. cbn [Qnum Qden].
  set (s := a * a + b * b + c * c) in *.
  set (s' := a' * a' + b' * b' + c' * c') in *.
  assert (Hs : 0 <= s) by (subst s; nia).
  assert (Hs' : s' <= 195075) by (subst s'; nia).
  apply Z.mul_lt_mono_pos_r; [reflexivity |].
  set (X := s * 2 ^ 104). set (Y := s' * 2 ^ 104).
  assert (HX : 0 <= X) by (subst X; lia).
  assert (HXY : X + 2 ^ 104 <= Y) by (subst X Y; lia).
  pose proof (Z.sqrt_spec X HX) as [Hlo _]. cbv zeta in Hlo.
  pose proof (Z.sqrt_nonneg X) as Hnn.
  assert (Hup : Z.sqrt X < 2 ^ 61).
  { apply Z.sqrt_lt_square; [exact HX | lia |]. subst X. lia. }
  apply Z.le_succ_l. apply Z.sqrt_le_square; [lia | lia |].
  set (rx := Z.sqrt X) in *.
  replace (Z.succ rx * Z.succ rx) with (rx * rx + 2 * rx + 1) by ring.
  lia.
Qed.

Lemma hexToRgb_bytes (hex : string) (v : rgb) : hexToRgb hex = Some v -> byte_rgb v.
Proof.
  unfold hexToRgb.
  set (body := match hex with String "#"%char rest => rest | _ => hex end).
  destruct (Nat.eqb (String.length body) 6 && Js.all_chars Js.is_hex_digit body) eqn:E;
    [| discriminate].
  apply andb_prop in E as [Hlen Hall].
  destruct body as [|c1 [|c2 [|c3 [|c4 [|c5 [|c6 [|c7 rest]]]]]]]; try discriminate.
  cbn [Js.all_chars] in Hall.
  repeat match type of Hall with
         | (_ && _)%bool = true => apply andb_prop in Hall as [?H Hall]
         end.
  intros [= <-]. cbn [substring].
  split; [| split]; cbn [r g b]; apply hex_pair; assumption.
Qed.

Lemma target_bytes (hex : string) : byte_rgb (target_of hex).
Proof.
  unfold target_of. destruct (hexToRgb hex) as [v|] eqn:E.
  - now apply hexToRgb_bytes in E.
  - unfold byte_rgb, black. cbn. lia.
Qed.

Lemma orders_squares {M : Math} (t v v' : rgb) :
  orders M -> byte_rgb t -> byte_rgb v -> byte_rgb v' ->
  squares t v < squares t v' -> (_dist t v < _dist t v')%Q.
Proof.
  intros Ho (T1 & T2 & T3) (V1 & V2 & V3) (W1 & W2 & W3) Hlt.
  unfold _dist. apply Ho; try lia. exact Hlt.
Qed.

(** With an engine that orders byte distances, on a palette of byte
    colours, what the search returns is a nearest entry by the exact
    distance. *)
Lemma findClosestEntry_exact {M : Math} (palette : list entry) (hex : string) (u : bool)
    (e : entry) :
  orders M -> byte_palette palette ->
  findClosestEntry palette hex u = Some e ->
  nearest u palette (target_of hex) e.
Proof.
  intros Ho Hb He.
  apply findClosestEntry_some in He as (Hin & Hc & d & Hd & Hmin).
  split; [exact Hin |]. split; [exact Hc |].
  unfold measured, dist_to in *.
  destruct (rgbStringToObject (color e)) as [v|] eqn:Ev; [| discriminate].
  injection Hd as <-. exists (squares (target_of hex) v). split; [reflexivity |].
  intros e' d' Hin' Hc' Hd'.
  destruct (rgbStringToObject (color e')) as [v'|] eqn:Ev'; [| discriminate].
  injection Hd' as <-.
  destruct (Z.le_gt_cases (squares (target_of hex) v) (squares (target_of hex) v'))
    as [Hle|Hgt]; [exact Hle |].
  exfalso.
  specialize (Hmin e' (_dist (target_of hex) v') Hin' Hc').
  rewrite Ev' in Hmin. specialize (Hmin eq_refl).
  apply (Qlt_not_le _ _ (orders_squares (target_of hex) v' v Ho (target_bytes hex)
                           (Hb e' v' Hin' Ev') (Hb e v Hin Ev) Hgt)).
  exact Hmin.
Qed.

(** When every nearest entry is locked, so is the one the search returns,
    and likewise unlocked. *)
Lemma findClosestEntry_lock {M : Math} (palette : list entry) (hex : string)
    (c : entry) (l : bool) :
  orders M -> byte_palette palette ->
  nearest false palette (target_of hex) c ->
  (forall e, nearest false palette (target_of hex) e -> locked e = l) ->
  exists e, findClosestEntry palette hex false = Some e
    /\ nearest false palette (target_of hex) e /\ locked e = l.
Proof.
  intros Ho Hb (Hin & Hc & _) Hall.
  destruct (findClosestEntry_finds palette hex false c Hin Hc) as [e He].
  exists e. split; [exact He |].
  pose proof (findClosestEntry_exact palette hex false e Ho Hb He) as Hn.
  split; [exact Hn | now apply Hall].
Qed.

(** C10.  When no entry of the palette has a colour text with three digit
    runs, both searches return [null]; and whatever a search returns is
    an entry whose colour text parses. *)
Theorem findClosestEntry_unparsable {M : Math} (palette : list entry) (hex : string) (u : bool) :
  ((forall e, In e palette -> rgbStringToObject (color e) = None) ->
   findClosestEntry palette hex u = None)
  /\ (forall e, findClosestEntry palette hex u = Some e ->
                rgbStringToObject (color e) <> None).
Proof.
  split.
  - intros Hall. apply findClosestEntry_none. intros e Hin.
    unfold candidate. rewrite (Hall e Hin). apply andb_false_r.
  - intros e He. apply findClosestEntry_some in He as (_ & Hc & _).
    unfold candidate in Hc. apply andb_prop in Hc as [_ Hc].
    destruct (rgbStringToObject (color e)); [discriminate | discriminate].
Qed.

Lemma findClosestEntry_unparsable_witness :
  (forall e, In e [{| element := 0; color := "transparent"; locked := false |}] ->
             rgbStringToObject (color e) = None)
  /\ findClosestEntry [{| element := 0; color := "transparent"; locked := false |}]
       "#ff0000" false = None.
Proof.
  split.
  - intros e [<-|[]]. reflexivity.
  - apply (proj1 (findClosestEntry_unparsable _ "#ff0000" false)).
    intros e [<-|[]]. reflexivity.
Defined.

(** ** Resolution policy *)

Lemma candidate_unlocked (e : entry) : candidate true e = true -> locked e = false.
Proof.
  unfold candidate. cbn. destruct (locked e); [discriminate | reflexivity].
Qed.

(** C3.  Let the engine order byte distances and the palette hold byte
    colours, and let every entry that is nearest to the target by the
    exact Euclidean distance, over all entries, be locked (there being
    one).  In mode [skip] the call answers ['SKIP'] and leaves the auto
    mode alone; in mode [manual] it answers [false] and switches the
    auto mode off; in mode [map], when some unlocked entry parses, it
    clicks and answers [true] for an unlocked entry that is nearest
    among the unlocked ones, the one there is if only one is nearest,
    and it answers [false] with the auto mode off when no unlocked entry
    parses, as when every entry is locked. *)
Theorem selectColorSmart_locked {M : Math} (hex : string) (st : bot) (c : entry) :
  orders M -> byte_palette (colorPalette st) ->
  nearest false (colorPalette st) (target_of hex) c ->
  (forall e, nearest false (colorPalette st) (target_of hex) e -> locked e = true) ->
  match lockedColorMode st with
  | ModeSkip =>
      fst (selectColorSmart hex st) = ResSkip
      /\ useAutoPalette (snd (selectColorSmart hex st)) = useAutoPalette st
  | ModeManual =>
      fst (selectColorSmart hex st) = ResFalse
      /\ useAutoPalette (snd (selectColorSmart hex st)) = false
  | ModeMap =>
      (forall e0, In e0 (colorPalette st) -> candidate true e0 = true ->
         exists u,
           selectColorSmart hex st = (ResTrue, pick u st)
           /\ nearest true (colorPalette st) (target_of hex) u
           /\ locked u = false
           /\ trace (pick u st) = (trace st ++ [SwatchClick (element u)])%list
           /\ selectedColor (pick u st) = rgbToHex (color u))
      /\ (forall u, nearest true (colorPalette st) (target_of hex) u ->
            (forall e, nearest true (colorPalette st) (target_of hex) e -> e = u) ->
            selectColorSmart hex st = (ResTrue, pick u st))
      /\ ((forall e, In e (colorPalette st) -> candidate true e = false) ->
          fst (selectColorSmart hex st) = ResFalse
          /\ useAutoPalette (snd (selectColorSmart hex st)) = false)
      /\ ((forall e, In e (colorPalette st) -> locked e = true) ->
          fst (selectColorSmart hex st) = ResFalse
          /\ useAutoPalette (snd (selectColorSmart hex st)) = false)
  end.
Proof.
  intros Ho Hb Hc Hall.
  destruct (findClosestEntry_lock _ hex c true Ho Hb Hc Hall) as (e & He & _ & Hl).
  assert (Hne : colorPalette st <> []).
  { destruct Hc as (Hin & _). intros E. rewrite E in Hin. contradiction. }
  assert (Hsome : forall u, findClosestEntry (colorPalette st) hex true = Some u ->
                  lockedColorMode st = ModeMap ->
                  selectColorSmart hex st = (ResTrue, pick u st)).
  { intros u Hu Hm. unfold selectColorSmart.
    destruct (colorPalette st) as [|e0 l] eqn:Hp; [congruence |].
    now rewrite He, Hl, Hm, Hu. }
  assert (Hnone : (forall e, In e (colorPalette st) -> candidate true e = false) ->
                  lockedColorMode st = ModeMap ->
                  fst (selectColorSmart hex st) = ResFalse
                  /\ useAutoPalette (snd (selectColorSmart hex st)) = false).
  { intros Hn Hm. apply (findClosestEntry_none _ hex) in Hn. unfold selectColorSmart.
    destruct (colorPalette st) as [|e0 l] eqn:Hp; [congruence |].
    rewrite He, Hl, Hm, Hn. split; reflexivity. }
  destruct (lockedColorMode st) eqn:Hm.
  - unfold selectColorSmart.
    destruct (colorPalette st) as [|e0 l] eqn:Hp; [congruence |].
    rewrite He, Hl, Hm. cbn [fst snd]. split; [reflexivity |].
    unfold warn_once. destruct (_skipWarned st); reflexivity.
  - split; [| split; [| split]].
    + intros e0 Hin0 Hc0.
      destruct (findClosestEntry_finds _ hex true e0 Hin0 Hc0) as [u Hu].
      pose proof (findClosestEntry_exact _ hex true u Ho Hb Hu) as Hn.
      exists u. split; [now apply Hsome |]. split; [exact Hn |].
      split; [apply candidate_unlocked, Hn |]. split; reflexivity.
    + intros u Hu Huniq. destruct Hu as (Hin & Hcu & Hd).
      destruct (findClosestEntry_finds _ hex true u Hin Hcu) as [u' Hu'].
      pose proof (findClosestEntry_exact _ hex true u' Ho Hb Hu') as Hn.
      rewrite <- (Huniq u' Hn). now apply Hsome.
    + intros Hn. now apply Hnone.
    + intros Hlock. apply Hnone; [| reflexivity].
      intros e0 Hin0. unfold candidate. rewrite (Hlock e0 Hin0). reflexivity.
  - unfold selectColorSmart.
    destruct (colorPalette st) as [|e0 l] eqn:Hp; [congruence |].
    rewrite He, Hl, Hm. split; reflexivity.
Qed.

(** The palette of the policy table: [A] is the one nearest entry, and
    [B] the one nearest among the unlocked. *)
Lemma table_palette :
  byte_palette [swatchA; swatchB]
  /\ dist_to (target_of "#000000") swatchA = Some (1 * 1)
  /\ dist_to (target_of "#000000") swatchB = Some (5 * 5)
  /\ nearest false [swatchA; swatchB] (target_of "#000000") swatchA
  /\ (forall e, nearest false [swatchA; swatchB] (target_of "#000000") e -> e = swatchA)
  /\ nearest true [swatchA; swatchB] (target_of "#000000") swatchB
  /\ (forall e, nearest true [swatchA; swatchB] (target_of "#000000") e -> e = swatchB).
Proof.
  assert (DA : dist_to (target_of "#000000") swatchA = Some 1) by reflexivity.
  assert (DB : dist_to (target_of "#000000") swatchB = Some 25) by reflexivity.
  split.
  { intros e v [<-|[<-|[]]] Hv; vm_compute in Hv; injection Hv as <-;
      unfold byte_rgb; cbn; lia. }
  split; [exact DA |]. split; [exact DB |].
  split; [| split; [| split]].
  - split; [now left |]. split; [reflexivity |]. exists 1. split; [exact DA |].
    intros e' d' [<-|[<-|[]]] _ Hd; rewrite ?DA, ?DB in Hd; injection Hd as <-; lia.
  - intros e ([<-|[<-|[]]] & _ & d & Hd & Hmin); [reflexivity |].
    rewrite DB in Hd. injection Hd as <-.
    specialize (Hmin swatchA 1 (or_introl eq_refl) eq_refl DA). lia.
  - split; [right; now left |]. split; [reflexivity |]. exists 25. split; [exact DB |].
    intros e' d' [<-|[<-|[]]] Hc Hd; [discriminate Hc |].
    rewrite DB in Hd. injection Hd as <-. lia.
  - intros e ([<-|[<-|[]]] & Hc & _); [discriminate Hc | reflexivity].
Qed.

Lemma selectColorSmart_locked_witness :
  orders root_math
  /\ byte_palette (colorPalette (table_bot ModeMap))
  /\ nearest false (colorPalette (table_bot ModeMap)) (target_of "#000000") swatchA
  /\ locked swatchA = true
  /\ selectColorSmart "#000000" (table_bot ModeMap)
     = (ResTrue, pick swatchB (table_bot ModeMap)).
Proof.
  destruct table_palette as (Hb & _ & _ & HA & HA1 & HB & HB1).
  split; [exact root_orders |]. split; [exact Hb |]. split; [exact HA |].
  split; [reflexivity |].
  pose proof (selectColorSmart_locked "#000000" (table_bot ModeMap) swatchA
                root_orders Hb HA) as H.
  cbn [table_bot lockedColorMode] in H.
  destruct H as (_ & H & _).
  - intros e He. now rewrite (HA1 e He).
  - apply (H swatchB HB HB1).
Defined.

(** The policy table on its palette, computed. *)
Example table_skip :
  fst (selectColorSmart "#000000" (table_bot ModeSkip)) = ResSkip
  /\ trace (snd (selectColorSmart "#000000" (table_bot ModeSkip)))
     = [Console WarnSkipLocked].
Proof. split; vm_compute; reflexivity. Qed.

Example table_manual :
  fst (selectColorSmart "#000000" (table_bot ModeManual)) = ResFalse
  /\ useAutoPalette (snd (selectColorSmart "#000000" (table_bot ModeManual))) = false.
Proof. split; vm_compute; reflexivity. Qed.

Example table_map :
  fst (selectColorSmart "#000000" (table_bot ModeMap)) = ResTrue
  /\ trace (snd (selectColorSmart "#000000" (table_bot ModeMap)))
     = [SwatchClick (element swatchB)].
Proof. split; vm_compute; reflexivity. Qed.

(** ** Checkpoints *)

Lemma saveState_storage (st : bot) :
  storage_ok st = true ->
  exists s, storage (saveState st) = Some (Parsed s)
    /\ s_version s = 1
    /\ s_remaining s
       = (if (largeSaveCap <? List.length (skipn (currentPixel st) (pixels st)))%nat
          then firstn largeSaveCap (skipn (currentPixel st) (pixels st))
          else skipn (currentPixel st) (pixels st)).
Proof.
  intros Hok. unfold saveState. rewrite Hok. cbn. eauto.
Qed.

Lemma loadState_parsed (st : bot) (s : saved) :
  storage st = Some (Parsed s) -> s_version s = 1 ->
  exists st', loadState st = (true, st')
    /\ pixels st' = s_remaining s /\ currentPixel st' = 0%nat.
Proof.
  intros Hs Hv. unfold loadState. rewrite Hs, Hv. cbn. eauto.
Qed.

(** C2.  When the store takes the write and the tasks from the cursor on
    are at most 50,000, [saveState] then [loadState] succeeds and leaves
    exactly those tasks as the queue, with the cursor at 0. *)
Theorem save_load_roundtrip (st : bot) :
  storage_ok st = true ->
  (List.length (skipn (currentPixel st) (pixels st)) <= largeSaveCap)%nat ->
  Z.of_nat largeSaveCap = 50000
  /\ exists st', loadState (saveState st) = (true, st')
       /\ pixels st' = skipn (currentPixel st) (pixels st)
       /\ currentPixel st' = 0%nat.
Proof.
  intros Hok Hlen. split; [reflexivity |].
  destruct (saveState_storage st Hok) as (s & Hs & Hv & Hr).
  destruct (loadState_parsed _ s Hs Hv) as (st' & Hl & Hp & Hc).
  exists st'. repeat split; try assumption.
  rewrite Hp, Hr.
  destruct (Nat.ltb_spec largeSaveCap (List.length (skipn (currentPixel st) (pixels st))));
    [lia | reflexivity].
Qed.

Lemma save_load_roundtrip_witness :
  storage_ok (set_currentPixel 2%nat (row_bot 5)) = true
  /\ (List.length (skipn 2 (row 5)) <= largeSaveCap)%nat
  /\ exists st', loadState (saveState (set_currentPixel 2%nat (row_bot 5))) = (true, st')
       /\ pixels st' = skipn 2 (row 5)
       /\ currentPixel st' = 0%nat.
Proof.
  split; [reflexivity |].
  split; [apply Nat.leb_le; vm_compute; reflexivity |].
  apply (save_load_roundtrip (set_currentPixel 2%nat (row_bot 5)));
    [reflexivity | apply Nat.leb_le; vm_compute; reflexivity].
Defined.

(** C5.  When the store takes the write and more than 50,000 tasks remain
    from the cursor on, [saveState] stores exactly the first 50,000 of
    them, and the [loadState] that follows installs those 50,000. *)
Theorem save_truncates (st : bot) :
  storage_ok st = true ->
  (largeSaveCap < List.length (skipn (currentPixel st) (pixels st)))%nat ->
  Z.of_nat largeSaveCap = 50000
  /\ (exists s, storage (saveState st) = Some (Parsed s)
        /\ s_remaining s = firstn largeSaveCap (skipn (currentPixel st) (pixels st))
        /\ List.length (s_remaining s) = largeSaveCap)
  /\ (exists st', loadState (saveState st) = (true, st')
        /\ pixels st' = firstn largeSaveCap (skipn (currentPixel st) (pixels st))
        /\ (List.length (pixels st') <= largeSaveCap)%nat).
Proof.
  intros Hok Hlen. split; [reflexivity |].
  destruct (saveState_storage st Hok) as (s & Hs & Hv & Hr).
  destruct (Nat.ltb_spec largeSaveCap (List.length (skipn (currentPixel st) (pixels st))));
    [| lia].
  split.
  - exists s. repeat split; try assumption.
    rewrite Hr, length_firstn. lia.
  - destruct (loadState_parsed _ s Hs Hv) as (st' & Hl & Hp & Hc).
    exists st'. repeat split; try assumption; try congruence.
    rewrite Hp, Hr, length_firstn. lia.
Qed.

(** Whatever the queue, one save never hands more than 50,000 tasks to
    the load that follows. *)
Lemma load_after_save_bounded (st st' : bot) :
  storage_ok st = true ->
  loadState (saveState st) = (true, st') ->
  (List.length (pixels st') <= largeSaveCap)%nat.
Proof.
  intros Hok Hl.
  destruct (saveState_storage st Hok) as (s & Hs & Hv & Hr).
  destruct (loadState_parsed _ s Hs Hv) as (st2 & Hl2 & Hp & Hc).
  rewrite Hl in Hl2. injection Hl2 as <-.
  rewrite Hp, Hr.
  destruct (Nat.ltb_spec largeSaveCap (List.length (skipn (currentPixel st) (pixels st)))).
  - rewrite length_firstn. lia.
  - assumption.
Qed.

Lemma row_from_length (x : Z) (n : nat) : List.length (row_from x n) = n.
Proof.
  revert x. induction n as [|n IH]; intros x; cbn; [reflexivity | now rewrite IH].
Qed.

Lemma row_bot_queue (n : nat) :
  pixels (row_bot n) = row n /\ currentPixel (row_bot n) = 0%nat
  /\ List.length (pixels (row_bot n)) = n.
Proof. repeat split. apply row_from_length. Qed.

Lemma save_truncates_witness :
  storage_ok (row_bot (Z.to_nat 50001)) = true
  /\ (largeSaveCap
      < List.length (skipn (currentPixel (row_bot (Z.to_nat 50001)))
                       (pixels (row_bot (Z.to_nat 50001)))))%nat
  /\ exists s, storage (saveState (row_bot (Z.to_nat 50001))) = Some (Parsed s)
       /\ List.length (s_remaining s) = largeSaveCap.
Proof.
  assert (Hlen : (largeSaveCap
      < List.length (skipn (currentPixel (row_bot (Z.to_nat 50001)))
                       (pixels (row_bot (Z.to_nat 50001)))))%nat).
  { destruct (row_bot_queue (Z.to_nat 50001)) as (_ & Hc & Hl).
    rewrite Hc. cbn [skipn]. rewrite Hl. unfold largeSaveCap. lia. }
  split; [reflexivity |]. split; [exact Hlen |].
  destruct (save_truncates (row_bot (Z.to_nat 50001)) eq_refl Hlen)
    as (_ & (s & Hs & _ & Hl) & _).
  exists s. split; assumption.
Defined.

(** ** The task queue *)

Lemma key_eqb_eq (k1 k2 : key) : key_eqb k1 k2 = true <-> k1 = k2.
Proof.
  destruct k1 as [a1 b1], k2 as [a2 b2]. unfold key_eqb. cbn.
  rewrite andb_true_iff, !Z.eqb_eq. split; [intros [-> ->] | intros [= -> ->]]; auto.
Qed.

Lemma key_eqb_neq (k1 k2 : key) : key_eqb k1 k2 = false <-> k1 <> k2.
Proof.
  rewrite <- key_eqb_eq. destruct (key_eqb k1 k2); split; congruence.
Qed.

Lemma map_set_keys (k : key) (v : task) (m : list (key * task)) (k' : key) :
  In k' (List.map fst (map_set k v m)) <-> k' = k \/ In k' (List.map fst m).
Proof.
  induction m as [|[k0 v0] m IH]; cbn.
  - intuition.
  - destruct (key_eqb k k0) eqn:E; cbn.
    + apply key_eqb_eq in E. subst k0. intuition.
    + rewrite IH. intuition.
Qed.

Lemma map_set_NoDup (k : key) (v : task) (m : list (key * task)) :
  NoDup (List.map fst m) -> NoDup (List.map fst (map_set k v m)).
Proof.
  induction m as [|[k0 v0] m IH]; cbn; intros Hnd.
  - constructor; [intros [] | constructor].
  - inversion Hnd as [|? ? Hnotin Hnd']; subst.
    destruct (key_eqb k k0) eqn:E; cbn.
    + apply key_eqb_eq in E. subst k0. now constructor.
    + apply key_eqb_neq in E. constructor; [| now apply IH].
      rewrite map_set_keys. intros [->|Hin]; [now apply E | now apply Hnotin].
Qed.

Lemma map_set_in (k : key) (v : task) (m : list (key * task)) (k' : key) (v' : task) :
  NoDup (List.map fst m) ->
  In (k', v') (map_set k v m)
  <-> (k' = k /\ v' = v) \/ (k' <> k /\ In (k', v') m).
Proof.
  induction m as [|[k0 v0] m IH]; cbn; intros Hnd.
  - split.
    + intros [[= -> ->]|[]]. now left.
    + intros [[-> ->]|[_ []]]. now left.
  - inversion Hnd as [|? ? Hnotin Hnd']; subst.
    destruct (key_eqb k k0) eqn:E; cbn.
    + apply key_eqb_eq in E. subst k0. split.
      * intros [[= -> ->]|Hin]; [now left |].
        right. split; [| now right].
        intros ->. apply Hnotin. now apply (in_map fst) in Hin.
      * intros [[-> ->]|[Hne [[= -> ->]|Hin]]]; [now left | now elim Hne | now right].
    + apply key_eqb_neq in E. rewrite (IH Hnd'). split.
      * intros [[= -> ->]|[[-> ->]|[Hne Hin]]].
        -- right. split; [congruence | now left].
        -- now left.
        -- right. split; [assumption | now right].
      * intros [[-> ->]|[Hne [[= -> ->]|Hin]]].
        -- right. now left.
        -- now left.
        -- right. right. now split.
Qed.

Lemma last_at_snoc (k : key) (norm : list task) (p : task) :
  last_at k (norm ++ [p])
  = if key_eqb (key_of p) k then Some p else last_at k norm.
Proof.
  unfold last_at. rewrite rev_app_distr. reflexivity.
Qed.

Lemma last_at_key (k : key) (norm : list task) (t : task) :
  last_at k norm = Some t -> key_of t = k /\ In t norm.
Proof.
  unfold last_at. intros H. apply find_some in H as [Hin Hk].
  split; [now apply key_eqb_eq | now apply in_rev].
Qed.

(** The map holds, for each cell of the input, the task given last for
    it, and nothing else. *)
Lemma cells_spec (norm : list task) :
  NoDup (List.map fst (cells norm))
  /\ (forall k, In k (List.map fst (cells norm)) <-> In k (List.map key_of norm))
  /\ (forall k v, In (k, v) (cells norm) <-> last_at k norm = Some v).
Proof.
  unfold cells.
  induction norm as [|p norm (Hnd & Hkeys & Hin)] using rev_ind.
  - cbn. split; [constructor |]. split; [tauto |].
    intros k v. split; [intros [] | discriminate].
  - rewrite fold_left_app. cbn [fold_left].
    split; [now apply map_set_NoDup |]. split.
    + intros k. rewrite map_set_keys, Hkeys, map_app, in_app_iff. cbn. intuition.
    + intros k v. rewrite (map_set_in _ _ _ _ _ Hnd), last_at_snoc, Hin.
      destruct (key_eqb (key_of p) k) eqn:E.
      * apply key_eqb_eq in E. split.
        -- intros [[_ ->]|[Hne _]]; [reflexivity | now elim Hne].
        -- intros [= ->]. left. now split.
      * apply key_eqb_neq in E. split.
        -- intros [[-> _]|[_ H]]; [now elim E | assumption].
        -- intros H. right. split; [congruence | assumption].
Qed.

Lemma cells_values_keys (norm : list task) :
  List.map key_of (map_values (cells norm)) = List.map fst (cells norm).
Proof.
  destruct (cells_spec norm) as (_ & _ & Hin).
  unfold map_values. rewrite map_map.
  apply map_ext_in. intros [k v] H. cbn.
  apply Hin, last_at_key in H. tauto.
Qed.

Lemma compare_tasks_le (a c : task) :
  (compare_tasks a c <=? 0) = true <-> yx_le a c.
Proof.
  unfold compare_tasks, yx_le. rewrite Z.leb_le.
  destruct (Z.eqb_spec (py a - py c) 0); lia.
Qed.

Lemma yx_le_trans (a c d : task) : yx_le a c -> yx_le c d -> yx_le a d.
Proof. unfold yx_le. lia. Qed.

Lemma yx_le_total (a c : task) : yx_le a c \/ yx_le c a.
Proof. unfold yx_le. lia. Qed.

Lemma yx_le_lt (a c : task) : yx_le a c -> key_of a <> key_of c -> yx_lt a c.
Proof.
  unfold yx_le, yx_lt, key_of. intros H Hne.
  destruct H as [H|[Hy Hx]]; [now left |].
  right. split; [assumption |].
  assert (px a <> px c) by (intros E; apply Hne; now rewrite E, Hy). lia.
Qed.

Lemma insert_task_perm (a : task) (l : list task) :
  Permutation (a :: l) (insert_task a l).
Proof.
  induction l as [|h t IH]; cbn.
  - reflexivity.
  - destruct (compare_tasks a h <=? 0).
    + reflexivity.
    + rewrite perm_swap. now apply perm_skip.
Qed.

Lemma sort_tasks_perm (l : list task) : Permutation l (sort_tasks l).
Proof.
  induction l as [|a l IH]; cbn.
  - constructor.
  - rewrite <- insert_task_perm. now apply perm_skip.
Qed.

Lemma insert_task_sorted (a : task) (l : list task) :
  StronglySorted yx_le l -> StronglySorted yx_le (insert_task a l).
Proof.
  induction l as [|h t IH]; cbn; intros Hs.
  - constructor; constructor.
  - inversion Hs as [|? ? Hs' Hall]; subst.
    destruct (compare_tasks a h <=? 0) eqn:E.
    + apply compare_tasks_le in E. constructor; [assumption |].
      constructor; [assumption |].
      eapply Forall_impl; [| exact Hall]. intros d Hd. eapply yx_le_trans; eauto.
    + assert (Hha : yx_le h a).
      { destruct (yx_le_total a h) as [H|H]; [| assumption].
        apply compare_tasks_le in H. congruence. }
      constructor; [now apply IH |].
      apply Forall_forall. intros d Hd.
      apply (Permutation_in _ (Permutation_sym (insert_task_perm a t))) in Hd.
      destruct Hd as [<-|Hd]; [assumption |].
      rewrite Forall_forall in Hall. now apply Hall.
Qed.

Lemma sort_tasks_sorted (l : list task) : StronglySorted yx_le (sort_tasks l).
Proof.
  induction l as [|a l IH]; cbn.
  - constructor.
  - now apply insert_task_sorted.
Qed.

(** Sorted tasks on distinct cells are strictly ascending. *)
Lemma sorted_strict (l : list task) :
  StronglySorted yx_le l -> NoDup (List.map key_of l) -> StronglySorted yx_lt l.
Proof.
  induction 1 as [|a l Hs IH Hall]; cbn; intros Hnd.
  - constructor.
  - inversion Hnd as [|? ? Hnotin Hnd']; subst.
    constructor; [now apply IH |].
    rewrite Forall_forall in *. intros d Hd.
    apply yx_le_lt; [now apply Hall |].
    intros E. apply Hnotin. rewrite E. now apply in_map.
Qed.

Lemma normalize_all_inr (items : list raw) (norm : list task) :
  normalize_all items = inr norm <->
  Forall2 (fun p t => normalize p = inr t) items norm.
Proof.
  revert norm. induction items as [|p items IH]; cbn; intros norm.
  - split.
    + intros [= <-]. constructor.
    + intros H. inversion H. reflexivity.
  - split.
    + destruct (normalize p) as [e|t] eqn:Ep; [discriminate |].
      destruct (normalize_all items) as [e|norm'] eqn:En; [discriminate |].
      intros [= <-]. constructor; [assumption | now apply IH].
    + intros H. inversion H as [|? t ? norm' Hp Hrest]; subst.
      rewrite Hp. apply IH in Hrest. now rewrite Hrest.
Qed.

Lemma dedup_spec (norm : list task) :
  NoDup (List.map key_of (dedup norm))
  /\ (forall k, In k (List.map key_of (dedup norm)) <-> In k (List.map key_of norm))
  /\ (forall t, In t (dedup norm) <-> last_at (key_of t) norm = Some t)
  /\ StronglySorted yx_lt (dedup norm).
Proof.
  destruct (cells_spec norm) as (Hnd & Hkeys & Hin).
  pose proof (cells_values_keys norm) as Hvk.
  pose proof (sort_tasks_perm (map_values (cells norm))) as Hperm.
  fold (dedup norm) in Hperm.
  assert (Hnd' : NoDup (List.map key_of (dedup norm))).
  { eapply Permutation_NoDup; [apply Permutation_map, Hperm |]. now rewrite Hvk. }
  split; [assumption |]. split; [| split].
  - intros k. rewrite <- Hkeys, <- Hvk. split; apply Permutation_in.
    + apply Permutation_sym, Permutation_map, Hperm.
    + apply Permutation_map, Hperm.
  - intros t. split.
    + intros Ht. apply (Permutation_in _ (Permutation_sym Hperm)) in Ht.
      unfold map_values in Ht. apply in_map_iff in Ht as ([k v] & <- & Hkv).
      cbn. apply Hin in Hkv. destruct (last_at_key _ _ _ Hkv) as [-> _]. assumption.
    + intros Ht. apply (Permutation_in _ Hperm).
      apply Hin in Ht. unfold map_values. now apply (in_map snd) in Ht.
  - apply sorted_strict; [apply sort_tasks_sorted | assumption].
Qed.



Example sample_queue :
  pixels sample_loaded
  = [ {| px := 0; py := 0; pcolor := "#010203" |};
      {| px := 1; py := 0; pcolor := "#00ff00" |} ].
Proof. vm_compute. reflexivity. Qed.


(** ** Rejected batches *)

Lemma normalize_color_bad (c : string) :
  bad_color c = true <-> exists e, normalize_color c = inl e.
Proof.
  unfold bad_color, normalize_color, rgbStringToObject.
  destruct (is_hex6 (Js.trim c)); cbn.
  - split; [discriminate | intros [e [=]]].
  - destruct (is_rgb_call (Js.trim c)); cbn.
    + destruct (Js.match_digits (Js.trim c)) as [|m0 [|m1 [|m2 rest]]]; cbn;
        split; eauto; try discriminate; intros [e [=]].
    + split; eauto.
Qed.

Lemma floor_coord_bad (n : jsnum) : bad_coord n = true <-> floor_coord n = None.
Proof.
  destruct n; cbn; try tauto.
  destruct (Qfloor q <? 0); split; congruence.
Qed.

Lemma normalize_malformed (p : raw) :
  malformed p = true <-> exists e, normalize p = inl e.
Proof.
  destruct p as [|[| nx | |] vy vc]; cbn; try (split; eauto; fail).
  destruct vy as [| ny | |]; cbn; try (split; eauto; fail).
  destruct vc as [| | c |]; cbn; try (split; eauto; fail).
  rewrite !orb_true_iff, normalize_color_bad, !floor_coord_bad.
  destruct (normalize_color c) as [e|col].
  - split; eauto.
  - destruct (floor_coord nx), (floor_coord ny); split; eauto;
      try (intros [e [=]]);
      intros [[[e [=]]|[=]]|[=]].
Qed.

Lemma normalize_all_bad (items : list raw) :
  Exists (fun p => malformed p = true) items ->
  exists e, normalize_all items = inl e.
Proof.
  induction 1 as [p items Hp | p items _ [e IH]]; cbn.
  - apply normalize_malformed in Hp as [e ->]. eauto.
  - rewrite IH. destruct (normalize p); eauto.
Qed.

(** C6, as the code has it.  One item that the validation turns down, at
    any place of the batch, makes [loadImageFromData] answer [false] with
    the queue, the cursor, the image name and the stored checkpoint as
    they were: only the console line is added. *)
Theorem loadImageFromData_rejects (items : list raw) (name : option string)
    (st : bot) :
  Exists (fun p => malformed p = true) items ->
  exists e, loadImageFromData (Array items) name st = (false, say e st)
    /\ pixels (say e st) = pixels st
    /\ currentPixel (say e st) = currentPixel st
    /\ imageName (say e st) = imageName st
    /\ storage (say e st) = storage st.
Proof.
  intros H. apply normalize_all_bad in H as [e He].
  exists e. unfold loadImageFromData. rewrite He. repeat split.
Qed.

Lemma loadImageFromData_rejects_witness :
  Exists (fun p => malformed p = true)
    [item_at 0 0 "#ff0000"; item_at 1 0 "red"; item_at 2 0 "#0000ff"]
  /\ exists e,
       loadImageFromData
         (Array [item_at 0 0 "#ff0000"; item_at 1 0 "red"; item_at 2 0 "#0000ff"])
         None (row_bot 3)
       = (false, say e (row_bot 3))
       /\ pixels (say e (row_bot 3)) = pixels (row_bot 3)
       /\ currentPixel (say e (row_bot 3)) = currentPixel (row_bot 3)
       /\ imageName (say e (row_bot 3)) = imageName (row_bot 3)
       /\ storage (say e (row_bot 3)) = storage (row_bot 3).
Proof.
  assert (H : Exists (fun p => malformed p = true)
                [item_at 0 0 "#ff0000"; item_at 1 0 "red"; item_at 2 0 "#0000ff"])
    by (apply Exists_cons_tl, Exists_cons_hd; reflexivity).
  split; [exact H |].
  apply (loadImageFromData_rejects _ None (row_bot 3) H).
Defined.

(** C6 as stated fails: a colour text that is neither [#RRGGBB] nor
    [rgb(r,g,b)] is taken when it opens with [rgb(] and holds three digit
    runs, and the queue is replaced. *)
Lemma loadImageFromData_takes_loose_rgb :
  spec_malformed (item_at 0 0 "rgb(1,2,3") = true
  /\ spec_malformed (item_at 0 0 "rgb(see 1, 2 and 3") = true
  /\ loadImageFromData (Array [item_at 0 0 "rgb(1,2,3"]) None (row_bot 3)
     = (true,
        saveState
          (say (LogLoaded 1)
             (set_imageName default_name
                (set_currentPixel 0%nat
                   (set_pixels [{| px := 0; py := 0; pcolor := "#010203" |}]
                      (row_bot 3))))))
  /\ pixels (snd (loadImageFromData (Array [item_at 0 0 "rgb(see 1, 2 and 3"]) None
                    (row_bot 3)))
     = [{| px := 0; py := 0; pcolor := "#010203" |}]
  /\ pixels (row_bot 3) = row 3.
Proof. repeat split. Qed.

(** ** Frames of the loop's parts *)

Lemma same_setup_refl (st : bot) : same_setup st st.
Proof. unfold same_setup. tauto. Qed.

Lemma same_setup_trans (a c d : bot) :
  same_setup a c -> same_setup c d -> same_setup a d.
Proof. unfold same_setup. intuition congruence. Qed.

Lemma grows_refl (st : bot) : grows [] st st.
Proof. exists []. now rewrite app_nil_r. Qed.

Lemma clicks_app (e1 e2 : list event) : clicks (e1 ++ e2) = (clicks e1 ++ clicks e2)%list.
Proof. apply flat_map_app. Qed.

Lemma grows_trans (c1 c2 : list (Z * Z)) (a c d : bot) :
  grows c1 a c -> grows c2 c d -> grows (c1 ++ c2) a d.
Proof.
  intros (e1 & H1 & K1 & F1) (e2 & H2 & K2 & F2). exists (e1 ++ e2)%list.
  split; [now rewrite H2, H1, app_assoc |].
  split; [now rewrite clicks_app, K1, K2 | now apply Forall_app].
Qed.

Lemma proceeds_refl (st : bot) : proceeds [] st st.
Proof. split; [apply same_setup_refl | split; [apply grows_refl | auto]]. Qed.

Lemma proceeds_trans (c1 c2 : list (Z * Z)) (a c d : bot) :
  proceeds c1 a c -> proceeds c2 c d -> proceeds (c1 ++ c2) a d.
Proof.
  intros (S1 & G1 & A1) (S2 & G2 & A2).
  split; [eapply same_setup_trans; eauto |].
  split; [eapply grows_trans; eauto | auto].
Qed.

Lemma proceeds_then (cl : list (Z * Z)) (a c d : bot) :
  proceeds cl a c -> proceeds [] c d -> proceeds cl a d.
Proof.
  intros H1 H2. rewrite <- (app_nil_r cl). eapply proceeds_trans; eauto.
Qed.

Lemma proceeds_after (cl : list (Z * Z)) (a c d : bot) :
  proceeds [] a c -> proceeds cl c d -> proceeds cl a d.
Proof.
  intros H1 H2. change cl with ([] ++ cl)%list. eapply proceeds_trans; eauto.
Qed.

(** Closes a [proceeds] goal on a state written out with the setters. *)
Ltac by_trace :=
  split; [unfold same_setup; cbn; repeat split; reflexivity |];
  split; [| cbn; auto];
  eexists; split;
  [ cbn; rewrite <- ?app_assoc; first [reflexivity | symmetry; apply app_nil_r]
  | split; [reflexivity | repeat constructor] ].

Lemma saveState_proceeds (st : bot) :
  proceeds [] st (saveState st)
  /\ currentPixel (saveState st) = currentPixel st
  /\ isRunning (saveState st) = isRunning st.
Proof.
  unfold saveState. destruct (storage_ok st); (split; [by_trace | split; reflexivity]).
Qed.

Lemma stop_proceeds (st : bot) :
  proceeds [] st (stop st)
  /\ currentPixel (stop st) = currentPixel st
  /\ isRunning (stop st) = false.
Proof.
  unfold stop.
  set (st1 := if isRunning st then st else say LogNotRunning st).
  assert (H1 : proceeds [] st st1 /\ currentPixel st1 = currentPixel st).
  { subst st1. destruct (isRunning st); (split; [by_trace | reflexivity]). }
  destruct H1 as [H1 C1].
  destruct (saveState_proceeds (set_isRunning false st1)) as (H2 & C2 & R2).
  split; [| split].
  - eapply proceeds_after; [exact H1 |].
    eapply proceeds_after; [| eapply proceeds_then; [exact H2 |]]; by_trace.
  - cbn. rewrite C2. exact C1.
  - cbn. exact R2.
Qed.

Lemma await_proceeds (who : user) (k : pause) (ms : Z) (st : bot) :
  proceeds [] st (await who k ms st)
  /\ currentPixel (await who k ms st) = currentPixel st
  /\ (isRunning (await who k ms st) = true -> isRunning st = true)
  /\ (who k (currentPixel st) = false ->
      isRunning (await who k ms st) = isRunning st)
  /\ (who k (currentPixel st) = true -> isRunning (await who k ms st) = false).
Proof.
  unfold await. change (currentPixel (emit (Sleep ms) st)) with (currentPixel st).
  destruct (who k (currentPixel st)).
  - destruct (stop_proceeds (emit (Sleep ms) st)) as (Hp & Hc & Hr).
    split; [| split; [exact Hc | split; [congruence | split; [discriminate | auto]]]].
    eapply proceeds_after; [| exact Hp]. by_trace.
  - split; [by_trace | split; [reflexivity | split; [auto | split; [auto | discriminate]]]].
Qed.

Lemma place_proceeds (who : user) (cx cy : Z) (st : bot) :
  canvas st = true ->
  proceeds [(cx, cy)] st (place who cx cy st)
  /\ currentPixel (place who cx cy st) = S (currentPixel st)
  /\ (isRunning (place who cx cy st) = true -> isRunning st = true)
  /\ (who AfterPlace (S (currentPixel st)) = false ->
      isRunning (place who cx cy st) = isRunning st)
  /\ (who AfterPlace (S (currentPixel st)) = true ->
      isRunning (place who cx cy st) = false).
Proof.
  intros Hcv. unfold place, clickCanvas. rewrite Hcv.
  set (st1 := set_currentPixel _ _).
  set (st2 := if (currentPixel st1 mod autosaveEvery =? 0)%nat then saveState st1 else st1).
  assert (H1 : proceeds [(cx, cy)] st st1) by (subst st1; by_trace).
  assert (H2 : proceeds [] st1 st2 /\ currentPixel st2 = currentPixel st1
               /\ isRunning st2 = isRunning st1).
  { subst st2. destruct (_ =? _)%nat; [apply saveState_proceeds |].
    split; [apply proceeds_refl | split; reflexivity]. }
  destruct H2 as (H2 & C2 & R2).
  destruct (await_proceeds who AfterPlace (delay st2) st2) as (H3 & C3 & R3 & N3 & Y3).
  assert (C1 : currentPixel st1 = S (currentPixel st)) by reflexivity.
  assert (R1 : isRunning st1 = isRunning st) by reflexivity.
  split; [| split; [| split; [| split]]].
  - eapply proceeds_then; [eapply proceeds_then; [exact H1 | exact H2] | exact H3].
  - congruence.
  - intros H. apply R3 in H. congruence.
  - intros H. rewrite C2, C1 in N3. rewrite (N3 H). congruence.
  - intros H. rewrite C2, C1 in Y3. exact (Y3 H).
Qed.

Lemma warn_once_proceeds (flag : bot -> bool) (set_flag : bool -> bot -> bot)
    (c : console) (st : bot) :
  calm (Console c) ->
  (forall v s, proceeds [] s (set_flag v s) /\ currentPixel (set_flag v s) = currentPixel s
               /\ isRunning (set_flag v s) = isRunning s) ->
  proceeds [] st (warn_once flag set_flag c st)
  /\ currentPixel (warn_once flag set_flag c st) = currentPixel st
  /\ isRunning (warn_once flag set_flag c st) = isRunning st.
Proof.
  intros Hc Hset. unfold warn_once. destruct (flag st).
  - split; [apply proceeds_refl | split; reflexivity].
  - destruct (Hset true (say c st)) as (H & C & R).
    split; [| split; [rewrite C | rewrite R]; reflexivity].
    eapply proceeds_after; [| exact H].
    split; [unfold same_setup; cbn; repeat split; reflexivity |].
    split; [| cbn; auto].
    exists [Console c]. split; [reflexivity | split; [reflexivity |]].
    constructor; [exact Hc | constructor].
Qed.

Lemma set_skipWarned_proceeds (v : bool) (s : bot) :
  proceeds [] s (set_skipWarned v s)
  /\ currentPixel (set_skipWarned v s) = currentPixel s
  /\ isRunning (set_skipWarned v s) = isRunning s.
Proof. split; [by_trace | split; reflexivity]. Qed.

Lemma set_manualWarned_proceeds (v : bool) (s : bot) :
  proceeds [] s (set_manualWarned v s)
  /\ currentPixel (set_manualWarned v s) = currentPixel s
  /\ isRunning (set_manualWarned v s) = isRunning s.
Proof. split; [by_trace | split; reflexivity]. Qed.

Lemma auto_off_proceeds (s : bot) :
  proceeds [] s (set_useAutoPalette false s)
  /\ currentPixel (set_useAutoPalette false s) = currentPixel s
  /\ isRunning (set_useAutoPalette false s) = isRunning s.
Proof. split; [by_trace | split; reflexivity]. Qed.

Lemma pick_proceeds (e : entry) (s : bot) :
  proceeds [] s (pick e s)
  /\ currentPixel (pick e s) = currentPixel s
  /\ isRunning (pick e s) = isRunning s.
Proof. split; [by_trace | split; reflexivity]. Qed.

Lemma selectColorSmart_proceeds {M : Math} (hex : string) (st : bot) :
  proceeds [] st (snd (selectColorSmart hex st))
  /\ currentPixel (snd (selectColorSmart hex st)) = currentPixel st
  /\ isRunning (snd (selectColorSmart hex st)) = isRunning st.
Proof.
  assert (Hsame : proceeds [] st st /\ currentPixel st = currentPixel st
                  /\ isRunning st = isRunning st)
    by (split; [apply proceeds_refl | split; reflexivity]).
  assert (Hoff : forall s, proceeds [] st s /\ currentPixel s = currentPixel st
                           /\ isRunning s = isRunning st ->
                 proceeds [] st (set_useAutoPalette false s)
                 /\ currentPixel (set_useAutoPalette false s) = currentPixel st
                 /\ isRunning (set_useAutoPalette false s) = isRunning st).
  { intros s (H & C & R). destruct (auto_off_proceeds s) as (H' & C' & R').
    split; [eapply proceeds_then; eauto | split; congruence]. }
  unfold selectColorSmart.
  destruct (colorPalette st); [exact Hsame |].
  destruct (findClosestEntry _ hex false) as [closest|]; [| exact Hsame].
  destruct (locked closest); [| apply pick_proceeds].
  destruct (lockedColorMode st); cbn [snd].
  - apply warn_once_proceeds; [exact I | apply set_skipWarned_proceeds].
  - destruct (findClosestEntry _ hex true) as [unlocked|]; cbn [snd].
    + apply pick_proceeds.
    + apply Hoff, warn_once_proceeds; [exact I | apply set_manualWarned_proceeds].
  - apply Hoff, warn_once_proceeds; [exact I | apply set_manualWarned_proceeds].
Qed.

Section Loop.

Context {M : Math}.

Variable who : user.
Variables W H : Z.

(** One turn of the loop: the cursor moves on by one, and the board is
    clicked once, at the task's point, unless the task is passed over. *)
Lemma drawStep_proceeds (p : task) (st : bot) :
  canvas st = true ->
  proceeds (step_clicks W H st p) st (drawStep who W H p st)
  /\ currentPixel (drawStep who W H p st) = S (currentPixel st)
  /\ (isRunning (drawStep who W H p st) = true -> isRunning st = true)
  /\ ((forall k n, who k n = false) ->
      isRunning (drawStep who W H p st) = isRunning st).
Proof.
  intros Hcv. unfold drawStep, step_clicks, skips, target_point.
  set (cx := startX st + px p * W + W / 2).
  set (cy := startY st + py p * H + H / 2).
  destruct (useAutoPalette st) eqn:Hauto; cbn [andb].
  2:{ destruct (place_proceeds who cx cy st Hcv) as (Hp & Hc & Hr & Hn & _).
      split; [exact Hp | split; [exact Hc | split; [exact Hr | auto]]]. }
  destruct (selectColorSmart_proceeds (pcolor p) st) as (Hs & Cs & Rs).
  destruct (selectColorSmart (pcolor p) st) as [[| |] st1]; cbn [fst snd] in *.
  - destruct (await_proceeds who AfterSelect 180 st1) as (Ha & Ca & Ra & Na & _).
    assert (Hcv2 : canvas (await who AfterSelect 180 st1) = true).
    { destruct Hs as (Hs & _), Ha as (Ha & _). unfold same_setup in *.
      intuition congruence. }
    destruct (place_proceeds who cx cy _ Hcv2) as (Hp & Hc & Hr & Hn & _).
    split; [| split; [| split]].
    + eapply proceeds_after; [exact Hs |]. eapply proceeds_after; [exact Ha | exact Hp].
    + congruence.
    + intros R. apply Hr, Ra in R. congruence.
    + intros Hnever. rewrite Hn, Na by apply Hnever. exact Rs.
  - assert (Hcv1 : canvas st1 = true).
    { destruct Hs as (Hs & _). unfold same_setup in *. intuition congruence. }
    destruct (place_proceeds who cx cy _ Hcv1) as (Hp & Hc & Hr & Hn & _).
    split; [| split; [| split]].
    + eapply proceeds_after; [exact Hs | exact Hp].
    + congruence.
    + intros R. apply Hr in R. congruence.
    + intros Hnever. rewrite Hn by apply Hnever. exact Rs.
  - destruct (await_proceeds who AfterSkip 1 (set_currentPixel (S (currentPixel st1)) st1))
      as (Ha & Ca & Ra & Na & _).
    split; [| split; [| split]].
    + eapply proceeds_after; [exact Hs |]. eapply proceeds_after; [| exact Ha]. by_trace.
    + rewrite Ca. cbn. congruence.
    + intros R. apply Ra in R. cbn in R. congruence.
    + intros Hnever. rewrite Na by apply Hnever. cbn. exact Rs.
Qed.

Lemma skipn_nth_error (l : list task) (n : nat) (p : task) :
  nth_error l n = Some p -> skipn n l = p :: skipn (S n) l.
Proof.
  revert l. induction n as [|n IH]; intros [|a l] Hn; try discriminate.
  - now injection Hn as ->.
  - cbn [nth_error] in Hn. change (skipn (S n) (a :: l)) with (skipn n l).
    now rewrite (IH l Hn).
Qed.

(** The loop comes to its end within as many turns as tasks remain. *)
Lemma drawLoop_ends (fuel : nat) (st : bot) :
  canvas st = true ->
  (List.length (pixels st) - currentPixel st <= fuel)%nat ->
  exists st' cl,
    drawLoop fuel who W H st = Some st'
    /\ proceeds cl st st'
    /\ Forall (fun c => exists p, In p (pixels st) /\ c = target_point W H st p) cl
    /\ looping st' = false
    /\ (currentPixel st <= currentPixel st')%nat
    /\ (looping st = true -> (currentPixel st < currentPixel st' <= List.length (pixels st))%nat)
    /\ (isRunning st' = true -> isRunning st = true)
    /\ ((forall k n, who k n = false) -> isRunning st' = isRunning st)
    /\ (useAutoPalette st = false ->
        cl = List.map (target_point W H st)
               (firstn (currentPixel st' - currentPixel st)
                  (skipn (currentPixel st) (pixels st)))).
Proof.
  revert st. induction fuel as [|fuel IH]; intros st Hcv Hfuel.
  - exists st, []. cbn.
    assert (Hl : looping st = false).
    { unfold looping. destruct (Nat.ltb_spec (currentPixel st) (List.length (pixels st)));
        [lia | apply andb_false_r]. }
    rewrite Hl. split; [reflexivity |]. split; [apply proceeds_refl |].
    split; [constructor |]. split; [reflexivity |]. split; [lia |].
    split; [discriminate |]. split; [auto |]. split; [auto |].
    intros _. now rewrite Nat.sub_diag.
  - cbn [drawLoop]. destruct (looping st) eqn:Hl.
    2:{ exists st, []. split; [reflexivity |]. split; [apply proceeds_refl |].
        split; [constructor |]. split; [assumption |]. split; [lia |].
        split; [congruence |]. split; [auto |]. split; [auto |].
        intros _. now rewrite Nat.sub_diag. }
    unfold looping in Hl. apply andb_prop in Hl as [Hrun Hlt].
    apply Nat.ltb_lt in Hlt.
    destruct (nth_error (pixels st) (currentPixel st)) as [p|] eqn:Hp.
    2:{ apply nth_error_None in Hp. lia. }
    destruct (drawStep_proceeds p st Hcv) as (Hs & Cs & Rs & Ns).
    set (st1 := drawStep who W H p st) in *.
    assert (Hsame : same_setup st st1) by apply Hs.
    assert (Hpx : pixels st1 = pixels st) by apply Hsame.
    assert (Hcv1 : canvas st1 = true) by (unfold same_setup in Hsame; intuition congruence).
    destruct (IH st1 Hcv1)
      as (st' & cl & Hd & Hpr & Hcl & Hend & Hle & Hlt' & Hrun' & Hnev & Hman).
    { rewrite Hpx, Cs. lia. }
    exists st', (step_clicks W H st p ++ cl)%list.
    split; [exact Hd |]. split; [eapply proceeds_trans; eauto |].
    split; [| split; [exact Hend | split; [lia | split; [| split; [| split]]]]].
    + apply Forall_app. split.
      * unfold step_clicks. destruct (skips st p); constructor; [| constructor].
        exists p. split; [eapply nth_error_In; eauto | reflexivity].
      * eapply Forall_impl; [| exact Hcl]. cbn. intros c (q & Hq & ->).
        exists q. rewrite <- Hpx. split; [assumption |].
        unfold target_point, same_setup in *. intuition congruence.
    + intros _. split; [lia |].
      destruct (looping st1) eqn:Hl1.
      * specialize (Hlt' eq_refl). rewrite Hpx in Hlt'. lia.
      * assert (currentPixel st' = currentPixel st1).
        { destruct fuel; cbn in Hd; rewrite Hl1 in Hd; now injection Hd as <-. }
        lia.
    + auto.
    + intros Hnever. rewrite Hnev, Ns by assumption. reflexivity.
    + intros Hauto.
      assert (Hauto1 : useAutoPalette st1 = false) by (now apply Hs).
      rewrite (Hman Hauto1), Hpx, Cs.
      unfold step_clicks, skips. rewrite Hauto. cbn [andb app].
      rewrite (skipn_nth_error _ _ _ Hp).
      replace (currentPixel st' - currentPixel st)%nat
        with (S (currentPixel st' - S (currentPixel st))) by lia.
      cbn [firstn List.map]. f_equal.
      apply map_ext. intros q. unfold target_point, same_setup in *.
      intuition congruence.
Qed.

End Loop.

(** ** Runs of [start] *)

Lemma finish_proceeds (st : bot) :
  proceeds [] st (finish st)
  /\ currentPixel (finish st) = currentPixel st
  /\ isRunning (finish st) = false.
Proof.
  unfold finish. cbn [pixels currentPixel set_isRunning].
  destruct (_ <=? _)%nat.
  - unfold clearState. split; [by_trace | split; reflexivity].
  - destruct (saveState_proceeds (say LogStoppedMidway (set_isRunning false st)))
      as (H & C & R).
    split; [| split; [rewrite C | rewrite R]; reflexivity].
    eapply proceeds_after; [| exact H]. by_trace.
Qed.

Lemma prepare_spec (st : bot) :
  isRunning (prepare st) = true
  /\ pixels (prepare st) = pixels st /\ currentPixel (prepare st) = currentPixel st
  /\ startX (prepare st) = startX st /\ startY (prepare st) = startY st
  /\ canvas (prepare st) = canvas st /\ storage_ok (prepare st) = storage_ok st
  /\ gridW (prepare st) = gridW st /\ gridH (prepare st) = gridH st
  /\ (colorPalette st = [] \/ useAutoPalette st = false ->
      useAutoPalette (prepare st) = false)
  /\ (colorPalette st = [] -> useAutoPalette st = true -> _autoWarned (prepare st) = true)
  /\ exists evs, trace (prepare st) = (trace st ++ advisory st ++ evs)%list
       /\ clicks evs = [] /\ Forall calm evs.
Proof.
  unfold prepare, advisory.
  set (st1 := if useAutoPalette st && Nat.eqb (List.length (colorPalette st)) 0
              then set_useAutoPalette false
                     (warn_once _autoWarned set_autoWarned WarnNoPalette st)
              else st).
  assert (H1 : pixels st1 = pixels st /\ currentPixel st1 = currentPixel st
               /\ startX st1 = startX st /\ startY st1 = startY st
               /\ canvas st1 = canvas st /\ storage_ok st1 = storage_ok st
               /\ cellW st1 = cellW st /\ cellH st1 = cellH st
               /\ (colorPalette st = [] \/ useAutoPalette st = false ->
                   useAutoPalette st1 = false)
               /\ (colorPalette st = [] -> useAutoPalette st = true -> _autoWarned st1 = true)
               /\ trace st1
                  = (trace st
                     ++ (if useAutoPalette st && Nat.eqb (List.length (colorPalette st)) 0
                            && negb (_autoWarned st)
                         then [Console WarnNoPalette] else []))%list).
  { subst st1. unfold warn_once.
    destruct (useAutoPalette st) eqn:EA, (colorPalette st) eqn:EP,
      (_autoWarned st) eqn:EW; cbn;
      rewrite ?app_nil_r; repeat split; try congruence;
      intros [?|?]; congruence. }
  destruct H1 as (P1 & C1 & X1 & Y1 & V1 & O1 & W1 & H1 & A1 & F1 & T1).
  assert (GW : gridW st1 = gridW st) by (unfold gridW; now rewrite W1).
  assert (GH : gridH st1 = gridH st) by (unfold gridH; now rewrite H1, GW).
  destruct (((gridW st1 =? 1) || (gridH st1 =? 1)) && negb (_warnedNoCell st1)); cbn.
  - repeat (split; [first [assumption | reflexivity] |]).
    exists [Console WarnNoCell; Console LogStarted].
    rewrite T1, <- !app_assoc. repeat split; repeat constructor.
  - repeat (split; [first [assumption | reflexivity] |]).
    exists [Console LogStarted].
    rewrite T1, <- !app_assoc. repeat split; repeat constructor.
Qed.

(** A run that passes the three guards of [start] comes to the end of
    its loop in a state [mid], which [finish] then closes. *)
Lemma start_runs {M : Math} (who : user) (st : bot) :
  isRunning st = false -> canvas st = true -> pixels st <> [] ->
  exists mid evs,
    start who st = Some (finish mid)
    /\ looping mid = false
    /\ pixels mid = pixels st /\ storage_ok mid = storage_ok st
    /\ (currentPixel st <= currentPixel mid)%nat
    /\ ((currentPixel st < List.length (pixels st))%nat ->
        (currentPixel st < currentPixel mid <= List.length (pixels st))%nat)
    /\ ((forall k n, who k n = false) -> isRunning mid = true)
    /\ (colorPalette st = [] \/ useAutoPalette st = false ->
        useAutoPalette mid = false
        /\ clicks evs
           = List.map (target_point (gridW st) (gridH st) st)
               (firstn (currentPixel mid - currentPixel st)
                  (skipn (currentPixel st) (pixels st))))
    /\ (colorPalette st = [] -> useAutoPalette st = true -> _autoWarned mid = true)
    /\ trace mid = (trace st ++ advisory st ++ evs)%list
    /\ Forall calm evs
    /\ Forall (fun c => exists p, In p (pixels st)
                        /\ c = target_point (gridW st) (gridH st) st p) (clicks evs).
Proof.
  intros Hrun Hcv Hpx. unfold start. rewrite Hrun, Hcv.
  assert (Hlen : Nat.eqb (List.length (pixels st)) 0 = false)
    by (destruct (pixels st); [congruence | reflexivity]).
  rewrite Hlen. cbn [negb].
  destruct (prepare_spec st)
    as (R0 & P0 & C0 & X0 & Y0 & V0 & O0 & GW & GH & A0 & F0 & ev0 & T0 & K0 & M0).
  destruct (drawLoop_ends who (gridW (prepare st)) (gridH (prepare st))
              (List.length (pixels (prepare st)) - currentPixel (prepare st))
              (prepare st))
    as (mid & cl & Hd & (Hsame & (ev1 & T1 & K1 & M1) & Hauto) & Hcl & Hend & Hle & Hlt
        & Hr & Hnev & Hman);
    [congruence | lia |].
  rewrite Hd. cbn [option_map]. exists mid, (ev0 ++ ev1)%list.
  unfold same_setup in Hsame.
  destruct Hsame as (S1 & S2 & S3 & S4 & S5 & S6 & S7 & S8 & S9 & S10 & S11 & S12).
  split; [reflexivity |]. split; [assumption |].
  split; [congruence |]. split; [congruence |]. split; [lia |].
  split.
  { intros Hc. rewrite <- P0, <- C0. apply Hlt. unfold looping.
    rewrite R0, P0, C0. apply Nat.ltb_lt in Hc. now rewrite Hc. }
  split; [intros Hn; rewrite (Hnev Hn); exact R0 |].
  split.
  { intros Hm. specialize (A0 Hm). split; [auto |].
    rewrite clicks_app, K0, K1. cbn [app]. rewrite (Hman A0), P0, C0.
    apply map_ext. intros q. unfold target_point. now rewrite GW, GH, X0, Y0. }
  split; [intros E1 E2; rewrite S12; auto |].
  split; [rewrite T1, T0, <- !app_assoc; reflexivity |].
  split; [now apply Forall_app |].
  rewrite clicks_app, K0, K1. cbn [app].
  eapply Forall_impl; [| exact Hcl]. cbn. intros c (q & Hq & ->).
  exists q. rewrite <- P0. split; [assumption |].
  unfold target_point. now rewrite GW, GH, X0, Y0.
Qed.

Lemma finish_outcome (mid : bot) :
  isRunning (finish mid) = false
  /\ pixels (finish mid) = pixels mid
  /\ currentPixel (finish mid) = currentPixel mid
  /\ useAutoPalette (finish mid) = useAutoPalette mid
  /\ _autoWarned (finish mid) = _autoWarned mid
  /\ (exists evs, trace (finish mid) = (trace mid ++ evs)%list
                  /\ clicks evs = [] /\ Forall calm evs)
  /\ ((List.length (pixels mid) <= currentPixel mid)%nat ->
      storage (finish mid) = None /\ ended_with LogFinished (finish mid))
  /\ ((currentPixel mid < List.length (pixels mid))%nat -> storage_ok mid = true ->
      ended_with LogStoppedMidway (finish mid)
      /\ exists s, storage (finish mid) = Some (Parsed s)
           /\ s_remaining s
              = firstn largeSaveCap (skipn (currentPixel mid) (pixels mid))).
Proof.
  unfold finish. cbn [pixels currentPixel set_isRunning].
  destruct (Nat.leb_spec (List.length (pixels mid)) (currentPixel mid)) as [Hle|Hlt].
  - unfold clearState. cbn. repeat (split; [reflexivity |]).
    split; [exists [Console LogFinished]; repeat split; repeat constructor |].
    split; [| lia].
    intros _. split; [reflexivity |]. now exists (trace mid).
  - unfold saveState. cbn -[Nat.ltb].
    destruct (storage_ok mid) eqn:Hok; cbn -[Nat.ltb].
    + repeat (split; [reflexivity |]).
      split; [exists [Console LogStoppedMidway]; repeat split; repeat constructor |].
      split; [lia |].
      intros _ _. split; [now exists (trace mid) |].
      eexists. split; [reflexivity |]. cbn -[Nat.ltb].
      destruct (Nat.ltb_spec largeSaveCap
                  (List.length (skipn (currentPixel mid) (pixels mid)))) as [H|H];
        [reflexivity |].
      symmetry. now apply firstn_all2.
    + repeat (split; [reflexivity |]).
      split.
      { exists [Console LogStoppedMidway; Console WarnSaveFailed].
        rewrite <- app_assoc. repeat split; repeat constructor. }
      split; [lia | discriminate].
Qed.

(** C4, as the code has it.  A run from cursor 0 over [k] tasks, with a
    store that takes writes, places at least one task.  If the user never
    stops it, the cursor ends at [k]; whenever the cursor ends at [k] the
    run reports that it finished and the checkpoint is removed.  If it
    ends at [j < k], the run reports that it stopped mid-way and the
    checkpoint holds the first 50,000 of the [k - j] tasks from the
    cursor on: all [k - j] of them when they are at most 50,000. *)
Theorem start_outcome {M : Math} (who : user) (st : bot) :
  isRunning st = false -> canvas st = true -> pixels st <> [] ->
  currentPixel st = 0%nat -> storage_ok st = true ->
  exists st',
    start who st = Some st'
    /\ isRunning st' = false /\ pixels st' = pixels st
    /\ (1 <= currentPixel st' <= List.length (pixels st))%nat
    /\ ((forall k n, who k n = false) -> currentPixel st' = List.length (pixels st))
    /\ (currentPixel st' = List.length (pixels st) ->
        ended_with LogFinished st' /\ storage st' = None)
    /\ ((currentPixel st' < List.length (pixels st))%nat ->
        ended_with LogStoppedMidway st'
        /\ exists s, storage st' = Some (Parsed s)
             /\ s_remaining s
                = firstn largeSaveCap (skipn (currentPixel st') (pixels st))
             /\ List.length (s_remaining s)
                = Nat.min largeSaveCap (List.length (pixels st) - currentPixel st')
             /\ ((List.length (pixels st) - currentPixel st' <= largeSaveCap)%nat ->
                 s_remaining s = skipn (currentPixel st') (pixels st)
                 /\ List.length (s_remaining s)
                    = (List.length (pixels st) - currentPixel st')%nat)).
Proof.
  intros Hrun Hcv Hpx Hc0 Hok.
  destruct (start_runs who st Hrun Hcv Hpx)
    as (mid & evs & Hs & Hend & Pm & Om & Hle & Hlt & Hnev & _).
  destruct (finish_outcome mid) as (R & P & C & _ & _ & _ & Hfin & Hstop).
  assert (Hk : (0 < List.length (pixels st))%nat)
    by (destruct (pixels st); [congruence | cbn; lia]).
  rewrite Hc0 in Hlt. specialize (Hlt Hk).
  exists (finish mid). rewrite P, C, Pm in *. rewrite Om in Hstop.
  split; [assumption |]. split; [assumption |]. split; [reflexivity |].
  split; [lia |]. split; [| split].
  - intros Hn. specialize (Hnev Hn). unfold looping in Hend.
    rewrite Hnev, Pm in Hend. cbn in Hend. apply Nat.ltb_ge in Hend. lia.
  - intros E. destruct Hfin as [H1 H2]; [lia | auto].
  - intros Hj. destruct (Hstop Hj Hok) as (He & s & Hst & Hrem).
    split; [assumption |]. exists s. split; [assumption |]. split; [assumption |].
    split; [now rewrite Hrem, length_firstn, length_skipn |].
    intros Hcap. rewrite Hrem, firstn_all2 by (rewrite length_skipn; lia).
    split; [reflexivity | apply length_skipn].
Qed.

Lemma start_outcome_witness :
  isRunning (row_bot 3) = false /\ canvas (row_bot 3) = true
  /\ pixels (row_bot 3) <> [] /\ currentPixel (row_bot 3) = 0%nat
  /\ storage_ok (row_bot 3) = true
  /\ exists st', start stop_after_first (row_bot 3) = Some st'
       /\ isRunning st' = false /\ pixels st' = pixels (row_bot 3)
       /\ (1 <= currentPixel st' <= List.length (pixels (row_bot 3)))%nat.
Proof.
  repeat (split; [first [reflexivity | discriminate] |]).
  destruct (start_outcome stop_after_first (row_bot 3))
    as (st' & H1 & H2 & H3 & H4 & _); try reflexivity; try discriminate.
  exists st'. auto.
Defined.

Lemma drawLoop_done {M : Math} (who : user) (W H : Z) (fuel : nat) (st : bot) :
  looping st = false -> drawLoop fuel who W H st = Some st.
Proof. intros Hl. destruct fuel; cbn; now rewrite Hl. Qed.

(** With an empty palette, a [stop()] during the pause after the first
    placement ends the loop with the cursor at 1. *)
Lemma stop_after_first_run {M : Math} (st : bot) :
  isRunning st = false -> canvas st = true -> pixels st <> [] ->
  currentPixel st = 0%nat -> colorPalette st = [] ->
  exists mid, start stop_after_first st = Some (finish mid)
    /\ currentPixel mid = 1%nat /\ pixels mid = pixels st
    /\ storage_ok mid = storage_ok st.
Proof.
  intros Hrun Hcv Hpx Hc0 Hpal. unfold start. rewrite Hrun, Hcv.
  assert (Hlen : Nat.eqb (List.length (pixels st)) 0 = false)
    by (destruct (pixels st); [congruence | reflexivity]).
  rewrite Hlen. cbn [negb].
  destruct (prepare_spec st) as (R0 & P0 & C0 & _ & _ & V0 & O0 & _ & _ & A0 & _).
  set (s1 := prepare st) in *.
  rewrite P0, C0, Hc0, Nat.sub_0_r.
  destruct (pixels st) as [|p l] eqn:Epx; [congruence |].
  cbn [List.length drawLoop].
  assert (Hl : looping s1 = true).
  { unfold looping. rewrite R0, P0, C0, Hc0. reflexivity. }
  rewrite Hl, P0, C0, Hc0. cbn [nth_error].
  unfold drawStep. rewrite (A0 (or_introl Hpal)).
  set (cx := startX s1 + _ + _). set (cy := startY s1 + _ + _).
  destruct (place_proceeds stop_after_first cx cy s1) as ((Hsame & _) & Cp & _ & _ & Rp);
    [congruence |].
  rewrite C0, Hc0 in Cp, Rp. specialize (Rp eq_refl).
  rewrite drawLoop_done by (unfold looping; now rewrite Rp).
  cbn [option_map]. eexists. split; [reflexivity |].
  unfold same_setup in Hsame. split; [exact Cp |]. split; intuition congruence.
Qed.

(** C4 as stated fails for long queues: of 50,002 tasks, stopped after
    the first, 50,001 remain and the checkpoint holds 50,000. *)
Lemma start_checkpoint_capped :
  exists st',
    start stop_after_first (row_bot (Z.to_nat 50002)) = Some st'
    /\ currentPixel st' = 1%nat
    /\ Z.of_nat (List.length (pixels (row_bot (Z.to_nat 50002))) - currentPixel st') = 50001
    /\ exists n, saved_count st' = Some n /\ Z.of_nat n = 50000.
Proof.
  destruct (row_bot_queue (Z.to_nat 50002)) as (Hq & Hc & Hl).
  assert (Hne : pixels (row_bot (Z.to_nat 50002)) <> []).
  { intros E. rewrite E in Hl. cbn in Hl. lia. }
  destruct (stop_after_first_run (row_bot (Z.to_nat 50002)))
    as (mid & Hs & Hc' & Hp & Hok); try reflexivity; try assumption.
  destruct (finish_outcome mid) as (_ & _ & Cf & _ & _ & _ & _ & Hstop).
  exists (finish mid). rewrite Cf, Hc', Hl.
  split; [assumption |]. split; [reflexivity |]. split; [lia |].
  destruct Hstop as (_ & s & Hst & Hrem); [rewrite Hp, Hl, Hc'; lia | now rewrite Hok |].
  exists (List.length (s_remaining s)).
  unfold saved_count. rewrite Hst. split; [reflexivity |].
  rewrite Hrem, length_firstn, length_skipn, Hp, Hl, Hc'. unfold largeSaveCap. lia.
Qed.

(** ** Which tasks a run clicks *)

(** A task is passed over only in skip mode, with the auto mode on, when
    the scan of the whole palette returns a locked entry. *)
Lemma skips_spec {M : Math} (st : bot) (p : task) :
  skips st p
  = useAutoPalette st
    && match lockedColorMode st with ModeSkip => true | _ => false end
    && match findClosestEntry (colorPalette st) (pcolor p) false with
       | Some c => locked c
       | None => false
       end.
Proof.
  unfold skips, selectColorSmart.
  destruct (useAutoPalette st); [cbn [andb] | reflexivity].
  destruct (colorPalette st) as [|e0 pal].
  - now destruct (lockedColorMode st).
  - destruct (findClosestEntry (e0 :: pal) (pcolor p) false) as [c|];
      [| now destruct (lockedColorMode st)].
    destruct (locked c); [| now destruct (lockedColorMode st)].
    destruct (lockedColorMode st); [reflexivity | | reflexivity].
    now destruct (findClosestEntry (e0 :: pal) (pcolor p) true).
Qed.

Lemma saveState_auto (st : bot) : useAutoPalette (saveState st) = useAutoPalette st.
Proof. unfold saveState. now destruct (storage_ok st). Qed.

Lemma stop_auto (st : bot) : useAutoPalette (stop st) = useAutoPalette st.
Proof.
  unfold stop. cbn. rewrite saveState_auto. now destruct (isRunning st).
Qed.

Lemma await_auto (who : user) (k : pause) (ms : Z) (st : bot) :
  useAutoPalette (await who k ms st) = useAutoPalette st.
Proof.
  unfold await. destruct (who k _); [now rewrite stop_auto | reflexivity].
Qed.

Lemma place_auto (who : user) (cx cy : Z) (st : bot) :
  useAutoPalette (place who cx cy st) = useAutoPalette st.
Proof.
  unfold place. rewrite await_auto.
  destruct (_ =? _)%nat; rewrite ?saveState_auto;
    unfold clickCanvas; now destruct (canvas st).
Qed.

Lemma selectColorSmart_auto {M : Math} (hex : string) (st : bot) :
  lockedColorMode st = ModeSkip ->
  useAutoPalette (snd (selectColorSmart hex st)) = useAutoPalette st.
Proof.
  intros Hm. unfold selectColorSmart. rewrite Hm.
  destruct (colorPalette st); [reflexivity |].
  destruct (findClosestEntry _ hex false) as [c|]; [| reflexivity].
  destruct (locked c); [| reflexivity].
  cbn [snd]. unfold warn_once. now destruct (_skipWarned st).
Qed.

Lemma drawStep_auto {M : Math} (who : user) (W H : Z) (p : task) (st : bot) :
  lockedColorMode st = ModeSkip ->
  useAutoPalette (drawStep who W H p st) = useAutoPalette st.
Proof.
  intros Hm. unfold drawStep.
  destruct (useAutoPalette st) eqn:Ha; [| now rewrite place_auto].
  pose proof (selectColorSmart_auto (pcolor p) st Hm) as Hs.
  destruct (selectColorSmart (pcolor p) st) as [[| |] st1]; cbn [snd] in Hs.
  - rewrite place_auto, await_auto. congruence.
  - rewrite place_auto. congruence.
  - rewrite await_auto. cbn. congruence.
Qed.

(** Which tasks are passed over is settled before the run. *)
Lemma skips_kept {M : Math} (st st' : bot) (q : task) :
  same_setup st st' ->
  (lockedColorMode st = ModeSkip -> useAutoPalette st' = useAutoPalette st) ->
  skips st' q = skips st q.
Proof.
  intros Hs Ha. rewrite !skips_spec.
  unfold same_setup in Hs.
  destruct Hs as (_ & _ & _ & _ & _ & -> & -> & _).
  destruct (lockedColorMode st); [now rewrite Ha | |];
    now rewrite !andb_false_r.
Qed.

Lemma step_clicks_kept {M : Math} (W H : Z) (st st' : bot) (q : task) :
  same_setup st st' ->
  (lockedColorMode st = ModeSkip -> useAutoPalette st' = useAutoPalette st) ->
  step_clicks W H st' q = step_clicks W H st q.
Proof.
  intros Hs Ha. unfold step_clicks. rewrite (skips_kept st st' q Hs Ha).
  unfold target_point, same_setup in *.
  destruct Hs as (_ & -> & -> & _). reflexivity.
Qed.

Section Clicks.

Context {M : Math}.

Variable who : user.
Variables W H : Z.

(** The loop clicks, in queue order, the tasks it takes from the cursor
    on, but for those it passes over. *)
Lemma drawLoop_clicks (fuel : nat) (st : bot) :
  canvas st = true ->
  (List.length (pixels st) - currentPixel st <= fuel)%nat ->
  exists st' evs,
    drawLoop fuel who W H st = Some st'
    /\ trace st' = (trace st ++ evs)%list
    /\ (currentPixel st <= currentPixel st')%nat
    /\ clicks evs
       = flat_map (step_clicks W H st)
           (firstn (currentPixel st' - currentPixel st)
              (skipn (currentPixel st) (pixels st))).
Proof.
  revert st. induction fuel as [|fuel IH]; intros st Hcv Hfuel.
  - exists st, []. cbn.
    assert (Hl : looping st = false).
    { unfold looping. destruct (Nat.ltb_spec (currentPixel st) (List.length (pixels st)));
        [lia | apply andb_false_r]. }
    rewrite Hl. split; [reflexivity |]. split; [now rewrite app_nil_r |].
    split; [lia |]. now rewrite Nat.sub_diag.
  - cbn [drawLoop]. destruct (looping st) eqn:Hl.
    2:{ exists st, []. split; [reflexivity |]. split; [now rewrite app_nil_r |].
        split; [lia |]. now rewrite Nat.sub_diag. }
    unfold looping in Hl. apply andb_prop in Hl as [Hrun Hlt].
    apply Nat.ltb_lt in Hlt.
    destruct (nth_error (pixels st) (currentPixel st)) as [p|] eqn:Hp.
    2:{ apply nth_error_None in Hp. lia. }
    destruct (drawStep_proceeds who W H p st Hcv)
      as ((Hsame & (ev0 & T0 & K0 & _) & _) & Cs & _).
    pose proof (drawStep_auto who W H p st) as Ha.
    set (st1 := drawStep who W H p st) in *.
    assert (Hpx : pixels st1 = pixels st) by apply Hsame.
    assert (Hcv1 : canvas st1 = true) by (unfold same_setup in Hsame; intuition congruence).
    destruct (IH st1 Hcv1) as (st' & evs & Hd & Ht & Hle & Hcl).
    { rewrite Hpx, Cs. lia. }
    exists st', (ev0 ++ evs)%list.
    split; [exact Hd |].
    split; [rewrite Ht, T0; now rewrite app_assoc |].
    split; [lia |].
    rewrite clicks_app, K0, Hcl, Hpx, Cs.
    rewrite (skipn_nth_error _ _ _ Hp).
    replace (currentPixel st' - currentPixel st)%nat
      with (S (currentPixel st' - S (currentPixel st))) by lia.
    cbn [firstn flat_map]. f_equal.
    apply flat_map_ext. intros q. now apply step_clicks_kept.
Qed.

End Clicks.

Lemma prepare_skips {M : Math} (st : bot) (q : task) : skips (prepare st) q = skips st q.
Proof.
  rewrite !skips_spec.
  assert (E : colorPalette (prepare st) = colorPalette st
              /\ lockedColorMode (prepare st) = lockedColorMode st
              /\ (colorPalette st <> [] -> useAutoPalette (prepare st) = useAutoPalette st)).
  { unfold prepare, warn_once.
    destruct (useAutoPalette st) eqn:EA, (colorPalette st) eqn:EP,
      (_autoWarned st) eqn:EW; cbn;
      destruct (_ && _); cbn; rewrite ?EA, ?EP; repeat split; congruence. }
  destruct E as (-> & -> & Ha).
  destruct (colorPalette st) as [|e0 pal]; [now rewrite !andb_false_r |].
  rewrite Ha by discriminate. reflexivity.
Qed.

(** Every call of [start] returns, and the clicks it made on the board
    are those of the tasks between the cursor before and the cursor
    after, in queue order, but for the tasks passed over. *)
Lemma start_clicks {M : Math} (who : user) (st : bot) :
  exists st' evs,
    start who st = Some st'
    /\ trace st' = (trace st ++ evs)%list
    /\ (currentPixel st <= currentPixel st')%nat
    /\ clicks evs
       = flat_map (step_clicks (gridW st) (gridH st) st)
           (firstn (currentPixel st' - currentPixel st)
              (skipn (currentPixel st) (pixels st))).
Proof.
  assert (Hsay : forall c, start who st = Some (say c st) ->
             exists st' evs,
               start who st = Some st' /\ trace st' = (trace st ++ evs)%list
               /\ (currentPixel st <= currentPixel st')%nat
               /\ clicks evs
                  = flat_map (step_clicks (gridW st) (gridH st) st)
                      (firstn (currentPixel st' - currentPixel st)
                         (skipn (currentPixel st) (pixels st)))).
  { intros c Hs. exists (say c st), [Console c].
    split; [exact Hs |]. split; [reflexivity |]. split; [cbn; lia |].
    cbn [currentPixel say emit set_trace]. now rewrite Nat.sub_diag. }
  destruct (isRunning st) eqn:Hrun.
  { apply (Hsay LogAlreadyRunning). unfold start. now rewrite Hrun. }
  destruct (pixels st) as [|p0 rest] eqn:Hpx.
  { apply (Hsay LogLoadFirst). unfold start. now rewrite Hrun, Hpx. }
  destruct (canvas st) eqn:Hcv.
  2:{ apply (Hsay LogNoCanvas). unfold start. now rewrite Hrun, Hpx, Hcv. }
  clear Hsay. rewrite <- Hpx.
  unfold start. rewrite Hrun, Hcv, Hpx. cbn [List.length Nat.eqb negb].
  rewrite <- Hpx.
  destruct (prepare_spec st)
    as (R0 & P0 & C0 & X0 & Y0 & V0 & O0 & GW & GH & A0 & F0 & ev0 & T0 & K0 & M0).
  destruct (drawLoop_clicks who (gridW (prepare st)) (gridH (prepare st))
              (List.length (pixels (prepare st)) - currentPixel (prepare st))
              (prepare st))
    as (mid & ev1 & Hd & T1 & Hle & Hcl); [congruence | lia |].
  rewrite Hd. cbn [option_map].
  destruct (finish_outcome mid) as (_ & _ & Cf & _ & _ & (ev2 & T2 & K2 & _) & _).
  assert (Ka : clicks (advisory st) = [])
    by (unfold advisory; destruct (_ && _); reflexivity).
  exists (finish mid), ((advisory st ++ ev0) ++ ev1 ++ ev2)%list.
  split; [reflexivity |].
  split; [rewrite T2, T1, T0, <- !app_assoc; reflexivity |].
  split; [rewrite Cf; lia |].
  rewrite !clicks_app, Ka, K0, K2, Hcl, Cf, P0, C0, GW, GH. cbn [app].
  rewrite app_nil_r. apply flat_map_ext. intros q. unfold step_clicks.
  rewrite prepare_skips. unfold target_point. now rewrite X0, Y0.
Qed.

Lemma step_clicks_filter {M : Math} (W H : Z) (st : bot) (l : list task) :
  flat_map (step_clicks W H st) l
  = List.map (target_point W H st) (filter (fun p => negb (skips st p)) l).
Proof.
  induction l as [|q l IH]; [reflexivity |].
  cbn [flat_map filter]. unfold step_clicks at 1.
  destruct (skips st q); cbn [negb app List.map]; now rewrite IH.
Qed.

(** What the two ways of calibrating leave in the cell size. *)
Lemma setCellSize_grid (w h : jsval) (qw qh : Q) (st : bot) :
  positive_number w = Some qw -> positive_number h = Some qh ->
  cellW (setCellSize w h st) = Some (round qw)
  /\ cellH (setCellSize w h st) = Some (round qh)
  /\ gridW (setCellSize w h st) = unit_or (Some (round qw)).
Proof.
  intros Hw Hh. unfold setCellSize, saveState. rewrite Hw, Hh.
  unfold gridW. destruct (storage_ok _); cbn; auto.
Qed.

Example calibrate_width_only :
  cellW (calibrate 100 114 (new_bot true [])) = Some 14
  /\ cellH (calibrate 100 114 (new_bot true [])) = None.
Proof. split; vm_compute; reflexivity. Qed.

(** C7, as the code has it.  Every call of [start] returns.  The clicks
    it made on the board are, in queue order, those of the tasks between
    the cursor before and the cursor after, the tasks passed over left
    out, and the click for a task [(x, y)] is at
    [startX + x*W + floor(W/2)], [startY + y*H + floor(H/2)], where [W]
    is the calibrated width if it is positive and 1 otherwise, and [H]
    is the calibrated height if it is positive and [W] otherwise.  A
    task is passed over only in skip mode with the auto mode on, when
    the scan of the palette returns a locked entry.  A run that passes
    the guards and that nobody stops takes every task from the cursor to
    the end of the queue.  With neither dimension calibrated the point
    is [(startX + x, startY + y)]. *)
Theorem start_click_points {M : Math} (who : user) (st : bot) :
  (exists st' evs,
     start who st = Some st'
     /\ trace st' = (trace st ++ evs)%list
     /\ (currentPixel st <= currentPixel st')%nat
     /\ (let W := match cellW st with
                  | Some w => if 0 <? w then w else 1
                  | None => 1
                  end in
         let H := match cellH st with
                  | Some h => if 0 <? h then h else W
                  | None => W
                  end in
         clicks evs
         = List.map (fun p => (startX st + px p * W + W / 2,
                               startY st + py p * H + H / 2))
             (filter (fun p => negb (skips st p))
                (firstn (currentPixel st' - currentPixel st)
                   (skipn (currentPixel st) (pixels st)))))
     /\ (cellW st = None -> cellH st = None ->
         clicks evs
         = List.map (fun p => (startX st + px p, startY st + py p))
             (filter (fun p => negb (skips st p))
                (firstn (currentPixel st' - currentPixel st)
                   (skipn (currentPixel st) (pixels st)))))
     /\ (isRunning st = false -> canvas st = true ->
         (currentPixel st < List.length (pixels st))%nat ->
         (forall k n, who k n = false) ->
         currentPixel st' = List.length (pixels st)))
  /\ (forall p,
        skips st p = true
        <-> useAutoPalette st = true /\ lockedColorMode st = ModeSkip
            /\ exists c, findClosestEntry (colorPalette st) (pcolor p) false = Some c
                         /\ locked c = true).
Proof.
  split.
  - destruct (start_clicks who st) as (st' & evs & Hs & Ht & Hle & Hcl).
    rewrite step_clicks_filter in Hcl.
    exists st', evs. split; [exact Hs |]. split; [exact Ht |]. split; [exact Hle |].
    split; [exact Hcl |]. split.
    + intros EW EH. rewrite Hcl. apply map_ext. intros p.
      unfold target_point, gridH, gridW. rewrite EW, EH.
      change (1 / 2) with 0. f_equal; lia.
    + intros Hrun Hcv Hlt Hnever.
      assert (Hpx : pixels st <> []).
      { intros E. rewrite E in Hlt. cbn [List.length] in Hlt. lia. }
      destruct (start_runs who st Hrun Hcv Hpx)
        as (mid & evs' & Hs' & Hend & Hp & _ & _ & Hin & Hr & _).
      rewrite Hs in Hs'. injection Hs' as ->.
      destruct (finish_outcome mid) as (_ & _ & -> & _).
      specialize (Hin Hlt). specialize (Hr Hnever).
      unfold looping in Hend. rewrite Hr, Hp in Hend. cbn [andb] in Hend.
      apply Nat.ltb_ge in Hend. lia.
  - intros p. rewrite skips_spec. split.
    + intros Hk. apply andb_prop in Hk as [Hk Hc]. apply andb_prop in Hk as [Ha Hm].
      split; [exact Ha |]. split; [now destruct (lockedColorMode st) |].
      destruct (findClosestEntry _ _ _) as [c|]; [| discriminate].
      now exists c.
    + intros (-> & -> & c & -> & ->). reflexivity.
Qed.

Lemma start_click_points_witness :
  cellW mixed_run = Some 14 /\ cellH mixed_run = Some 10
  /\ List.map (skips mixed_run) (pixels mixed_run) = [true; false]
  /\ exists st' evs,
       start never mixed_run = Some st'
       /\ trace st' = (trace mixed_run ++ evs)%list
       /\ currentPixel st' = 2%nat
       /\ clicks evs = [(135, 215)].
Proof.
  split; [vm_compute; reflexivity |]. split; [vm_compute; reflexivity |].
  split; [vm_compute; reflexivity |].
  destruct (start_click_points never mixed_run)
    as ((st' & evs & Hs & Ht & _ & Hcl & _ & Hend) & _).
  assert (E : currentPixel st' = 2%nat).
  { rewrite Hend; [vm_compute; reflexivity | vm_compute; reflexivity
                   | vm_compute; reflexivity | vm_compute; lia | reflexivity]. }
  exists st', evs. split; [exact Hs |]. split; [exact Ht |]. split; [exact E |].
  cbv zeta in Hcl. rewrite Hcl, E. vm_compute. reflexivity.
Defined.

(** The quick test run to its end: 25 clicks at [(120 + x, 300 + y)], row
    by row, and no checkpoint left. *)
Example quick_test_run :
  option_map (fun st' => clicks (trace st')) (start never quick_test)
  = Some (flat_map (fun y => List.map (fun x => (120 + x, 300 + y)) [0; 1; 2; 3; 4])
            [0; 1; 2; 3; 4])
  /\ option_map storage (start never quick_test) = Some None
  /\ option_map currentPixel (start never quick_test) = Some 25%nat.
Proof. split; [| split]; vm_compute; reflexivity. Qed.

(** C7 as stated fails when only the width is calibrated: the height
    then follows the width instead of counting as 1. *)
Lemma start_height_follows_width :
  cellW half_calibrated = Some 14 /\ cellH half_calibrated = None
  /\ pixels half_calibrated = [{| px := 0; py := 1; pcolor := "#000000" |}]
  /\ option_map (fun st' => clicks (trace st')) (start never half_calibrated)
     = Some [(7, 21)]
  /\ claimed_point half_calibrated {| px := 0; py := 1; pcolor := "#000000" |} = (7, 1).
Proof. repeat (split; [vm_compute; reflexivity |]). vm_compute; reflexivity. Qed.

(** C8.  With an empty palette [selectColorSmart] answers [false] and
    changes nothing, whatever the mode and the target.  A run of [start]
    on an empty palette ends with the auto mode off; the advisory, given
    only when the auto mode was on and no such advisory was given before,
    is the first thing the run writes, it is not repeated within the
    run, and the flag that suppresses it is set from then on; every
    task taken is clicked at its point. *)
Theorem empty_palette_manual {M : Math} (who : user) (hex : string) (st : bot) :
  colorPalette st = [] ->
  selectColorSmart hex st = (ResFalse, st)
  /\ advisory st
     = (if useAutoPalette st && negb (_autoWarned st) then [Console WarnNoPalette] else [])
  /\ (isRunning st = false -> canvas st = true -> pixels st <> [] ->
      exists st' evs,
        start who st = Some st'
        /\ useAutoPalette st' = false
        /\ (useAutoPalette st = true -> _autoWarned st' = true)
        /\ trace st' = (trace st ++ advisory st ++ evs)%list
        /\ Forall calm evs
        /\ clicks evs
           = List.map (fun p => (deviceX st p, deviceY st p))
               (firstn (currentPixel st' - currentPixel st)
                  (skipn (currentPixel st) (pixels st)))).
Proof.
  intros Hpal. split; [| split].
  - unfold selectColorSmart. now rewrite Hpal.
  - unfold advisory. rewrite Hpal. cbn. now rewrite andb_true_r.
  - intros Hrun Hcv Hpx.
    destruct (start_runs who st Hrun Hcv Hpx)
      as (mid & evs & Hs & _ & _ & _ & _ & _ & _ & Hman & Hflag & Ht & Hcalm & _).
    destruct (Hman (or_introl Hpal)) as (Hoff & Hclicks).
    destruct (finish_outcome mid) as (_ & _ & Cf & Af & Wf & (ev2 & T2 & K2 & M2) & _).
    exists (finish mid), (evs ++ ev2)%list.
    split; [assumption |]. split; [congruence |].
    split; [intros Ha; rewrite Wf; now apply Hflag |].
    split; [rewrite T2, Ht, <- !app_assoc; reflexivity |].
    split; [now apply Forall_app |].
    rewrite clicks_app, K2, app_nil_r, Cf. exact Hclicks.
Qed.

Lemma empty_palette_manual_witness :
  colorPalette quick_test = []
  /\ selectColorSmart "#FF0000" quick_test = (ResFalse, quick_test)
  /\ advisory quick_test = [Console WarnNoPalette]
  /\ exists st' evs,
       start never quick_test = Some st'
       /\ useAutoPalette st' = false
       /\ (useAutoPalette quick_test = true -> _autoWarned st' = true)
       /\ trace st' = (trace quick_test ++ advisory quick_test ++ evs)%list
       /\ Forall calm evs
       /\ clicks evs
          = List.map (fun p => (deviceX quick_test p, deviceY quick_test p))
              (firstn (currentPixel st' - currentPixel quick_test)
                 (skipn (currentPixel quick_test) (pixels quick_test))).
Proof.
  assert (H0 : colorPalette quick_test = []) by (vm_compute; reflexivity).
  assert (H1 : isRunning quick_test = false) by (vm_compute; reflexivity).
  assert (H2 : canvas quick_test = true) by (vm_compute; reflexivity).
  assert (H3 : pixels quick_test <> []) by (vm_compute; discriminate).
  destruct (empty_palette_manual never "#FF0000" quick_test H0) as (A & B & C).
  split; [exact H0 |]. split; [exact A |].
  split; [vm_compute; reflexivity |].
  exact (C H1 H2 H3).
Defined.

(** * Further properties *)

(** ** The checkpoint slot *)

(** X1.  [loadState] answers [true] exactly when the slot holds a value
    whose [remaining] is an array and whose version is 1.  In every
    other case it answers [false] and leaves every field as it was, the
    console apart: in silence for a missing or empty entry, a falsy
    value, a value without such an array or of another version, and
    with a warning for text that does not parse. *)
Theorem loadState_fails_soft (st : bot) :
  (fst (loadState st) = true <->
   exists s, storage st = Some (Parsed s) /\ s_version s = 1)
  /\ (fst (loadState st) = false ->
      snd (loadState st) = set_trace (trace (snd (loadState st))) st)
  /\ (storage st = None \/ storage st = Some Blank \/ storage st = Some Falsy
      \/ storage st = Some NoQueue ->
      loadState st = (false, st))
  /\ (storage st = Some Unparsable -> loadState st = (false, say WarnLoadFailed st))
  /\ (forall s, storage st = Some (Parsed s) -> s_version s <> 1 ->
      loadState st = (false, st)).
Proof.
  unfold loadState. split; [| split; [| split; [| split]]].
  - destruct (storage st) as [[| | | |s]|] eqn:Es; cbn;
      try (split; [discriminate | intros (s' & [=] & _)]).
    destruct (Z.eqb_spec (s_version s) 1) as [Hv|Hv]; cbn.
    + split; eauto.
    + split; [discriminate |]. intros (s' & [= <-] & Hv'). contradiction.
  - destruct (storage st) as [[| | | |s]|] eqn:Es; cbn;
      try (intros _; now destruct st).
    destruct (Z.eqb_spec (s_version s) 1) as [Hv|Hv]; cbn; [discriminate |].
    intros _. now destruct st.
  - intros [-> | [-> | [-> | ->]]]; reflexivity.
  - intros ->. reflexivity.
  - intros s -> Hv. apply Z.eqb_neq in Hv. now rewrite Hv.
Qed.

Lemma loadState_fails_soft_witness :
  fst (loadState (new_bot true [])) = false
  /\ snd (loadState (new_bot true []))
     = set_trace (trace (snd (loadState (new_bot true [])))) (new_bot true []).
Proof.
  split; [reflexivity |].
  apply (proj2 (loadState_fails_soft (new_bot true []))). reflexivity.
Defined.

Lemma kept_remaining (l : list task) (c : nat) :
  (if (largeSaveCap <? List.length (skipn c l))%nat
   then firstn largeSaveCap (skipn c l) else skipn c l)
  = firstn largeSaveCap (skipn c l).
Proof.
  destruct (Nat.ltb_spec largeSaveCap (List.length (skipn c l))); [reflexivity |].
  symmetry. now apply firstn_all2.
Qed.

Lemma restore_spec (st loader : bot) :
  storage_ok st = true ->
  storage loader = storage (saveState st) ->
  exists st', loadState loader = (true, st')
    /\ startX st' = startX st /\ startY st' = startY st /\ delay st' = delay st
    /\ imageName st' = (if String.eqb (imageName st) "" then default_name
                        else imageName st)
    /\ cellW st' = keep (cellW st) (cellW loader)
    /\ cellH st' = keep (cellH st) (cellH loader)
    /\ pixels st' = firstn largeSaveCap (skipn (currentPixel st) (pixels st))
    /\ currentPixel st' = 0%nat
    /\ colorPalette st' = colorPalette loader
    /\ useAutoPalette st' = useAutoPalette loader
    /\ lockedColorMode st' = lockedColorMode loader
    /\ canvas st' = canvas loader
    /\ isRunning st' = isRunning loader
    /\ storage_ok st' = storage_ok loader
    /\ trace st' = (trace loader ++ [Console LogLoadedSession])%list.
Proof.
  intros Hok Hs. unfold saveState in Hs. rewrite Hok in Hs. cbn -[Nat.ltb] in Hs.
  unfold loadState. rewrite Hs. cbn -[Nat.ltb].
  eexists. split; [reflexivity |]. cbn -[Nat.ltb].
  rewrite kept_remaining. repeat split.
Qed.

(** X2.  What a later session finds: when the store takes the write, a
    [loadState] on the slot that [saveState] filled, by whatever object,
    restores the start position, the delay, the image name (the default
    name for an empty one) and the first 50,000 tasks from the cursor on,
    with the cursor at 0; a calibrated cell size is restored, an
    uncalibrated one leaves the loader's own; palette, colour mode and
    board stay the loader's. *)
Theorem saveState_restores (st loader : bot) :
  storage_ok st = true ->
  storage loader = storage (saveState st) ->
  exists st', loadState loader = (true, st')
    /\ startX st' = startX st /\ startY st' = startY st /\ delay st' = delay st
    /\ imageName st' = (if String.eqb (imageName st) "" then default_name
                        else imageName st)
    /\ cellW st' = keep (cellW st) (cellW loader)
    /\ cellH st' = keep (cellH st) (cellH loader)
    /\ pixels st' = firstn largeSaveCap (skipn (currentPixel st) (pixels st))
    /\ currentPixel st' = 0%nat
    /\ colorPalette st' = colorPalette loader
    /\ useAutoPalette st' = useAutoPalette loader
    /\ lockedColorMode st' = lockedColorMode loader
    /\ canvas st' = canvas loader.
Proof.
  intros Hok Hs. unfold saveState in Hs. rewrite Hok in Hs. cbn -[Nat.ltb] in Hs.
  unfold loadState. rewrite Hs. cbn -[Nat.ltb].
  eexists. split; [reflexivity |]. cbn -[Nat.ltb].
  rewrite kept_remaining. repeat split.
Qed.

Lemma saveState_restores_witness :
  storage_ok (calibrate 100 114 (setStartPosition 120 300 (row_bot 3))) = true
  /\ exists st',
       loadState (reopened true [] (calibrate 100 114 (setStartPosition 120 300 (row_bot 3))))
       = (true, st')
       /\ startX st' = 120 /\ startY st' = 300 /\ cellW st' = Some 14
       /\ pixels st' = row 3.
Proof.
  assert (Hok : storage_ok (calibrate 100 114 (setStartPosition 120 300 (row_bot 3))) = true)
    by (vm_compute; reflexivity).
  assert (Hs : storage (reopened true [] (calibrate 100 114 (setStartPosition 120 300 (row_bot 3))))
               = storage (saveState (calibrate 100 114 (setStartPosition 120 300 (row_bot 3)))))
    by (vm_compute; reflexivity).
  split; [exact Hok |].
  destruct (saveState_restores _ _ Hok Hs)
    as (st' & Hl & Hx & Hy & _ & _ & Hw & _ & Hp & _).
  exists st'. split; [exact Hl |].
  split; [rewrite Hx; vm_compute; reflexivity |].
  split; [rewrite Hy; vm_compute; reflexivity |].
  split; [rewrite Hw; vm_compute; reflexivity |].
  rewrite Hp. vm_compute. reflexivity.
Defined.

(** X3.  [saveState] touches nothing but the slot and, when the write
    fails, the console; a failed write leaves the checkpoint that was
    there, so the [loadState] that follows installs the earlier one. *)
Theorem saveState_only_slot (st : bot) :
  set_storage (storage st) (set_trace (trace st) (saveState st)) = st
  /\ (storage_ok st = false ->
      storage (saveState st) = storage st
      /\ fst (loadState (saveState st)) = fst (loadState st)
      /\ pixels (snd (loadState (saveState st))) = pixels (snd (loadState st))).
Proof.
  unfold saveState. destruct (storage_ok st) eqn:Hok; cbn -[Nat.ltb].
  - split; [now destruct st | discriminate].
  - split; [now destruct st |]. intros _. split; [reflexivity |].
    unfold loadState. cbn.
    destruct (storage st) as [[| | | |s]|]; cbn; auto.
    destruct (negb (s_version s =? 1)); cbn; auto.
Qed.

Lemma saveState_only_slot_witness :
  storage_ok (set_storage_ok_false (row_bot 3)) = false
  /\ storage (saveState (set_storage_ok_false (row_bot 3)))
     = storage (set_storage_ok_false (row_bot 3)).
Proof.
  split; [reflexivity |].
  apply (proj2 (saveState_only_slot (set_storage_ok_false (row_bot 3)))). reflexivity.
Defined.

(** ** What a run leaves alone *)

Lemma prepare_setup (st : bot) :
  pixels (prepare st) = pixels st /\ startX (prepare st) = startX st
  /\ startY (prepare st) = startY st /\ delay (prepare st) = delay st
  /\ canvas (prepare st) = canvas st /\ colorPalette (prepare st) = colorPalette st
  /\ lockedColorMode (prepare st) = lockedColorMode st
  /\ cellW (prepare st) = cellW st /\ cellH (prepare st) = cellH st
  /\ storage_ok (prepare st) = storage_ok st /\ imageName (prepare st) = imageName st
  /\ storage (prepare st) = storage st
  /\ currentPixel (prepare st) = currentPixel st
  /\ (useAutoPalette st = false -> useAutoPalette (prepare st) = false).
Proof.
  unfold prepare, warn_once.
  destruct (useAutoPalette st && _); [destruct (_autoWarned st) |];
    match goal with |- context [if ?c then _ else _] => destruct c end;
    cbn; repeat split; auto.
Qed.

(** X4.  A [start] that one of its three guards turns down (a run is
    on, no task is loaded, or the board was not found) writes one line on
    the console and does nothing else: no click, no change of the
    cursor, the flags or the checkpoint. *)
Theorem start_refused {M : Math} (who : user) (st : bot) :
  isRunning st = true \/ pixels st = [] \/ canvas st = false ->
  exists c, start who st = Some (say c st).
Proof.
  intros H. unfold start.
  destruct (isRunning st); [eauto |].
  destruct (pixels st) as [|p l]; cbn; [eauto |].
  destruct (canvas st); cbn; [| eauto].
  destruct H as [H|[H|H]]; discriminate.
Qed.

Lemma start_refused_witness :
  (isRunning (new_bot true []) = true \/ pixels (new_bot true []) = []
   \/ canvas (new_bot true []) = false)
  /\ exists c, start never (new_bot true []) = Some (say c (new_bot true [])).
Proof.
  split; [right; left; reflexivity |].
  apply (start_refused never (new_bot true [])). right. left. reflexivity.
Defined.

Lemma run_frame {M : Math} (who : user) (st : bot) :
  isRunning st = false -> pixels st <> [] -> canvas st = true ->
  exists st', start who st = Some st'
    /\ pixels st' = pixels st /\ startX st' = startX st /\ startY st' = startY st
    /\ delay st' = delay st /\ cellW st' = cellW st /\ cellH st' = cellH st
    /\ colorPalette st' = colorPalette st
    /\ lockedColorMode st' = lockedColorMode st
    /\ imageName st' = imageName st /\ canvas st' = canvas st
    /\ (currentPixel st <= currentPixel st')%nat
    /\ (useAutoPalette st = false -> useAutoPalette st' = false)
    /\ isRunning st' = false.
Proof.
  intros Hrun Hpx Hcv. unfold start. rewrite Hrun, Hcv.
  assert (Hlen : Nat.eqb (List.length (pixels st)) 0 = false)
    by (destruct (pixels st); [contradiction | reflexivity]).
  rewrite Hlen. cbn [negb].
  destruct (prepare_setup st)
    as (P0 & X0 & Y0 & D0 & V0 & L0 & M0 & W0 & H0 & O0 & N0 & S0 & C0 & A0).
  destruct (drawLoop_ends who (gridW (prepare st)) (gridH (prepare st))
              (List.length (pixels (prepare st)) - currentPixel (prepare st))
              (prepare st))
    as (mid & cl & Hd & (Hsame & _ & Hauto) & _ & _ & Hle & _); [congruence | lia |].
  destruct (finish_proceeds mid) as ((Hsame2 & _ & Hauto2) & Cf & Rf).
  rewrite Hd. cbn [option_map]. exists (finish mid). split; [reflexivity |].
  unfold same_setup in *. rewrite Cf.
  repeat split; try (intuition congruence); try lia; auto.
Qed.

(** X5.  [start] always comes back, and whatever happens during the run
    it never alters the queue, the start position, the delay, the cell
    size, the palette, the locked-colour mode or the image name; the
    cursor never moves back, a session in manual colour mode stays in
    it, and a run that was let in ends with the running flag off. *)
Theorem start_keeps_setup {M : Math} (who : user) (st : bot) :
  exists st', start who st = Some st'
    /\ pixels st' = pixels st /\ startX st' = startX st /\ startY st' = startY st
    /\ delay st' = delay st /\ cellW st' = cellW st /\ cellH st' = cellH st
    /\ colorPalette st' = colorPalette st
    /\ lockedColorMode st' = lockedColorMode st
    /\ imageName st' = imageName st /\ canvas st' = canvas st
    /\ (currentPixel st <= currentPixel st')%nat
    /\ (useAutoPalette st = false -> useAutoPalette st' = false)
    /\ (isRunning st = false -> isRunning st' = false).
Proof.
  destruct (isRunning st) eqn:Hrun.
  { exists (say LogAlreadyRunning st). unfold start. rewrite Hrun.
    split; [reflexivity |]. cbn. repeat split; auto; discriminate. }
  destruct (pixels st) as [|p0 rest] eqn:Hpx.
  { exists (say LogLoadFirst st). unfold start. rewrite Hrun, Hpx.
    split; [reflexivity |]. cbn. repeat split; auto. }
  destruct (canvas st) eqn:Hcv.
  2:{ exists (say LogNoCanvas st). unfold start. rewrite Hrun, Hpx, Hcv.
      split; [reflexivity |]. cbn. repeat split; auto. }
  destruct (run_frame who st Hrun) as (st' & Hs & F); [now rewrite Hpx | exact Hcv |].
  rewrite Hpx in F. exists st'. split; [exact Hs |].
  destruct F as (F1 & F2 & F3 & F4 & F5 & F6 & F7 & F8 & F9 & F10 & F11 & F12 & F13).
  rewrite Hcv in F10. repeat split; auto.
Qed.

Lemma start_keeps_setup_witness :
  exists st',
    start never quick_test = Some st'
    /\ pixels st' = pixels quick_test
    /\ isRunning st' = false.
Proof.
  destruct (start_keeps_setup never quick_test)
    as (st' & H1 & H2 & _ & _ & _ & _ & _ & _ & _ & _ & _ & _ & _ & H3).
  exists st'. split; [exact H1 |]. split; [exact H2 |].
  apply H3. reflexivity.
Defined.

(** ** The grid *)

Lemma grid_positive (st : bot) : 1 <= gridW st /\ 1 <= gridH st.
Proof.
  assert (HW : 1 <= gridW st).
  { unfold gridW. destruct (cellW st) as [w|]; [| lia].
    destruct (Z.ltb_spec 0 w); lia. }
  split; [exact HW |].
  unfold gridH. destruct (cellH st) as [h|]; [| exact HW].
  destruct (Z.ltb_spec 0 h); lia.
Qed.

Lemma sorted_skipn (l : list task) (n : nat) :
  StronglySorted yx_lt l -> StronglySorted yx_lt (skipn n l).
Proof.
  revert l. induction n as [|n IH]; intros l Hs; [exact Hs |].
  destruct l as [|a l]; [constructor |].
  cbn. apply IH. now inversion Hs.
Qed.

Lemma sorted_firstn (l : list task) (n : nat) :
  StronglySorted yx_lt l -> StronglySorted yx_lt (firstn n l).
Proof.
  revert l. induction n as [|n IH]; intros l Hs; [constructor |].
  destruct l as [|a l]; [constructor |].
  inversion Hs as [|? ? Hs' Hall]; subst. cbn. constructor; [now apply IH |].
  rewrite Forall_forall in *. intros x Hx. apply Hall.
  rewrite <- (firstn_skipn n l). apply in_or_app. now left.
Qed.

Lemma sorted_filter (f : task -> bool) (l : list task) :
  StronglySorted yx_lt l -> StronglySorted yx_lt (filter f l).
Proof.
  induction 1 as [|a l Hs IH Hall]; [constructor |].
  cbn. destruct (f a); [| exact IH].
  constructor; [exact IH |].
  rewrite Forall_forall in *. intros x Hx. apply Hall.
  now apply filter_In in Hx.
Qed.

(** The point of a task lies in the task's cell. *)
Lemma target_in_cell (W H : Z) (st : bot) (p : task) :
  1 <= W -> 1 <= H ->
  startX st + px p * W <= fst (target_point W H st p) < startX st + (px p + 1) * W
  /\ startY st + py p * H <= snd (target_point W H st p) < startY st + (py p + 1) * H.
Proof.
  intros HW HH. unfold target_point. cbn [fst snd].
  assert (BW : 0 <= W / 2 < W)
    by (split; [apply Z.div_pos | apply Z.div_lt_upper_bound]; lia).
  assert (BH : 0 <= H / 2 < H)
    by (split; [apply Z.div_pos | apply Z.div_lt_upper_bound]; lia).
  split; nia.
Qed.

Lemma targets_distinct (W H : Z) (st : bot) (l : list task) :
  1 <= W -> 1 <= H ->
  StronglySorted yx_lt l -> NoDup (List.map (target_point W H st) l).
Proof.
  intros HW HH. induction 1 as [|a l Hs IH Hall]; cbn; constructor; [| exact IH].
  rewrite in_map_iff. intros (c & E & Hin).
  rewrite Forall_forall in Hall. specialize (Hall c Hin).
  pose proof (target_in_cell W H st a HW HH) as [A1 A2].
  pose proof (target_in_cell W H st c HW HH) as [C1 C2].
  rewrite E in C1, C2. unfold yx_lt in Hall. nia.
Qed.

(** X6.  In any call of [start], the clicks on the board correspond one
    to one, in order, to the tasks taken and not passed over, and each
    click lies inside the cell of its task in the grid the run uses,
    whose cells are at least 1 wide and 1 high, whatever the
    calibration.  When the queue is strictly ascending by [(y, x)], as
    every load leaves it, no point is clicked twice in the run. *)
Theorem click_in_own_cell {M : Math} (who : user) (st : bot) :
  exists st' evs,
    start who st = Some st'
    /\ trace st' = (trace st ++ evs)%list
    /\ 1 <= gridW st /\ 1 <= gridH st
    /\ Forall2
         (fun p c =>
            startX st + px p * gridW st <= fst c < startX st + (px p + 1) * gridW st
            /\ startY st + py p * gridH st <= snd c < startY st + (py p + 1) * gridH st)
         (filter (fun p => negb (skips st p))
            (firstn (currentPixel st' - currentPixel st)
               (skipn (currentPixel st) (pixels st))))
         (clicks evs)
    /\ (StronglySorted yx_lt (pixels st) -> NoDup (clicks evs)).
Proof.
  destruct (start_clicks who st) as (st' & evs & Hs & Ht & Hle & Hcl).
  destruct (grid_positive st) as [HW HH].
  rewrite step_clicks_filter in Hcl.
  exists st', evs. split; [exact Hs |]. split; [exact Ht |].
  split; [exact HW |]. split; [exact HH |].
  rewrite Hcl. split.
  - clear Hcl. induction (filter _ _) as [|p l IH]; cbn [List.map]; constructor;
      [now apply target_in_cell | exact IH].
  - intros Hsorted. apply targets_distinct; try assumption.
    now apply sorted_filter, sorted_firstn, sorted_skipn.
Qed.

Lemma click_in_own_cell_witness :
  exists st' evs,
    start never mixed_run = Some st'
    /\ 1 <= gridW mixed_run /\ 1 <= gridH mixed_run
    /\ NoDup (clicks evs).
Proof.
  destruct (click_in_own_cell never mixed_run)
    as (st' & evs & Hs & _ & HW & HH & _ & Hn).
  exists st', evs. split; [exact Hs |]. split; [exact HW |]. split; [exact HH |].
  apply Hn.
  assert (E : pixels mixed_run
              = [ {| px := 0; py := 0; pcolor := "#000000" |};
                  {| px := 2; py := 1; pcolor := "#030400" |} ])
    by (vm_compute; reflexivity).
  rewrite E. repeat constructor.
Defined.

(** ** Clicks on swatches *)

Lemma adds_refl (P : event -> Prop) (st : bot) : adds P st st.
Proof. exists []. now rewrite app_nil_r. Qed.

Lemma adds_trans (P : event -> Prop) (a c d : bot) :
  adds P a c -> adds P c d -> adds P a d.
Proof.
  intros (e1 & H1 & F1) (e2 & H2 & F2). exists (e1 ++ e2)%list.
  split; [now rewrite H2, H1, app_assoc | now apply Forall_app].
Qed.

Lemma adds_weaken (P Q : event -> Prop) (st st' : bot) :
  (forall e, P e -> Q e) -> adds P st st' -> adds Q st st'.
Proof.
  intros HPQ (evs & H & F). exists evs. split; [assumption |].
  eapply Forall_impl; eauto.
Qed.

(** Closes an [adds] goal on a state written out with the setters. *)
Ltac by_events :=
  eexists; split;
  [ cbn; rewrite <- ?app_assoc; first [reflexivity | symmetry; apply app_nil_r]
  | repeat constructor ].

Lemma saveState_adds (st : bot) : adds noswatch st (saveState st).
Proof. unfold saveState. destruct (storage_ok st); by_events. Qed.

Lemma stop_adds (st : bot) : adds noswatch st (stop st).
Proof.
  unfold stop.
  eapply adds_trans; [| eapply adds_trans; [apply saveState_adds | by_events]].
  destruct (isRunning st); by_events.
Qed.

Lemma await_adds (who : user) (k : pause) (ms : Z) (st : bot) :
  adds noswatch st (await who k ms st).
Proof.
  unfold await. destruct (who k _).
  - eapply adds_trans; [| apply stop_adds]. by_events.
  - by_events.
Qed.

Lemma place_adds (who : user) (cx cy : Z) (st : bot) :
  adds noswatch st (place who cx cy st).
Proof.
  unfold place. eapply adds_trans; [| apply await_adds].
  match goal with |- context [if ?c then saveState ?s else _] =>
    assert (H : adds noswatch s (if c then saveState s else s))
      by (destruct c; [apply saveState_adds | apply adds_refl])
  end.
  eapply adds_trans; [| exact H].
  unfold clickCanvas. destruct (canvas st); by_events.
Qed.

Lemma warn_once_adds (flag : bot -> bool) (set_flag : bool -> bot -> bot)
    (c : console) (st : bot) :
  (forall v s, trace (set_flag v s) = trace s) ->
  adds noswatch st (warn_once flag set_flag c st).
Proof.
  intros Hset. unfold warn_once. destruct (flag st); [apply adds_refl |].
  exists [Console c]. rewrite Hset. split; [reflexivity | repeat constructor].
Qed.

Lemma selectColorSmart_adds {M : Math} (hex : string) (st : bot) :
  adds (permitted (colorPalette st)) st (snd (selectColorSmart hex st)).
Proof.
  assert (Hw : forall flag set_flag c,
             (forall v s, trace (set_flag v s) = trace s) ->
             adds (permitted (colorPalette st)) st (warn_once flag set_flag c st)).
  { intros. eapply adds_weaken; [| now apply warn_once_adds].
    intros [] He; cbn in *; tauto. }
  assert (Hpick : forall e, In e (colorPalette st) -> locked e = false ->
                            adds (permitted (colorPalette st)) st (pick e st)).
  { intros e Hin Hl. exists [SwatchClick (element e)]. split; [reflexivity |].
    constructor; [| constructor]. cbn. eauto. }
  unfold selectColorSmart.
  destruct (colorPalette st) as [|e0 l] eqn:Hp; [apply adds_refl |].
  rewrite <- Hp in *.
  destruct (findClosestEntry _ hex false) as [closest|] eqn:Hc; [| apply adds_refl].
  apply findClosestEntry_some in Hc as (Hin & _).
  destruct (locked closest) eqn:Hl; [| now apply Hpick].
  destruct (lockedColorMode st); cbn [snd].
  - now apply Hw.
  - destruct (findClosestEntry _ hex true) as [unlocked|] eqn:Hu; cbn [snd].
    + apply findClosestEntry_some in Hu as (Hin' & Hcand & _).
      apply Hpick; [assumption | now apply candidate_unlocked].
    + eapply adds_trans; [now apply (Hw _manualWarned set_manualWarned) | by_events].
  - eapply adds_trans; [now apply (Hw _manualWarned set_manualWarned) | by_events].
Qed.

(** X7.  [selectColorSmart] answers [true] exactly when it clicks a
    swatch.  The swatch clicked is then an unlocked entry of the palette
    whose colour text parses, and the selected colour becomes that
    entry's colour; on any other answer no swatch is clicked and the
    selected colour stays.  A nearest entry that is unlocked is picked in
    every mode, and the call never switches the auto mode on. *)
Theorem selectColorSmart_picks {M : Math} (hex : string) (st : bot) :
  (fst (selectColorSmart hex st) = ResTrue ->
   exists e, In e (colorPalette st) /\ locked e = false
     /\ rgbStringToObject (color e) <> None
     /\ snd (selectColorSmart hex st) = pick e st
     /\ trace (pick e st) = (trace st ++ [SwatchClick (element e)])%list
     /\ selectedColor (pick e st) = rgbToHex (color e))
  /\ (fst (selectColorSmart hex st) <> ResTrue ->
      adds noswatch st (snd (selectColorSmart hex st))
      /\ selectedColor (snd (selectColorSmart hex st)) = selectedColor st)
  /\ (forall c, findClosestEntry (colorPalette st) hex false = Some c ->
                locked c = false ->
                selectColorSmart hex st = (ResTrue, pick c st))
  /\ (useAutoPalette (snd (selectColorSmart hex st)) = true ->
      useAutoPalette st = true).
Proof.
  assert (Hparse : forall u e, findClosestEntry (colorPalette st) hex u = Some e ->
                     In e (colorPalette st) /\ rgbStringToObject (color e) <> None).
  { intros u e He. apply findClosestEntry_some in He as (Hin & Hc & _).
    split; [assumption |]. unfold candidate in Hc. apply andb_prop in Hc as [_ Hc].
    destruct (rgbStringToObject (color e)); [discriminate | discriminate]. }
  assert (Hw : forall flag set_flag c,
             (forall v s, trace (set_flag v s) = trace s
                          /\ selectedColor (set_flag v s) = selectedColor s
                          /\ useAutoPalette (set_flag v s) = useAutoPalette s) ->
             adds noswatch st (warn_once flag set_flag c st)
             /\ selectedColor (warn_once flag set_flag c st) = selectedColor st
             /\ useAutoPalette (warn_once flag set_flag c st) = useAutoPalette st).
  { intros flag set_flag c Hset. split.
    - apply warn_once_adds. intros v s. apply Hset.
    - unfold warn_once. destruct (flag st); [auto |].
      destruct (Hset true (say c st)) as (_ & -> & ->). auto. }
  assert (Hskip : forall v s, trace (set_skipWarned v s) = trace s
                    /\ selectedColor (set_skipWarned v s) = selectedColor s
                    /\ useAutoPalette (set_skipWarned v s) = useAutoPalette s)
    by (intros; repeat split).
  assert (Hman : forall v s, trace (set_manualWarned v s) = trace s
                    /\ selectedColor (set_manualWarned v s) = selectedColor s
                    /\ useAutoPalette (set_manualWarned v s) = useAutoPalette s)
    by (intros; repeat split).
  unfold selectColorSmart.
  destruct (colorPalette st) as [|e0 l] eqn:Hp.
  { cbn. split; [discriminate |]. split; [split; [apply adds_refl | reflexivity] |].
    split; [| auto]. intros c Hc. unfold findClosestEntry in Hc. discriminate. }
  rewrite <- Hp in *.
  destruct (findClosestEntry _ hex false) as [closest|] eqn:Hc.
  2:{ cbn. split; [discriminate |]. split; [split; [apply adds_refl | reflexivity] |].
      split; [discriminate | auto]. }
  destruct (Hparse _ _ Hc) as [Hin Hok].
  destruct (locked closest) eqn:Hl.
  2:{ cbn [fst snd]. split; [intros _; exists closest; repeat split; auto |].
      split; [congruence |]. split; [| cbn; auto].
      intros c [= <-] _. reflexivity. }
  assert (Hno : forall c : entry, Some closest = Some c -> locked c = false -> False)
    by (intros c [= <-]; congruence).
  destruct (lockedColorMode st); cbn [fst snd].
  - destruct (Hw _skipWarned set_skipWarned WarnSkipLocked Hskip) as (A & S & U).
    split; [discriminate |]. split; [auto |].
    split; [intros c E1 E2; destruct (Hno c E1 E2) | now rewrite U].
  - destruct (findClosestEntry _ hex true) as [unlocked|] eqn:Hu; cbn [fst snd].
    + destruct (Hparse _ _ Hu) as [Hin' Hok'].
      apply findClosestEntry_some in Hu as (_ & Hcand & _).
      split; [intros _; exists unlocked; repeat split; auto using candidate_unlocked |].
      split; [congruence |].
      split; [intros c E1 E2; destruct (Hno c E1 E2) | cbn; auto].
    + destruct (Hw _manualWarned set_manualWarned WarnNoUnlocked Hman) as (A & S & U).
      split; [discriminate |].
      split; [intros _; split; [| cbn; exact S] |].
      { eapply adds_trans; [exact A | by_events]. }
      split; [intros c E1 E2; destruct (Hno c E1 E2) | cbn; discriminate].
  - destruct (Hw _manualWarned set_manualWarned WarnManualLocked Hman) as (A & S & U).
    split; [discriminate |].
    split; [intros _; split; [| cbn; exact S] |].
    { eapply adds_trans; [exact A | by_events]. }
    split; [intros c E1 E2; destruct (Hno c E1 E2) | cbn; discriminate].
Qed.

Lemma selectColorSmart_picks_witness :
  fst (selectColorSmart "#000000" (table_bot ModeMap)) = ResTrue
  /\ exists e, In e (colorPalette (table_bot ModeMap)) /\ locked e = false
       /\ snd (selectColorSmart "#000000" (table_bot ModeMap))
          = pick e (table_bot ModeMap).
Proof.
  assert (H : fst (selectColorSmart "#000000" (table_bot ModeMap)) = ResTrue)
    by (vm_compute; reflexivity).
  split; [exact H |].
  destruct (proj1 (selectColorSmart_picks "#000000" (table_bot ModeMap)) H)
    as (e & H1 & H2 & _ & H4 & _).
  exists e. auto.
Defined.

Section Policy.

Context {M : Math}.

Variable who : user.
Variables W H : Z.

Lemma drawStep_adds (p : task) (st : bot) :
  adds (in_policy st) st (drawStep who W H p st).
Proof.
  assert (Hq : forall a c, adds noswatch a c -> adds (in_policy st) a c).
  { intros a c. apply adds_weaken. intros [] He; cbn in *; try tauto.
    all: split; cbn; auto. }
  unfold drawStep.
  destruct (useAutoPalette st) eqn:Hauto; [| apply Hq, place_adds].
  pose proof (selectColorSmart_adds (pcolor p) st) as Hs.
  assert (Hs' : adds (in_policy st) st (snd (selectColorSmart (pcolor p) st))).
  { eapply adds_weaken; [| exact Hs]. intros e He. split; [exact He | congruence]. }
  destruct (selectColorSmart (pcolor p) st) as [[| |] st1]; cbn [snd] in *.
  - eapply adds_trans; [exact Hs' |].
    eapply adds_trans; apply Hq; [apply await_adds | apply place_adds].
  - eapply adds_trans; [exact Hs' | apply Hq, place_adds].
  - eapply adds_trans; [exact Hs' |].
    eapply adds_trans; [| apply Hq, await_adds]. by_events.
Qed.

Lemma drawLoop_adds (fuel : nat) (st st' : bot) :
  canvas st = true ->
  drawLoop fuel who W H st = Some st' ->
  adds (in_policy st) st st'.
Proof.
  revert st. induction fuel as [|fuel IH]; intros st Hcv; cbn [drawLoop].
  - destruct (looping st); [discriminate |]. intros [= <-]. apply adds_refl.
  - destruct (looping st); [| intros [= <-]; apply adds_refl].
    destruct (nth_error (pixels st) (currentPixel st)) as [p|]; [| discriminate].
    intros Hd.
    destruct (drawStep_proceeds who W H p st Hcv) as ((Hsame & _ & Hauto) & _).
    eapply adds_trans; [apply drawStep_adds |].
    eapply adds_weaken; [| apply IH; [| exact Hd]].
    + unfold in_policy, same_setup in *. intros e [He1 He2].
      destruct Hsame as (_ & _ & _ & _ & _ & Hpal & _). rewrite Hpal in He1. auto.
    + unfold same_setup in Hsame. intuition congruence.
Qed.

End Policy.

Lemma prepare_adds (st : bot) : adds noswatch st (prepare st).
Proof.
  unfold prepare, warn_once.
  destruct (useAutoPalette st && _); [destruct (_autoWarned st) |];
    match goal with |- context [if ?c then _ else _] => destruct c end;
    by_events.
Qed.

Lemma finish_adds (st : bot) : adds noswatch st (finish st).
Proof.
  unfold finish, clearState. cbn [pixels currentPixel set_isRunning].
  destruct (_ <=? _)%nat; [by_events |].
  eapply adds_trans; [| apply saveState_adds]. by_events.
Qed.

Lemma run_events {M : Math} (who : user) (st : bot) :
  isRunning st = false -> pixels st <> [] -> canvas st = true ->
  exists st' evs,
    start who st = Some st'
    /\ trace st' = (trace st ++ evs)%list
    /\ Forall (permitted (colorPalette st)) evs
    /\ (useAutoPalette st = false \/ colorPalette st = [] -> Forall noswatch evs).
Proof.
  intros Hrun Hpx Hcv.
  assert (Hw : forall pal e, noswatch e -> permitted pal e)
    by (intros pal [] He; cbn in *; tauto).
  unfold start. rewrite Hrun, Hcv.
  assert (Hlen : Nat.eqb (List.length (pixels st)) 0 = false)
    by (destruct (pixels st); [contradiction | reflexivity]).
  rewrite Hlen. cbn [negb].
  destruct (prepare_setup st)
    as (P0 & X0 & Y0 & D0 & V0 & L0 & M0 & W0 & H0 & O0 & N0 & S0 & C0 & A0).
  destruct (prepare_spec st) as (_ & _ & _ & _ & _ & _ & _ & _ & _ & A1 & _).
  destruct (drawLoop_ends who (gridW (prepare st)) (gridH (prepare st))
              (List.length (pixels (prepare st)) - currentPixel (prepare st))
              (prepare st))
    as (mid & cl & Hd & _); [congruence | lia |].
  destruct (prepare_adds st) as (ev0 & T0 & F0).
  destruct (drawLoop_adds who _ _ _ _ _ (eq_trans V0 Hcv) Hd) as (ev1 & T1 & F1).
  destruct (finish_adds mid) as (ev2 & T2 & F2).
  rewrite Hd. cbn [option_map].
  exists (finish mid), (ev0 ++ ev1 ++ ev2)%list.
  split; [reflexivity |].
  split; [rewrite T2, T1, T0, <- !app_assoc; reflexivity |].
  split.
  - apply Forall_app. split; [eapply Forall_impl; [apply Hw | exact F0] |].
    apply Forall_app. split; [| eapply Forall_impl; [apply Hw | exact F2]].
    eapply Forall_impl; [| exact F1]. intros e [He _]. now rewrite L0 in He.
  - intros Hm. apply Forall_app. split; [exact F0 |].
    apply Forall_app. split; [| exact F2].
    assert (Hoff : useAutoPalette (prepare st) = false) by (apply A1; tauto).
    eapply Forall_impl; [| exact F1]. intros e [_ He]. auto.
Qed.

(** X8.  In any run of [start], every click on a swatch is on an unlocked
    entry of the palette, and a session in manual colour mode clicks no
    swatch at all; so does a session whose palette is empty. *)
Theorem start_never_picks_locked {M : Math} (who : user) (st : bot) :
  exists st' evs,
    start who st = Some st'
    /\ trace st' = (trace st ++ evs)%list
    /\ Forall (permitted (colorPalette st)) evs
    /\ (useAutoPalette st = false \/ colorPalette st = [] -> Forall noswatch evs).
Proof.
  assert (Hsay : forall c, start who st = Some (say c st) ->
             exists st' evs,
               start who st = Some st' /\ trace st' = (trace st ++ evs)%list
               /\ Forall (permitted (colorPalette st)) evs
               /\ (useAutoPalette st = false \/ colorPalette st = [] ->
                   Forall noswatch evs)).
  { intros c Hs. exists (say c st), [Console c].
    split; [exact Hs |]. repeat split; repeat constructor. }
  destruct (isRunning st) eqn:Hrun.
  { apply (Hsay LogAlreadyRunning). unfold start. now rewrite Hrun. }
  destruct (pixels st) as [|p0 rest] eqn:Hpx.
  { apply (Hsay LogLoadFirst). unfold start. now rewrite Hrun, Hpx. }
  destruct (canvas st) eqn:Hcv.
  2:{ apply (Hsay LogNoCanvas). unfold start. now rewrite Hrun, Hpx, Hcv. }
  apply run_events; [exact Hrun | now rewrite Hpx | exact Hcv].
Qed.

Lemma start_never_picks_locked_witness :
  (useAutoPalette quick_test = false \/ colorPalette quick_test = [])
  /\ exists st' evs,
       start never quick_test = Some st'
       /\ trace st' = (trace quick_test ++ evs)%list
       /\ Forall noswatch evs.
Proof.
  assert (H : useAutoPalette quick_test = false \/ colorPalette quick_test = [])
    by (right; vm_compute; reflexivity).
  split; [exact H |].
  destruct (start_never_picks_locked never quick_test) as (st' & evs & H1 & H2 & _ & H4).
  exists st', evs. auto.
Defined.

(** ** Stopping and resuming *)

Lemma device_same (st st' : bot) (p : task) :
  startX st' = startX st -> startY st' = startY st ->
  cellW st' = cellW st -> cellH st' = cellH st ->
  (deviceX st' p, deviceY st' p) = (deviceX st p, deviceY st p).
Proof.
  intros HX HY HW HH. unfold deviceX, deviceY, gridH, gridW.
  now rewrite HX, HY, HW, HH.
Qed.

(** A run in manual colour mode clicks the tasks it takes, in order. *)
Lemma manual_run {M : Math} (who : user) (st : bot) :
  isRunning st = false -> canvas st = true -> pixels st <> [] ->
  colorPalette st = [] \/ useAutoPalette st = false ->
  exists mid evs,
    start who st = Some (finish mid)
    /\ trace (finish mid) = (trace st ++ evs)%list
    /\ clicks evs
       = List.map (fun p => (deviceX st p, deviceY st p))
           (firstn (currentPixel mid - currentPixel st)
              (skipn (currentPixel st) (pixels st)))
    /\ pixels mid = pixels st /\ storage_ok mid = storage_ok st
    /\ (currentPixel st <= currentPixel mid)%nat
    /\ ((currentPixel st < List.length (pixels st))%nat ->
        (currentPixel st < currentPixel mid <= List.length (pixels st))%nat)
    /\ ((List.length (pixels st) <= currentPixel st)%nat ->
        currentPixel mid = currentPixel st)
    /\ ((forall k n, who k n = false) ->
        (List.length (pixels st) <= currentPixel mid)%nat)
    /\ useAutoPalette mid = false.
Proof.
  intros Hrun Hcv Hpx Hm.
  destruct (start_runs who st Hrun Hcv Hpx)
    as (mid & evs & Hs & Hend & Pm & Om & Hle & Hlt & Hnev & Hman & _ & Ht & _).
  destruct (Hman Hm) as (Hoff & Hclicks).
  destruct (finish_outcome mid) as (_ & _ & _ & _ & _ & (ev2 & T2 & K2 & _) & _).
  assert (Ka : clicks (advisory st) = [])
    by (unfold advisory; destruct (_ && _); reflexivity).
  exists mid, (advisory st ++ evs ++ ev2)%list.
  split; [assumption |].
  split; [rewrite T2, Ht, <- !app_assoc; reflexivity |].
  split; [rewrite !clicks_app, Ka, K2, app_nil_r; exact Hclicks |].
  split; [assumption |]. split; [assumption |]. split; [assumption |].
  split; [assumption |]. split; [| split; [| assumption]].
  - intros Hge.
    (* the loop does not turn: its result is the state it was given *)
    unfold start in Hs. rewrite Hrun, Hcv in Hs.
    assert (Hlen : Nat.eqb (List.length (pixels st)) 0 = false)
      by (destruct (pixels st); [congruence | reflexivity]).
    rewrite Hlen in Hs. cbn [negb] in Hs.
    destruct (prepare_setup st) as (P0 & _ & _ & _ & _ & _ & _ & _ & _ & _ & _ & _ & C0 & _).
    rewrite drawLoop_done in Hs.
    + cbn in Hs. injection Hs as Hs.
      assert (E : currentPixel (finish (prepare st)) = currentPixel (finish mid))
        by now rewrite Hs.
      destruct (finish_outcome (prepare st)) as (_ & _ & C1 & _).
      destruct (finish_outcome mid) as (_ & _ & C2 & _).
      congruence.
    + unfold looping. rewrite P0, C0.
      destruct (Nat.ltb_spec (currentPixel st) (List.length (pixels st)));
        [lia | apply andb_false_r].
  - intros Hn. specialize (Hnev Hn). unfold looping in Hend.
    rewrite Hnev, Pm in Hend. cbn in Hend. now apply Nat.ltb_ge in Hend.
Qed.

(** X9.  Stop and resume in one session, in manual colour mode: a run
    from cursor 0 that the user stops whenever he likes, followed by
    [resume] left alone, clicks every task of the queue exactly once, in
    queue order, each at its point; it ends with the cursor at the end
    of the queue and the checkpoint removed. *)
Theorem stop_then_resume {M : Math} (who : user) (st : bot) :
  isRunning st = false -> canvas st = true -> pixels st <> [] ->
  currentPixel st = 0%nat ->
  colorPalette st = [] \/ useAutoPalette st = false ->
  exists st1 st2 ev1 ev2,
    start who st = Some st1
    /\ resume never st1 = Some st2
    /\ trace st1 = (trace st ++ ev1)%list
    /\ trace st2 = (trace st1 ++ ev2)%list
    /\ (clicks ev1 ++ clicks ev2)%list
       = List.map (fun p => (deviceX st p, deviceY st p)) (pixels st)
    /\ currentPixel st2 = List.length (pixels st)
    /\ storage st2 = None.
Proof.
  intros Hrun Hcv Hpx Hc0 Hm.
  destruct (manual_run who st Hrun Hcv Hpx Hm)
    as (mid1 & ev1 & Hs1 & T1 & K1 & P1 & _ & _ & Hlt1 & _ & _ & Hoff1).
  destruct (run_frame who st Hrun Hpx Hcv)
    as (st1 & Hs1' & F1 & FX & FY & _ & FW & FH & FP & _ & _ & FV & _ & FA & FR).
  rewrite Hs1 in Hs1'. injection Hs1' as <-.
  destruct (finish_outcome mid1) as (_ & _ & C1 & A1 & _).
  assert (Hk : (0 < List.length (pixels st))%nat)
    by (destruct (pixels st); [congruence | cbn; lia]).
  rewrite Hc0 in Hlt1, K1. specialize (Hlt1 Hk).
  assert (Hpx1 : pixels (finish mid1) <> []) by now rewrite F1.
  assert (Hm1 : colorPalette (finish mid1) = [] \/ useAutoPalette (finish mid1) = false)
    by (right; congruence).
  destruct (manual_run never (finish mid1) FR (eq_trans FV Hcv) Hpx1 Hm1)
    as (mid2 & ev2 & Hs2 & T2 & K2 & P2 & _ & Hle2 & Hlt2 & Hge2 & Hnev2 & _).
  specialize (Hnev2 (fun _ _ => eq_refl)).
  rewrite F1 in K2, P2, Hlt2, Hge2, Hnev2.
  rewrite C1 in K2, Hle2, Hlt2, Hge2.
  assert (Hc2 : currentPixel mid2 = List.length (pixels st)).
  { destruct (Nat.lt_ge_cases (currentPixel mid1) (List.length (pixels st))) as [H|H].
    - specialize (Hlt2 H). lia.
    - rewrite (Hge2 H). lia. }
  destruct (finish_outcome mid2) as (_ & _ & C2 & _ & _ & _ & Hfin & _).
  exists (finish mid1), (finish mid2), ev1, ev2.
  split; [exact Hs1 |].
  split.
  { unfold resume. rewrite F1.
    destruct (pixels st); [congruence | exact Hs2]. }
  split; [assumption |]. split; [assumption |].
  split.
  { rewrite K1, K2, Nat.sub_0_r. cbn [skipn].
    rewrite (map_ext (fun p => (deviceX (finish mid1) p, deviceY (finish mid1) p))
               (fun p => (deviceX st p, deviceY st p)))
      by (intros p; now apply device_same).
    rewrite <- map_app. f_equal.
    rewrite (firstn_all2 (n := currentPixel mid2 - currentPixel mid1))
      by (rewrite length_skipn; lia).
    apply firstn_skipn. }
  split; [congruence |].
  apply Hfin. rewrite P2. lia.
Qed.

Lemma stop_then_resume_witness :
  isRunning quick_test = false /\ canvas quick_test = true /\ pixels quick_test <> []
  /\ currentPixel quick_test = 0%nat
  /\ (colorPalette quick_test = [] \/ useAutoPalette quick_test = false)
  /\ exists st1 st2 ev1 ev2,
       start stop_after_first quick_test = Some st1
       /\ resume never st1 = Some st2
       /\ trace st1 = (trace quick_test ++ ev1)%list
       /\ trace st2 = (trace st1 ++ ev2)%list
       /\ (clicks ev1 ++ clicks ev2)%list
          = List.map (fun p => (deviceX quick_test p, deviceY quick_test p))
              (pixels quick_test)
       /\ currentPixel st2 = List.length (pixels quick_test)
       /\ storage st2 = None.
Proof.
  assert (H1 : isRunning quick_test = false) by (vm_compute; reflexivity).
  assert (H2 : canvas quick_test = true) by (vm_compute; reflexivity).
  assert (H3 : pixels quick_test <> []) by (vm_compute; discriminate).
  assert (H4 : currentPixel quick_test = 0%nat) by (vm_compute; reflexivity).
  assert (H5 : colorPalette quick_test = [] \/ useAutoPalette quick_test = false)
    by (left; vm_compute; reflexivity).
  repeat (split; [assumption |]).
  exact (stop_then_resume stop_after_first quick_test H1 H2 H3 H4 H5).
Defined.




(** The quick test stopped after its first click and resumed in a new
    session: the 24 clicks that were left. *)
Example quick_test_resumed :
  option_map currentPixel (start stop_after_first quick_test) = Some 1%nat
  /\ match start stop_after_first quick_test with
     | Some st1 =>
         option_map (fun st2 => List.length (clicks (trace st2)))
           (resume never (reopened true [] st1)) = Some 24%nat
     | None => False
     end.
Proof. split; vm_compute; reflexivity. Qed.

(** ** The order of the queue, at all times *)

Lemma tidy_same (st st' : bot) :
  pixels st' = pixels st -> storage st' = storage st -> tidy st -> tidy st'.
Proof. unfold tidy. intros -> ->. auto. Qed.

Lemma tidy_saveState (st : bot) : tidy st -> tidy (saveState st).
Proof.
  intros [Hs Hk].
  destruct (storage_ok st) eqn:Hok.
  - destruct (saveState_storage st Hok) as (s0 & Hs0 & _ & Hr).
    split; [unfold saveState; now rewrite Hok |].
    intros s E. rewrite Hs0 in E. injection E as <-.
    rewrite Hr, kept_remaining. now apply sorted_firstn, sorted_skipn.
  - unfold saveState. rewrite Hok. now apply (tidy_same st).
Qed.

Lemma tidy_stop (st : bot) : tidy st -> tidy (stop st).
Proof.
  intros Ht. unfold stop.
  set (st1 := if isRunning st then st else say LogNotRunning st).
  assert (H1 : tidy st1) by (subst st1; destruct (isRunning st); now apply (tidy_same st)).
  apply (tidy_same (saveState (set_isRunning false st1))); [reflexivity .. |].
  apply tidy_saveState. now apply (tidy_same st1).
Qed.

Lemma tidy_await (who : user) (k : pause) (ms : Z) (st : bot) :
  tidy st -> tidy (await who k ms st).
Proof.
  intros Ht. unfold await. destruct (who k _).
  - apply tidy_stop. now apply (tidy_same st).
  - now apply (tidy_same st).
Qed.

Lemma tidy_place (who : user) (cx cy : Z) (st : bot) :
  tidy st -> tidy (place who cx cy st).
Proof.
  intros Ht. unfold place. apply tidy_await.
  match goal with |- tidy (if ?c then saveState ?s else _) =>
    assert (H : tidy s); [| destruct c; [now apply tidy_saveState | exact H]]
  end.
  unfold clickCanvas. destruct (canvas st); now apply (tidy_same st).
Qed.

Lemma selectColorSmart_slot {M : Math} (hex : string) (st : bot) :
  storage (snd (selectColorSmart hex st)) = storage st.
Proof.
  unfold selectColorSmart, warn_once.
  destruct (colorPalette st); [reflexivity |].
  destruct (findClosestEntry _ hex false) as [c|]; [| reflexivity].
  destruct (locked c); [| reflexivity].
  destruct (lockedColorMode st); cbn.
  - now destruct (_skipWarned st).
  - destruct (findClosestEntry _ hex true); cbn; [reflexivity |].
    now destruct (_manualWarned st).
  - now destruct (_manualWarned st).
Qed.

Lemma tidy_drawStep {M : Math} (who : user) (W H : Z) (p : task) (st : bot) :
  tidy st -> tidy (drawStep who W H p st).
Proof.
  intros Ht. unfold drawStep.
  destruct (useAutoPalette st); [| now apply tidy_place].
  assert (Hs : tidy (snd (selectColorSmart (pcolor p) st))).
  { apply (tidy_same st); [| apply selectColorSmart_slot | exact Ht].
    destruct (selectColorSmart_proceeds (pcolor p) st) as ((Hsame & _) & _).
    apply Hsame. }
  destruct (selectColorSmart (pcolor p) st) as [[| |] st1]; cbn [snd] in Hs.
  - now apply tidy_place, tidy_await.
  - now apply tidy_place.
  - apply tidy_await. now apply (tidy_same st1).
Qed.

Lemma orderly_drawLoop {M : Math} (who : user) (W H : Z) (fuel : nat) (st st' : bot) :
  canvas st = true -> orderly st ->
  drawLoop fuel who W H st = Some st' -> orderly st'.
Proof.
  revert st. induction fuel as [|fuel IH]; intros st Hcv Ho; cbn [drawLoop].
  - destruct (looping st); [discriminate | now intros [= <-]].
  - destruct (looping st) eqn:Hl; [| now intros [= <-]].
    destruct (nth_error (pixels st) (currentPixel st)) as [p|]; [| discriminate].
    apply IH.
    + destruct (drawStep_proceeds who W H p st Hcv) as ((Hsame & _) & _).
      unfold same_setup in Hsame. intuition congruence.
    + destruct (drawStep_proceeds who W H p st Hcv) as ((Hsame & _) & Hc & _).
      destruct Ho as [_ Ht]. split; [| now apply tidy_drawStep].
      unfold looping in Hl. apply andb_prop in Hl as [_ Hl]. apply Nat.ltb_lt in Hl.
      destruct Hsame as (-> & _). lia.
Qed.

Lemma orderly_start {M : Math} (who : user) (st st' : bot) :
  orderly st -> start who st = Some st' -> orderly st'.
Proof.
  intros Ho. unfold start.
  destruct (isRunning st); [intros [= <-]; exact Ho |].
  destruct (Nat.eqb _ 0); [intros [= <-]; exact Ho |].
  destruct (canvas st) eqn:Hcv; cbn [negb]; [| intros [= <-]; exact Ho].
  destruct (prepare_setup st)
    as (P0 & _ & _ & _ & V0 & _ & _ & _ & _ & _ & _ & S0 & C0 & _).
  destruct (drawLoop _ who _ _ (prepare st)) as [mid|] eqn:Hd; [| discriminate].
  intros [= <-].
  assert (Hp : orderly (prepare st)).
  { destruct Ho as [Hc Ht]. split; [now rewrite P0, C0 | now apply (tidy_same st)]. }
  apply (orderly_drawLoop _ _ _ _ _ _ (eq_trans V0 Hcv) Hp) in Hd as [Hc Ht].
  destruct (finish_outcome mid) as (_ & Pf & Cf & _).
  split; [now rewrite Pf, Cf |].
  unfold finish. cbn [pixels currentPixel set_isRunning].
  destruct (_ <=? _)%nat.
  - split; [exact (proj1 Ht) | discriminate].
  - apply tidy_saveState. now apply (tidy_same mid).
Qed.

Lemma orderly_loadState (st : bot) : orderly st -> orderly (snd (loadState st)).
Proof.
  intros Ho. pose proof Ho as (Hc & Hs & Hk). unfold loadState.
  destruct (storage st) as [[| | | |s]|] eqn:Es; cbn [snd]; try exact Ho.
  destruct (negb (s_version s =? 1)); cbn [snd]; [exact Ho |].
  split; [cbn; lia |]. split; [now apply Hk |]. cbn. now rewrite Es.
Qed.

Lemma orderly_loadImageFromData (d : arg) (name : option string) (st : bot) :
  orderly st -> orderly (snd (loadImageFromData d name st)).
Proof.
  intros Ho. unfold loadImageFromData.
  destruct d as [|items]; [exact Ho |].
  destruct (normalize_all items) as [e|norm]; [exact Ho |].
  cbn [snd].
  assert (Hq : StronglySorted yx_lt (dedup norm)) by apply dedup_spec.
  destruct Ho as (_ & _ & Hk).
  match goal with |- orderly (if _ then saveState ?s else _) =>
    assert (Hs : orderly s) by (split; [cbn; lia | split; [exact Hq | exact Hk]])
  end.
  destruct (_ <=? _)%nat; [| exact Hs].
  destruct Hs as [Hc Ht]. split; [| now apply tidy_saveState].
  unfold saveState. destruct (storage_ok _); exact Hc.
Qed.

Lemma orderly_saveState (st : bot) : orderly st -> orderly (saveState st).
Proof.
  intros [Hc Ht]. split; [| now apply tidy_saveState].
  unfold saveState. destruct (storage_ok st); exact Hc.
Qed.


(** X11.  A new object on an empty store is orderly: its queue is strictly
    ascending by [(y, x)], so without two tasks on one cell, the tasks of
    its checkpoint are so too, and the cursor is within the queue.
    Every method keeps a session orderly: loading data or a decoded
    image (accepted or not), saving, loading and clearing the
    checkpoint, the setters and calibrations, [stop], and whole runs of
    [start] and [resume] however the user stops them. *)
Theorem orderly_kept {M : Math} (st : bot) :
  orderly (new_bot true []) /\
  (orderly st ->
   (forall d name, orderly (snd (loadImageFromData d name st)))
   /\ (forall w h data name r,
         _loadImageViaTag w h data name st = Some r -> orderly (snd r))
   /\ orderly (saveState st) /\ orderly (snd (loadState st)) /\ orderly (clearState st)
   /\ orderly (stop st)
   /\ (forall x y, orderly (setStartPosition x y st))
   /\ (forall ms, orderly (setDelay ms st))
   /\ (forall w h, orderly (setCellSize w h st))
   /\ (forall a c, orderly (calibrate a c st) /\ orderly (calibrateY a c st))
   /\ (forall m, orderly (setLockedColorMode m st))
   /\ (forall on, orderly (setManualColorMode on st))
   /\ (forall who st', start who st = Some st' -> orderly st')
   /\ (forall who st', resume who st = Some st' -> orderly st')).
Proof.
  split.
  { split; [cbn; lia |]. split; [constructor | discriminate]. }
  intros Ho.
  assert (Hsame : forall st', pixels st' = pixels st -> currentPixel st' = currentPixel st ->
                    storage st' = storage st -> orderly st').
  { intros st' E1 E2 E3. destruct Ho as [Hc Ht].
    split; [now rewrite E1, E2 | now apply (tidy_same st)]. }
  assert (Hsave : forall st', pixels st' = pixels st -> currentPixel st' = currentPixel st ->
                    storage st' = storage st -> orderly (saveState st')).
  { intros. now apply orderly_saveState, Hsame. }
  split; [intros; now apply orderly_loadImageFromData |].
  split.
  { intros w h data name r. unfold _loadImageViaTag.
    destruct (readPixels w h data) as [items|]; [| discriminate].
    intros E. injection E as <-.
    exact (orderly_loadImageFromData (Array items) name st Ho). }
  split; [now apply orderly_saveState |].
  split; [now apply orderly_loadState |].
  split.
  { destruct Ho as (Hc & Hs & _). split; [exact Hc | split; [exact Hs | discriminate]]. }
  split.
  { destruct Ho as [Hc Ht]. split; [| now apply tidy_stop].
    destruct (stop_proceeds st) as ((Hsm & _) & -> & _). destruct Hsm as (-> & _).
    exact Hc. }
  split; [intros; now apply Hsave |].
  split; [intros; now apply Hsave |].
  split.
  { intros w h. unfold setCellSize.
    destruct (positive_number w), (positive_number h);
      first [now apply Hsave | now apply Hsame]. }
  split.
  { intros a c. unfold calibrate, calibrateY.
    split; destruct (Qle_bool 1 _); first [now apply Hsave | now apply Hsame]. }
  split.
  { intros m. unfold setLockedColorMode. destruct (mode_named _); now apply Hsame. }
  split; [intros; now apply Hsame |].
  split; [intros who st'; now apply orderly_start |].
  intros who st'. unfold resume.
  destruct (Nat.eqb _ 0); [| now apply orderly_start].
  pose proof (orderly_loadState st Ho) as Hl.
  destruct (loadState st) as [[|] st1]; cbn [snd] in Hl.
  - now apply orderly_start.
  - intros [= <-]. destruct Hl as [Hc Ht].
    split; [exact Hc | now apply (tidy_same st1)].
Qed.

Lemma orderly_kept_witness :
  orderly sample_loaded
  /\ forall who st', start who sample_loaded = Some st' -> orderly st'.
Proof.
  assert (Ho : orderly sample_loaded).
  { destruct (orderly_kept (new_bot true [])) as (H0 & H1).
    apply (proj1 (H1 H0) (Array sample_batch) None). }
  split; [exact Ho |].
  destruct (orderly_kept sample_loaded) as (_ & H1).
  destruct (H1 Ho) as (_ & _ & _ & _ & _ & _ & _ & _ & _ & _ & _ & _ & Hstart & _).
  exact Hstart.
Defined.

(** ** Input that is already a queue *)

Lemma map_set_fresh (k : key) (v : task) (m : list (key * task)) :
  ~ In k (List.map fst m) -> map_set k v m = (m ++ [(k, v)])%list.
Proof.
  induction m as [|[k0 v0] m IH]; cbn; intros Hn; [reflexivity |].
  destruct (key_eqb k k0) eqn:E.
  - apply key_eqb_eq in E. subst. elim Hn. now left.
  - rewrite IH; [reflexivity |]. intros H. apply Hn. now right.
Qed.

Lemma map_set_length (k : key) (v : task) (m : list (key * task)) :
  (List.length (map_set k v m) <= S (List.length m))%nat.
Proof.
  induction m as [|[k0 v0] m IH]; cbn; [lia |].
  destruct (key_eqb k k0); cbn; lia.
Qed.

Lemma cells_length (norm : list task) :
  (List.length (cells norm) <= List.length norm)%nat.
Proof.
  unfold cells. induction norm as [|p norm IH] using rev_ind; [cbn; lia |].
  rewrite fold_left_app, length_app. cbn [fold_left List.length].
  pose proof (map_set_length (key_of p) p
                (fold_left (fun m q => map_set (key_of q) q m) norm [])). lia.
Qed.

Lemma cells_distinct (norm : list task) :
  NoDup (List.map key_of norm) ->
  cells norm = List.map (fun p => (key_of p, p)) norm.
Proof.
  unfold cells. induction norm as [|p norm IH] using rev_ind; [reflexivity |].
  rewrite map_app. intros Hnd. apply NoDup_remove in Hnd. cbn in Hnd.
  rewrite app_nil_r in Hnd. destruct Hnd as [Hnd Hnotin].
  rewrite fold_left_app, map_app. cbn [fold_left List.map].
  rewrite (IH Hnd), map_set_fresh; [reflexivity |].
  rewrite map_map. cbn. exact Hnotin.
Qed.

Lemma yx_lt_keys (a c : task) : yx_lt a c -> key_of a <> key_of c.
Proof. unfold yx_lt, key_of. intros H [= E1 E2]. lia. Qed.

Lemma sorted_distinct (l : list task) :
  StronglySorted yx_lt l -> NoDup (List.map key_of l).
Proof.
  induction 1 as [|a l Hs IH Hall]; cbn; constructor; [| exact IH].
  rewrite in_map_iff. intros (c & E & Hin).
  rewrite Forall_forall in Hall. apply (yx_lt_keys a c); auto.
Qed.

Lemma sort_tasks_sorted_id (l : list task) :
  StronglySorted yx_lt l -> sort_tasks l = l.
Proof.
  induction 1 as [|a l Hs IH Hall]; [reflexivity |].
  change (sort_tasks (a :: l)) with (insert_task a (sort_tasks l)).
  rewrite IH. destruct l as [|h t]; [reflexivity |]. cbn [insert_task].
  assert (Hle : yx_le a h).
  { inversion Hall as [|? ? Hah _]; subst. unfold yx_lt, yx_le in *. lia. }
  apply compare_tasks_le in Hle. now rewrite Hle.
Qed.

Lemma dedup_sorted_id (norm : list task) :
  StronglySorted yx_lt norm -> dedup norm = norm.
Proof.
  intros Hs. change (dedup norm) with (sort_tasks (map_values (cells norm))).
  rewrite cells_distinct by now apply sorted_distinct.
  unfold map_values. rewrite map_map. cbn. rewrite map_id.
  now apply sort_tasks_sorted_id.
Qed.

(** X12.  Loading never makes the queue longer than the input.  Input
    whose normalized items are already in queue order, each cell once,
    is installed as it stands; so loading what is already a queue (the
    tasks of a checkpoint, say) changes nothing, and normalizing twice
    is normalizing once. *)
Theorem load_of_sorted (items : list raw) (name : option string) (st : bot)
    (norm : list task) :
  normalize_all items = inr norm ->
  (List.length (pixels (snd (loadImageFromData (Array items) name st)))
   <= List.length items)%nat
  /\ dedup (dedup norm) = dedup norm
  /\ (StronglySorted yx_lt norm ->
      pixels (snd (loadImageFromData (Array items) name st)) = norm).
Proof.
  intros Hn.
  assert (Hp : pixels (snd (loadImageFromData (Array items) name st)) = dedup norm).
  { destruct (loadImageFromData (Array items) name st) as [r st'] eqn:E.
    unfold loadImageFromData in E. rewrite Hn in E. injection E as <- <-.
    destruct (_ <=? _)%nat; [| reflexivity].
    unfold saveState. destruct (storage_ok _); reflexivity. }
  rewrite Hp. split; [| split].
  - apply normalize_all_inr in Hn. apply Forall2_length in Hn. rewrite Hn.
    change (dedup norm) with (sort_tasks (map_values (cells norm))).
    rewrite <- (Permutation_length (sort_tasks_perm _)).
    unfold map_values. rewrite length_map. apply cells_length.
  - apply dedup_sorted_id, dedup_spec.
  - apply dedup_sorted_id.
Qed.

Lemma load_of_sorted_witness :
  normalize_all [item_at 0 0 "#ff0000"; item_at 1 0 "#00ff00"; item_at 0 1 "#0000ff"]
  = inr [ {| px := 0; py := 0; pcolor := "#ff0000" |};
          {| px := 1; py := 0; pcolor := "#00ff00" |};
          {| px := 0; py := 1; pcolor := "#0000ff" |} ]
  /\ pixels (snd (loadImageFromData
                    (Array [item_at 0 0 "#ff0000"; item_at 1 0 "#00ff00";
                            item_at 0 1 "#0000ff"]) None (new_bot true [])))
     = [ {| px := 0; py := 0; pcolor := "#ff0000" |};
         {| px := 1; py := 0; pcolor := "#00ff00" |};
         {| px := 0; py := 1; pcolor := "#0000ff" |} ].
Proof.
  assert (Hn : normalize_all
                 [item_at 0 0 "#ff0000"; item_at 1 0 "#00ff00"; item_at 0 1 "#0000ff"]
               = inr [ {| px := 0; py := 0; pcolor := "#ff0000" |};
                       {| px := 1; py := 0; pcolor := "#00ff00" |};
                       {| px := 0; py := 1; pcolor := "#0000ff" |} ])
    by (vm_compute; reflexivity).
  split; [exact Hn |].
  apply (proj2 (proj2 (load_of_sorted _ None (new_bot true []) _ Hn))).
  repeat constructor; unfold yx_lt; cbn; lia.
Defined.

(** ** Ties between palette entries *)

(** X13.  Of the entries it ranks, [findClosestEntry] returns the first
    whose computed distance is least: that distance is strictly below
    the computed distance of every ranked entry before it in the
    palette, and not above that of any ranked entry after it.  With an
    engine that orders the distances of byte colours, on a palette of
    byte colours, the entry returned is a nearest one by the exact
    Euclidean distance, and every ranked entry before it is farther by
    the exact distance or as far. *)
Theorem findClosestEntry_first {M : Math} (palette : list entry) (hex : string) (u : bool)
    (e : entry) :
  findClosestEntry palette hex u = Some e ->
  (exists l1 l2 d,
     palette = (l1 ++ e :: l2)%list
     /\ measured (target_of hex) e = Some d
     /\ (forall e' d', In e' l1 -> candidate u e' = true ->
                       measured (target_of hex) e' = Some d' -> (d < d')%Q)
     /\ (forall e' d', In e' l2 -> candidate u e' = true ->
                       measured (target_of hex) e' = Some d' -> (d <= d')%Q))
  /\ (orders M -> byte_palette palette -> nearest u palette (target_of hex) e).
Proof.
  intros He. split.
  - pose proof He as He'.
    apply findClosestEntry_some in He' as (_ & _ & d & Hd & Hmin).
    unfold findClosestEntry in He. fold (target_of hex) in He.
    pose proof (scan_first_spec (target_of hex) u palette) as Hf.
    pose proof (scan_spec (target_of hex) u palette) as Hi.
    destruct (fold_left _ palette _) as [[b0|] [d0|]]; cbn in He, Hf, Hi;
      try contradiction; try discriminate.
    injection He as ->.
    destruct Hi as (_ & _ & Hd0 & _). rewrite Hd in Hd0. injection Hd0 as <-.
    destruct Hf as (l1 & l2 & -> & Hl1).
    exists l1, l2, d. split; [reflexivity |]. split; [assumption |].
    split; [exact Hl1 |].
    intros e' d' Hin. apply Hmin. apply in_or_app. right. now right.
  - intros Ho Hb. now apply findClosestEntry_exact.
Qed.

Lemma findClosestEntry_first_witness :
  findClosestEntry
    [ {| element := 1; color := "rgb(0, 0, 3)"; locked := false |};
      {| element := 2; color := "rgb(3, 0, 0)"; locked := false |} ] "#000000" false
  = Some {| element := 1; color := "rgb(0, 0, 3)"; locked := false |}
  /\ (exists l1 l2 d,
       [ {| element := 1; color := "rgb(0, 0, 3)"; locked := false |};
         {| element := 2; color := "rgb(3, 0, 0)"; locked := false |} ]
       = (l1 ++ {| element := 1; color := "rgb(0, 0, 3)"; locked := false |} :: l2)%list
       /\ measured (target_of "#000000")
            {| element := 1; color := "rgb(0, 0, 3)"; locked := false |} = Some d)
  /\ (orders root_math ->
      byte_palette
        [ {| element := 1; color := "rgb(0, 0, 3)"; locked := false |};
          {| element := 2; color := "rgb(3, 0, 0)"; locked := false |} ] ->
      nearest false
        [ {| element := 1; color := "rgb(0, 0, 3)"; locked := false |};
          {| element := 2; color := "rgb(3, 0, 0)"; locked := false |} ]
        (target_of "#000000")
        {| element := 1; color := "rgb(0, 0, 3)"; locked := false |}).
Proof.
  assert (H : findClosestEntry
    [ {| element := 1; color := "rgb(0, 0, 3)"; locked := false |};
      {| element := 2; color := "rgb(3, 0, 0)"; locked := false |} ] "#000000" false
    = Some {| element := 1; color := "rgb(0, 0, 3)"; locked := false |})
    by (vm_compute; reflexivity).
  split; [exact H |].
  destruct (findClosestEntry_first _ _ _ _ H) as ((l1 & l2 & d & H1 & H2 & _) & H3).
  split; [| exact H3].
  exists l1, l2, d. split; assumption.
Defined.

(** ** Images read from the page *)

Lemma byte_hex_hex2 (v : Z) : 0 <= v <= 255 -> byte_hex v = hex2 v.
Proof.
  intros Hv.
  assert (H : forallb (fun n => String.eqb (byte_hex (Z.of_nat n)) (hex2 (Z.of_nat n)))
                (seq 0 256) = true) by (vm_compute; reflexivity).
  rewrite forallb_forall in H.
  specialize (H (Z.to_nat v)). rewrite Z2Nat.id in H by lia.
  apply String.eqb_eq, H, in_seq. lia.
Qed.

Lemma hex_digit_not_space (c : ascii) :
  Js.is_hex_digit c = true -> Js.is_space c = false.
Proof.
  unfold Js.is_hex_digit, Js.is_digit, Js.is_space. intros H.
  destruct (Z.leb_spec 48 (Js.code c)), (Z.leb_spec (Js.code c) 57),
    (Z.leb_spec 97 (Js.code c)), (Z.leb_spec (Js.code c) 102),
    (Z.leb_spec 65 (Js.code c)), (Z.leb_spec (Js.code c) 70),
    (Z.leb_spec 9 (Js.code c)), (Z.leb_spec (Js.code c) 13),
    (Z.eqb_spec (Js.code c) 32); cbn in *; try reflexivity; try discriminate; lia.
Qed.

Lemma trim_end_hex (s : string) :
  Js.all_chars Js.is_hex_digit s = true -> Js.trim_end s = s.
Proof.
  induction s as [|c s IH]; [reflexivity |].
  cbn [Js.all_chars Js.trim_end]. intros H. apply andb_prop in H as [Hc Hs].
  rewrite (IH Hs). destruct s; [| reflexivity].
  now rewrite (hex_digit_not_space c Hc).
Qed.

(** A colour of the form [#RRGGBB] has nothing to trim. *)
Lemma trim_hex6 (c : string) : is_hex6 c = true -> Js.trim c = c.
Proof.
  unfold is_hex6. destruct c as [|a body]; [discriminate |].
  destruct (Ascii.eqb_spec a "#"%char) as [-> | Hne].
  - intros H. apply andb_prop in H as [Hlen Hall].
    unfold Js.trim. change (Js.trim_start (String "#" body)) with (String "#"%char body).
    cbn [Js.trim_end]. rewrite (trim_end_hex body Hall).
    destruct body; [discriminate | reflexivity].
  - intros H. exfalso.
    destruct a as [[] [] [] [] [] [] [] []]; try discriminate; now apply Hne.
Qed.

Lemma normalize_color_hex6 (c : string) :
  is_hex6 c = true -> normalize_color c = inr c.
Proof.
  intros H. unfold normalize_color. rewrite (trim_hex6 c H), H. reflexivity.
Qed.

Lemma floor_coord_nat (n : nat) :
  floor_coord (Fin (inject_Z (Z.of_nat n))) = Some (Z.of_nat n).
Proof.
  unfold floor_coord. rewrite Qfloor_Z.
  destruct (Z.ltb_spec (Z.of_nat n) 0); [lia | reflexivity].
Qed.

Lemma normalize_all_app (l1 l2 : list raw) (n1 n2 : list task) :
  normalize_all l1 = inr n1 -> normalize_all l2 = inr n2 ->
  normalize_all (l1 ++ l2) = inr (n1 ++ n2)%list.
Proof.
  revert n1. induction l1 as [|p l1 IH]; intros n1 H1 H2.
  - injection H1 as <-. exact H2.
  - cbn in *. destruct (normalize p) as [e|t]; [discriminate |].
    destruct (normalize_all l1) as [e|m1]; [discriminate |].
    injection H1 as <-. now rewrite (IH m1 eq_refl H2).
Qed.

Section Image.

Variables (w h : nat) (data : list Z).
Hypothesis Hlen : List.length data = (w * h * 4)%nat.
Hypothesis Hbytes : Forall (fun v => 0 <= v <= 255) data.

Lemma data_at (i : nat) :
  (i < w * h * 4)%nat ->
  nth_error data i = Some (nth i data 0) /\ 0 <= nth i data 0 <= 255.
Proof.
  intros Hi. rewrite <- Hlen in Hi. split.
  - now apply nth_error_nth'.
  - rewrite Forall_forall in Hbytes. apply Hbytes. now apply nth_In.
Qed.

Lemma pixel_at_visible (x y : nat) :
  (x < w)%nat -> (y < h)%nat ->
  exists l, pixel_at w data x y = Some l
    /\ normalize_all l = inr (visible w data x y).
Proof.
  intros Hx Hy.
  assert (Hi : ((y * w + x) * 4 + 3 < w * h * 4)%nat) by nia.
  unfold pixel_at, visible.
  set (i := ((y * w + x) * 4)%nat) in *.
  destruct (data_at (i + 3)) as [-> _]; [lia |].
  destruct (nth (i + 3) data 0 <? 128); [now exists [] |].
  destruct (data_at i) as [-> Hr]; [lia |].
  destruct (data_at (i + 1)) as [-> Hg]; [lia |].
  destruct (data_at (i + 2)) as [-> Hb]; [lia |].
  eexists. split; [reflexivity |].
  rewrite !byte_hex_hex2 by assumption.
  cbn [normalize_all normalize].
  rewrite normalize_color_hex6 by (apply hexToRgb_hex2; lia).
  now rewrite !floor_coord_nat.
Qed.

Lemma collect_row (y : nat) (xs : list nat) :
  (y < h)%nat -> Forall (fun x => (x < w)%nat) xs ->
  exists l, collect (List.map (fun x => pixel_at w data x y) xs) = Some l
    /\ normalize_all l = inr (flat_map (fun x => visible w data x y) xs).
Proof.
  intros Hy. induction 1 as [|x xs Hx _ IH]; [now exists [] |].
  destruct IH as (l' & Hc & Hn).
  destruct (pixel_at_visible x y Hx Hy) as (l & Hp & Hl).
  exists (l ++ l')%list. cbn [List.map collect flat_map]. rewrite Hp, Hc.
  split; [reflexivity | now apply normalize_all_app].
Qed.

Lemma collect_app (a c : list (option (list raw))) (la lc : list raw) :
  collect a = Some la -> collect c = Some lc ->
  collect (a ++ c) = Some (la ++ lc)%list.
Proof.
  revert la. induction a as [|[l|] a IH]; intros la Ha Hc; cbn in *.
  - now injection Ha as <-.
  - destruct (collect a) as [l'|]; [| discriminate].
    injection Ha as <-. rewrite (IH l' eq_refl Hc). now rewrite app_assoc.
  - discriminate.
Qed.

Lemma collect_rows (ys : list nat) :
  Forall (fun y => (y < h)%nat) ys ->
  exists l,
    collect (flat_map (fun y => List.map (fun x => pixel_at w data x y) (seq 0 w)) ys)
    = Some l
    /\ normalize_all l
       = inr (flat_map (fun y => flat_map (fun x => visible w data x y) (seq 0 w)) ys).
Proof.
  induction 1 as [|y ys Hy _ IH]; [now exists [] |].
  destruct IH as (l' & Hc & Hn).
  destruct (collect_row y (seq 0 w) Hy) as (l & Hr & Hl).
  { apply Forall_forall. intros x Hx. apply in_seq in Hx. lia. }
  exists (l ++ l')%list. cbn [flat_map].
  split; [now apply collect_app | now apply normalize_all_app].
Qed.

Lemma readPixels_picture :
  exists items, readPixels w h data = Some items
    /\ normalize_all items = inr (picture w h data).
Proof.
  apply collect_rows, Forall_forall. intros y Hy. apply in_seq in Hy. lia.
Qed.

End Image.

Lemma visible_at (w : nat) (data : list Z) (x y : nat) (p : task) :
  In p (visible w data x y) ->
  px p = Z.of_nat x /\ py p = Z.of_nat y
  /\ 128 <= nth ((y * w + x) * 4 + 3) data 0
  /\ pcolor p = String "#"%char
                  (hex2 (nth ((y * w + x) * 4) data 0)
                   ++ hex2 (nth ((y * w + x) * 4 + 1) data 0)
                   ++ hex2 (nth ((y * w + x) * 4 + 2) data 0)).
Proof.
  unfold visible. destruct (Z.ltb_spec (nth ((y * w + x) * 4 + 3) data 0) 128);
    [intros [] |].
  intros [<- | []]. cbn. auto.
Qed.

Lemma sorted_app (l1 l2 : list task) :
  StronglySorted yx_lt l1 -> StronglySorted yx_lt l2 ->
  (forall a c, In a l1 -> In c l2 -> yx_lt a c) ->
  StronglySorted yx_lt (l1 ++ l2).
Proof.
  induction 1 as [|a l1 Hs IH Ha]; intros H2 Hx; [exact H2 |].
  cbn. constructor.
  - apply IH; [exact H2 |]. intros a' c Ha' Hc. apply Hx; [now right | exact Hc].
  - apply Forall_app. split; [exact Ha |].
    apply Forall_forall. intros c Hc. apply Hx; [now left | exact Hc].
Qed.

Lemma visible_sorted (w : nat) (data : list Z) (x y : nat) :
  StronglySorted yx_lt (visible w data x y).
Proof.
  unfold visible. destruct (_ <? _); repeat constructor.
Qed.

Lemma row_sorted (w : nat) (data : list Z) (y : nat) (n a : nat) :
  StronglySorted yx_lt (flat_map (fun x => visible w data x y) (seq a n)).
Proof.
  revert a. induction n as [|n IH]; intros a; [constructor |].
  cbn [seq flat_map]. apply sorted_app; [apply visible_sorted | apply IH |].
  intros p q Hp Hq. apply visible_at in Hp as (Hpx & Hpy & _).
  apply in_flat_map in Hq as (x & Hx & Hq). apply in_seq in Hx.
  apply visible_at in Hq as (Hqx & Hqy & _).
  right. lia.
Qed.

Lemma rows_sorted (w : nat) (data : list Z) (xs : list nat) (n a : nat) :
  (forall y, StronglySorted yx_lt (flat_map (fun x => visible w data x y) xs)) ->
  StronglySorted yx_lt
    (flat_map (fun y => flat_map (fun x => visible w data x y) xs) (seq a n)).
Proof.
  intros Hrow. revert a. induction n as [|n IH]; intros a; [constructor |].
  cbn [seq flat_map]. apply sorted_app; [apply Hrow | apply IH |].
  intros p q Hp Hq.
  apply in_flat_map in Hp as (x & _ & Hp). apply visible_at in Hp as (_ & Hpy & _).
  apply in_flat_map in Hq as (y & Hy & Hq). apply in_seq in Hy.
  apply in_flat_map in Hq as (x' & _ & Hq). apply visible_at in Hq as (_ & Hqy & _).
  left. lia.
Qed.

Lemma picture_sorted (w h : nat) (data : list Z) :
  StronglySorted yx_lt (picture w h data).
Proof.
  apply rows_sorted. intros y. apply row_sorted.
Qed.

Lemma loadImageFromData_accepts (items : list raw) (norm : list task)
    (name : option string) (st : bot) :
  normalize_all items = inr norm ->
  fst (loadImageFromData (Array items) name st) = true
  /\ pixels (snd (loadImageFromData (Array items) name st)) = dedup norm
  /\ currentPixel (snd (loadImageFromData (Array items) name st)) = 0%nat.
Proof.
  intros Hn. unfold loadImageFromData. rewrite Hn. cbn [fst snd].
  split; [reflexivity |].
  destruct (_ <=? _)%nat; [| now split].
  unfold saveState. destruct (storage_ok _); now split.
Qed.

(** X14.  For the bytes that the page hands back for a [w] by [h] image
    (four bytes in 0..255 per pixel), reading the image never throws and
    never fails the validation of [loadImageFromData]: the queue
    installed is exactly the pixels with alpha at least 128, row by row
    from the top and left to right within a row, the cursor is at 0, and
    the colour of every task reads back, by [hexToRgb], as the three
    colour bytes of its pixel. *)
Theorem image_queue (w h : nat) (data : list Z) (name : option string) (st : bot) :
  List.length data = (w * h * 4)%nat ->
  Forall (fun v => 0 <= v <= 255) data ->
  exists st',
    _loadImageViaTag w h data name st = Some (true, st')
    /\ pixels st' = picture w h data
    /\ currentPixel st' = 0%nat
    /\ StronglySorted yx_lt (pixels st')
    /\ forall p, In p (pixels st') ->
         exists x y,
           (x < w)%nat /\ (y < h)%nat
           /\ px p = Z.of_nat x /\ py p = Z.of_nat y
           /\ 128 <= nth ((y * w + x) * 4 + 3) data 0
           /\ hexToRgb (pcolor p)
              = Some {| r := nth ((y * w + x) * 4) data 0;
                        g := nth ((y * w + x) * 4 + 1) data 0;
                        b := nth ((y * w + x) * 4 + 2) data 0 |}.
Proof.
  intros Hlen Hbytes.
  destruct (readPixels_picture w h data Hlen Hbytes) as (items & Hr & Hn).
  destruct (loadImageFromData_accepts items _ name st Hn) as (_ & Hp & Hc).
  rewrite (dedup_sorted_id _ (picture_sorted w h data)) in Hp.
  exists (snd (loadImageFromData (Array items) name st)).
  split; [unfold _loadImageViaTag; now rewrite Hr |].
  split; [exact Hp |]. split; [exact Hc |].
  rewrite Hp. split; [apply picture_sorted |].
  intros p Hin. unfold picture in Hin.
  apply in_flat_map in Hin as (y & Hy & Hin). apply in_seq in Hy.
  apply in_flat_map in Hin as (x & Hx & Hin). apply in_seq in Hx.
  apply visible_at in Hin as (Hpx & Hpy & Ha & Hcol).
  exists x, y. repeat (split; [first [lia | assumption] |]).
  assert (Hi : ((y * w + x) * 4 + 3 < w * h * 4)%nat) by nia.
  rewrite Hcol.
  apply hexToRgb_hex2;
    match goal with
    | |- 0 <= nth ?i data 0 < 256 =>
        destruct (data_at w h data Hlen Hbytes i) as [_ ?]; lia
    end.
Qed.

(** A 2 by 1 image: a red pixel, then a transparent one. *)
Lemma image_queue_witness :
  exists st',
    _loadImageViaTag 2 1 [255; 0; 0; 255; 0; 0; 0; 0] None (new_bot true [])
    = Some (true, st')
    /\ pixels st' = [ {| px := 0; py := 0; pcolor := "#ff0000" |} ].
Proof.
  destruct (image_queue 2 1 [255; 0; 0; 255; 0; 0; 0; 0] None (new_bot true []))
    as (st' & H1 & H2 & _).
  - reflexivity.
  - repeat constructor; lia.
  - exists st'. split; [exact H1 |]. rewrite H2. vm_compute. reflexivity.
Defined.

(** ** The earlier release against the later one *)

Lemma nearer_closer {M : Math} (target : rgb) (first : entry) (l : list entry) :
  forall old new, paired first old new ->
    paired first (fold_left (Kuro.nearer target) l old)
                 (fold_left (closer target false) l new).
Proof.
  induction l as [|e l IH]; intros old new H; [exact H |].
  cbn [fold_left]. apply IH.
  destruct old as [b1 d1], new as [b2 d2]. destruct H as [Hd Hb]. cbn in Hd, Hb.
  subst d1. unfold Kuro.nearer, closer. cbn [andb snd].
  destruct (rgbStringToObject (color e)) as [c|]; [| now split].
  destruct d2 as [d|]; [| now split].
  unfold _dist. destruct (below _ _); now split.
Qed.

Lemma findClosestColor_later {M : Math} (palette : list entry) (hex : string) :
  Kuro.findClosestColor palette hex
  = match findClosestEntry palette hex false with
    | Some e => Some e
    | None => hd_error palette
    end.
Proof.
  destruct palette as [|first rest]; [reflexivity |].
  unfold Kuro.findClosestColor, findClosestEntry.
  set (target := match hexToRgb hex with Some t => t | None => black end).
  pose proof (nearer_closer target first (first :: rest)
                (Some first, None) (None, None)) as P.
  pose proof (scan_spec target false (first :: rest)) as S.
  destruct P as [Hd Hb]; [now split |].
  destruct (fold_left (Kuro.nearer target) _ _) as [b1 d1].
  destruct (fold_left (closer target false) _ _) as [b2 d2].
  cbn in *. subst d1. destruct d2 as [d|].
  - subst b1. destruct b2; [reflexivity | contradiction].
  - destruct Hb as [-> ->]. reflexivity.
Qed.

Lemma findClosestColor_none {M : Math} (palette : list entry) (hex : string) :
  Kuro.findClosestColor palette hex = None <-> palette = [].
Proof.
  rewrite findClosestColor_later. destruct palette as [|first rest].
  - split; reflexivity.
  - destruct (findClosestEntry _ _ _); split; discriminate.
Qed.

(** X15.  The palette scan of release 1.3.0 returns the entry that the
    scan of release 1.5.0 returns when locked entries are not left out;
    where the later scan finds none (no colour of the palette parses),
    the earlier one falls back on the first entry of the palette.  So
    the earlier [selectColor] clicks a swatch whenever the palette is
    not empty. *)
Theorem findClosestColor_versions {M : Math} (palette : list entry) (hex : string) (st : bot) :
  Kuro.findClosestColor palette hex
  = match findClosestEntry palette hex false with
    | Some e => Some e
    | None => hd_error palette
    end
  /\ (Kuro.findClosestColor palette hex = None <-> palette = [])
  /\ fst (Kuro.selectColor hex st)
     = negb (Nat.eqb (List.length (colorPalette st)) 0).
Proof.
  split; [apply findClosestColor_later |]. split; [apply findClosestColor_none |].
  unfold Kuro.selectColor.
  destruct (Kuro.findClosestColor (colorPalette st) hex) eqn:E.
  - destruct (colorPalette st); [| reflexivity].
    discriminate E.
  - apply findClosestColor_none in E. now rewrite E.
Qed.

Lemma findClosestColor_versions_witness :
  Kuro.findClosestColor [] "#000000" = None.
Proof.
  exact (proj2 (proj1 (proj2 (findClosestColor_versions [] "#000000" (new_bot true []))))
           eq_refl).
Defined.

Lemma kuro_kept (l : list task) (c : nat) :
  firstn (Nat.min largeSaveCap (List.length l)) (skipn c l)
  = (if (largeSaveCap <? List.length (skipn c l))%nat
     then firstn largeSaveCap (skipn c l) else skipn c l).
Proof.
  pose proof (length_skipn c l) as Hs.
  destruct (Nat.ltb_spec largeSaveCap (List.length (skipn c l))) as [Hlt|Hge].
  - f_equal. lia.
  - apply firstn_all2. lia.
Qed.

(** X16.  In release 1.3.0 the light save writes the very checkpoint the
    full save writes, whatever the cursor and the length of the queue.
    Both releases share one slot: a checkpoint of the earlier release,
    read by the later one, restores queue, position, delay and image
    name and leaves the reader's cell size alone; a checkpoint of the
    later release, read by the earlier one, restores the same and leaves
    the cell size of the reader alone too. *)
Theorem checkpoint_across_versions (st loader : bot) :
  Kuro.saveStateLight st = Kuro.saveState st
  /\ (storage_ok st = true ->
      (storage loader = storage (Kuro.saveState st) ->
       exists st', loadState loader = (true, st')
         /\ pixels st' = firstn largeSaveCap (skipn (currentPixel st) (pixels st))
         /\ currentPixel st' = 0%nat
         /\ startX st' = startX st /\ startY st' = startY st /\ delay st' = delay st
         /\ cellW st' = cellW loader /\ cellH st' = cellH loader)
      /\ (storage loader = storage (saveState st) ->
          exists st', Kuro.loadState loader = (true, st')
            /\ pixels st' = firstn largeSaveCap (skipn (currentPixel st) (pixels st))
            /\ currentPixel st' = 0%nat
            /\ startX st' = startX st /\ startY st' = startY st /\ delay st' = delay st
            /\ cellW st' = cellW loader /\ cellH st' = cellH loader)).
Proof.
  split.
  - unfold Kuro.saveStateLight, Kuro.saveState. now rewrite kuro_kept.
  - intros Hok. split; intros Hs.
    + unfold Kuro.saveState in Hs. rewrite Hok, kept_remaining in Hs. cbn in Hs.
      unfold loadState. rewrite Hs. cbn. eexists. split; [reflexivity |].
      cbn. repeat split.
    + unfold saveState in Hs. rewrite Hok, kept_remaining in Hs. cbn in Hs.
      unfold Kuro.loadState. rewrite Hs. cbn. eexists. split; [reflexivity |].
      cbn. repeat split.
Qed.

Lemma checkpoint_across_versions_witness :
  exists st',
    loadState
      (reopened true []
         (Kuro.saveState
            (set_pixels [ {| px := 3; py := 4; pcolor := "#00ff00" |} ] (new_bot true []))))
    = (true, st')
    /\ pixels st' = [ {| px := 3; py := 4; pcolor := "#00ff00" |} ].
Proof.
  destruct (proj1 (proj2 (checkpoint_across_versions
                            (set_pixels [ {| px := 3; py := 4; pcolor := "#00ff00" |} ]
                               (new_bot true []))
                            (reopened true []
                               (Kuro.saveState
                                  (set_pixels [ {| px := 3; py := 4; pcolor := "#00ff00" |} ]
                                     (new_bot true [])))))
                     eq_refl) eq_refl)
    as (st' & H1 & H2 & _).
  exists st'. split; [exact H1 |]. rewrite H2. reflexivity.
Defined.

(** ** A colour matrix, release 1.3.0 *)

Lemma cell_of_task (flat : list string) (width x y : nat) :
  (x < width)%nat ->
  Kuro.cell_of flat width x y
  = if (y * width + x <? List.length flat)%nat
    then [cell_task flat width (y * width + x)] else [].
Proof.
  intros Hx. unfold Kuro.cell_of.
  destruct (Nat.ltb_spec (y * width + x) (List.length flat)) as [Hlt|Hge].
  - rewrite (nth_error_nth' flat "" Hlt). unfold cell_task.
    rewrite Nat.add_comm, Nat.Div0.mod_add, Nat.div_add by lia.
    rewrite Nat.mod_small, Nat.div_small by assumption.
    reflexivity.
  - apply nth_error_None in Hge. now rewrite Hge.
Qed.

Lemma matrix_row (flat : list string) (width y n a : nat) :
  (a + n <= width)%nat ->
  flat_map (fun x => Kuro.cell_of flat width x y) (seq a n)
  = List.map (cell_task flat width)
      (seq (y * width + a) (Nat.min n (List.length flat - (y * width + a)))).
Proof.
  revert a. induction n as [|n IH]; intros a Ha; [reflexivity |].
  cbn [seq flat_map]. rewrite cell_of_task by lia. rewrite IH by lia.
  destruct (Nat.ltb_spec (y * width + a) (List.length flat)) as [Hlt|Hge].
  - replace (Nat.min (S n) (List.length flat - (y * width + a)))
      with (S (Nat.min n (List.length flat - (y * width + S a)))) by lia.
    cbn [seq List.map app]. do 3 f_equal. lia.
  - replace (Nat.min n _) with 0%nat by lia.
    replace (Nat.min (S n) _) with 0%nat by lia. reflexivity.
Qed.

Lemma matrix_rows (flat : list string) (width m c : nat) :
  flat_map (fun y => flat_map (fun x => Kuro.cell_of flat width x y) (seq 0 width))
    (seq c m)
  = List.map (cell_task flat width)
      (seq (c * width) (Nat.min (m * width) (List.length flat - c * width))).
Proof.
  revert c. induction m as [|m IH]; intros c; [reflexivity |].
  cbn [seq flat_map]. rewrite IH, matrix_row by lia. rewrite <- map_app.
  f_equal. rewrite Nat.add_0_r.
  destruct (Nat.le_gt_cases width (List.length flat - c * width)) as [Hle|Hgt].
  - replace (Nat.min width _) with width by lia.
    replace (Nat.min (S m * width) (List.length flat - c * width))
      with (width + Nat.min (m * width) (List.length flat - S c * width))%nat by lia.
    rewrite seq_app. do 2 f_equal. lia.
  - replace (Nat.min (m * width) _) with 0%nat by lia.
    rewrite app_nil_r. f_equal. lia.
Qed.

(** X17.  [loadSimpleImage] of release 1.3.0 installs, at cursor 0, one
    task for each of the first [width * height] colours of the matrix
    (all of them when there are fewer): the [i]-th colour, as it was
    written, on the cell [(i mod width, i / width)].  No colour is
    checked or normalized on the way. *)
Theorem loadSimpleImage_queue (flat : list string) (width height : nat) (st : bot) :
  fst (Kuro.loadSimpleImage flat width height st) = true
  /\ pixels (snd (Kuro.loadSimpleImage flat width height st))
     = List.map (cell_task flat width)
         (seq 0 (Nat.min (width * height) (List.length flat)))
  /\ List.map pcolor (pixels (snd (Kuro.loadSimpleImage flat width height st)))
     = firstn (width * height) flat
  /\ currentPixel (snd (Kuro.loadSimpleImage flat width height st)) = 0%nat.
Proof.
  assert (Hp : pixels (snd (Kuro.loadSimpleImage flat width height st))
               = List.map (cell_task flat width)
                   (seq 0 (Nat.min (width * height) (List.length flat)))).
  { unfold Kuro.loadSimpleImage, Kuro.saveStateLight. cbn [snd].
    transitivity (flat_map
                    (fun y => flat_map (fun x => Kuro.cell_of flat width x y) (seq 0 width))
                    (seq 0 height)).
    - destruct (storage_ok _); reflexivity.
    - rewrite matrix_rows. do 2 f_equal. lia. }
  split; [reflexivity |]. split; [exact Hp |]. split.
  - rewrite Hp, map_map. cbn [pcolor cell_task].
    apply nth_ext with (d := "") (d' := "").
    + rewrite length_map, length_seq, length_firstn. reflexivity.
    + intros i Hi. rewrite length_map, length_seq in Hi.
      rewrite (nth_indep _ "" (nth (List.length flat) flat "")) 
        by (rewrite length_map, length_seq; exact Hi).
      rewrite (map_nth (fun i => nth i flat "") (seq 0 _) (List.length flat) i).
      rewrite seq_nth by exact Hi. cbn.
      rewrite <- (firstn_skipn (width * height) flat) at 1.
      rewrite app_nth1 by (rewrite length_firstn; lia). reflexivity.
  - unfold Kuro.loadSimpleImage, Kuro.saveStateLight. cbn [snd].
    destruct (storage_ok _); reflexivity.
Qed.

(** ** Position, pace and calibration *)

Lemma toInt32_range (z : Z) : - 2 ^ 31 <= Js.toInt32 z < 2 ^ 31.
Proof.
  unfold Js.toInt32. pose proof (Z.mod_pos_bound (z + 2 ^ 31) (2 ^ 32)). lia.
Qed.

Lemma toInt32_high (z : Z) : 2 ^ 31 <= z < 2 ^ 32 -> Js.toInt32 z = z - 2 ^ 32.
Proof.
  intros Hz. unfold Js.toInt32.
  assert (E : (z + 2 ^ 31) mod 2 ^ 32 = z - 2 ^ 31)
    by (symmetry; apply Z.mod_unique with (q := 1); lia).
  rewrite E. lia.
Qed.

Lemma saveState_fields (st : bot) :
  startX (saveState st) = startX st /\ startY (saveState st) = startY st
  /\ delay (saveState st) = delay st /\ storage_ok (saveState st) = storage_ok st.
Proof.
  unfold saveState. destruct (storage_ok st) eqn:E; cbn; auto.
Qed.

Lemma setStartPosition_fields (x y : Z) (st : bot) :
  startX (setStartPosition x y st) = Js.toInt32 x
  /\ startY (setStartPosition x y st) = Js.toInt32 y
  /\ storage_ok (setStartPosition x y st) = storage_ok st.
Proof.
  unfold setStartPosition.
  destruct (saveState_fields
              (say LogStartPosition (set_startY (Js.or0 y) (set_startX (Js.or0 x) st))))
    as (-> & -> & _ & ->).
  repeat split.
Qed.

Lemma setDelay_restored (ms : Z) (st loader : bot) :
  delay (setDelay ms st) = Z.max 0 (Js.toInt32 ms)
  /\ (storage_ok st = true ->
      storage loader = storage (setDelay ms st) ->
      exists st', loadState loader = (true, st')
        /\ startX st' = startX st /\ startY st' = startY st
        /\ delay st' = Z.max 0 (Js.toInt32 ms)).
Proof.
  unfold setDelay. split.
  - destruct (saveState_fields (say LogDelay (set_delay (Z.max 0 (Js.or0 ms)) st)))
      as (_ & _ & -> & _).
    reflexivity.
  - intros Hok Hs.
    destruct (restore_spec (say LogDelay (set_delay (Z.max 0 (Js.or0 ms)) st)) loader
                Hok Hs) as (st' & Hl & Px & Py & Pd & _).
    exists st'. split; [exact Hl |]. split; [exact Px |]. split; [exact Py | exact Pd].
Qed.

(** X18.  The start position is kept as 32-bit integers and the delay as
    a 32-bit integer that is not negative: values in range are taken as
    they are, a negative delay becomes 0, and so does a delay from 2^31
    up to 2^32 - 1, which wraps to a negative number first.  When the
    store takes the write, a later session restores exactly these
    values from the checkpoint. *)
Theorem position_and_pace (x y ms : Z) (st loader : bot) :
  (- 2 ^ 31 <= startX (setStartPosition x y st) < 2 ^ 31
   /\ - 2 ^ 31 <= startY (setStartPosition x y st) < 2 ^ 31
   /\ 0 <= delay (setDelay ms st) < 2 ^ 31)
  /\ (- 2 ^ 31 <= x < 2 ^ 31 -> startX (setStartPosition x y st) = x)
  /\ (- 2 ^ 31 <= y < 2 ^ 31 -> startY (setStartPosition x y st) = y)
  /\ (0 <= ms < 2 ^ 31 -> delay (setDelay ms st) = ms)
  /\ (- 2 ^ 31 <= ms < 0 \/ 2 ^ 31 <= ms < 2 ^ 32 -> delay (setDelay ms st) = 0)
  /\ (storage_ok st = true ->
      storage loader = storage (setDelay ms (setStartPosition x y st)) ->
      exists st', loadState loader = (true, st')
        /\ startX st' = Js.toInt32 x /\ startY st' = Js.toInt32 y
        /\ delay st' = Z.max 0 (Js.toInt32 ms)).
Proof.
  destruct (setStartPosition_fields x y st) as (Hx & Hy & Hok1).
  destruct (setDelay_restored ms st loader) as (Hd & _).
  pose proof (toInt32_range x) as Rx. pose proof (toInt32_range y) as Ry.
  pose proof (toInt32_range ms) as Rm.
  rewrite Hx, Hy, Hd.
  split; [lia |].
  split; [apply toInt32_small |].
  split; [apply toInt32_small |].
  split; [intros Hm; rewrite (toInt32_small ms); lia |].
  split.
  - intros [Hn|Hh]; [rewrite (toInt32_small ms) by lia | rewrite (toInt32_high ms) by lia];
      lia.
  - intros Hok Hs. rewrite <- Hok1 in Hok.
    destruct (setDelay_restored ms (setStartPosition x y st) loader) as (_ & Hr).
    destruct (Hr Hok Hs) as (st' & Hl & Px & Py & Pd).
    exists st'. rewrite Px, Py, Hx, Hy. auto.
Qed.

Lemma position_and_pace_witness :
  delay (setDelay 250 (new_bot true [])) = 250
  /\ delay (setDelay 2147483648 (new_bot true [])) = 0.
Proof.
  split.
  - apply (position_and_pace 0 0 250 (new_bot true []) (new_bot true [])). lia.
  - apply (position_and_pace 0 0 2147483648 (new_bot true []) (new_bot true [])). lia.
Defined.

Lemma round_ge_1 (q : Q) : (1 <= q)%Q -> 1 <= round q.
Proof.
  intros Hq. unfold round. change 1 with (Qfloor 1).
  apply Qfloor_resp_le.
  apply Qle_trans with (1 := Hq).
  rewrite <- (Qplus_0_r q) at 1. apply Qplus_le_r. discriminate.
Qed.

Lemma saveState_cells (st : bot) :
  cellW (saveState st) = cellW st /\ cellH (saveState st) = cellH st.
Proof.
  unfold saveState. destruct (storage_ok st); cbn; auto.
Qed.

(** X19.  The order of the two calibration clicks does not matter.
    Clicks less than one pixel apart change nothing and warn.  Clicks at
    least one pixel apart make the distance, rounded, the cell width
    ([calibrate]) or the cell height ([calibrateY]); this size is at
    least 1, so the drawing loop uses it as it is, and the other
    dimension is left as it was. *)
Theorem calibration_clicks (a c : Q) (st : bot) :
  calibrate a c st = calibrate c a st
  /\ calibrateY a c st = calibrateY c a st
  /\ ((Qabs (c - a) < 1)%Q ->
      calibrate a c st = say WarnOverlap st
      /\ calibrateY a c st = say WarnOverlap st)
  /\ ((1 <= Qabs (c - a))%Q ->
      1 <= round (Qabs (c - a))
      /\ cellW (calibrate a c st) = Some (round (Qabs (c - a)))
      /\ cellH (calibrate a c st) = cellH st
      /\ gridW (calibrate a c st) = round (Qabs (c - a))
      /\ cellH (calibrateY a c st) = Some (round (Qabs (c - a)))
      /\ cellW (calibrateY a c st) = cellW st
      /\ gridH (calibrateY a c st) = round (Qabs (c - a))).
Proof.
  split; [unfold calibrate; now rewrite (Qabs_Qminus c a) |].
  split; [unfold calibrateY; now rewrite (Qabs_Qminus c a) |].
  split.
  - intros Hlt. unfold calibrate, calibrateY.
    destruct (Qle_bool 1 (Qabs (c - a))) eqn:E; [| now split].
    apply Qle_bool_iff in E. exfalso. now apply (Qlt_not_le _ _ Hlt).
  - intros Hle. pose proof (round_ge_1 _ Hle) as Hr.
    set (n := round (Qabs (c - a))) in *.
    assert (Hpos : (0 <? n) = true) by (apply Z.ltb_lt; lia).
    assert (HW : calibrate a c st = saveState (say LogCalibrated (set_cellW (Some n) st))).
    { unfold calibrate. now rewrite (proj2 (Qle_bool_iff 1 (Qabs (c - a))) Hle). }
    assert (HH : calibrateY a c st = saveState (say LogCalibratedH (set_cellH (Some n) st))).
    { unfold calibrateY. now rewrite (proj2 (Qle_bool_iff 1 (Qabs (c - a))) Hle). }
    destruct (saveState_cells (say LogCalibrated (set_cellW (Some n) st))) as [W1 W2].
    destruct (saveState_cells (say LogCalibratedH (set_cellH (Some n) st))) as [H1 H2].
    assert (CW : cellW (calibrate a c st) = Some n) by (now rewrite HW, W1).
    assert (CH : cellH (calibrate a c st) = cellH st) by (now rewrite HW, W2).
    assert (YH : cellH (calibrateY a c st) = Some n) by (now rewrite HH, H2).
    assert (YW : cellW (calibrateY a c st) = cellW st) by (now rewrite HH, H1).
    unfold gridH, gridW. rewrite CW, YH, Hpos. auto 10.
Qed.

Lemma calibration_clicks_witness :
  cellW (calibrate 214 200 (new_bot true [])) = Some 14
  /\ gridH (calibrateY (3 # 2) 10 (new_bot true [])) = 9.
Proof.
  split.
  - apply (calibration_clicks 214 200 (new_bot true [])). vm_compute. discriminate.
  - apply (calibration_clicks (3 # 2) 10 (new_bot true [])). vm_compute. discriminate.
Defined.

(** ** Colours written as [rgb(r, g, b)] *)

Lemma append_assoc3 (s1 s2 s3 : string) : ((s1 ++ s2) ++ s3 = s1 ++ (s2 ++ s3))%string.
Proof.
  induction s1 as [|c s1 IH]; [reflexivity |]. cbn. now rewrite IH.
Qed.

Lemma digit_runs_digits (d cur rest : string) :
  Js.all_chars Js.is_digit d = true ->
  Js.digit_runs cur (d ++ rest) = Js.digit_runs (cur ++ d) rest.
Proof.
  revert cur. induction d as [|c d IH]; intros cur H.
  - cbn. f_equal. induction cur as [|c cur IHc]; [reflexivity |]. cbn. now f_equal.
  - cbn [Js.all_chars] in H. apply andb_prop in H as [Hc Hd].
    cbn [append Js.digit_runs]. rewrite Hc, (IH _ Hd), append_assoc3. reflexivity.
Qed.

(** The decimal text of a byte: digits only, at least one, and read back
    by [parseInt] as the byte. *)
Lemma decimal_byte (v : Z) :
  0 <= v <= 255 ->
  Js.all_chars Js.is_digit (Js.toString 10 v) = true
  /\ Js.toString 10 v <> ""
  /\ Js.parseInt10 (Js.toString 10 v) = v.
Proof.
  intros Hv.
  assert (H : forallb
                (fun n => Js.all_chars Js.is_digit (Js.toString 10 (Z.of_nat n))
                          && negb (String.eqb (Js.toString 10 (Z.of_nat n)) "")
                          && (Js.parseInt10 (Js.toString 10 (Z.of_nat n)) =? Z.of_nat n))
                (seq 0 256) = true) by (vm_compute; reflexivity).
  rewrite forallb_forall in H.
  assert (Hin : In (Z.to_nat v) (seq 0 256)) by (apply in_seq; lia).
  specialize (H _ Hin). rewrite Z2Nat.id in H by lia.
  apply andb_prop in H as [H1 H3]. apply andb_prop in H1 as [H1 H2].
  split; [exact H1 |]. split.
  - intros E. rewrite E in H2. discriminate.
  - now apply Z.eqb_eq.
Qed.

Lemma digit_runs_number (d rest : string) (c : ascii) :
  Js.all_chars Js.is_digit d = true -> d <> "" -> Js.is_digit c = false ->
  Js.digit_runs "" (d ++ String c rest) = d :: Js.digit_runs "" rest.
Proof.
  intros Hd Hne Hc. rewrite (digit_runs_digits d "" _ Hd). cbn [append Js.digit_runs].
  rewrite Hc. destruct d; [contradiction | reflexivity].
Qed.

Lemma match_digits_rgb_text (v : rgb) :
  0 <= r v <= 255 -> 0 <= g v <= 255 -> 0 <= b v <= 255 ->
  Js.match_digits (rgb_text v)
  = [Js.toString 10 (r v); Js.toString 10 (g v); Js.toString 10 (b v)].
Proof.
  intros Hr Hg Hb.
  destruct (decimal_byte _ Hr) as (Ar & Nr & _).
  destruct (decimal_byte _ Hg) as (Ag & Ng & _).
  destruct (decimal_byte _ Hb) as (Ab & Nb & _).
  unfold Js.match_digits, rgb_text.
  cbn [append].
  change (Js.digit_runs "" (String "r" (String "g" (String "b" (String "(" ?x)))))
    with (Js.digit_runs "" x).
  rewrite !digit_runs_number by (assumption || reflexivity).
  reflexivity.
Qed.

Lemma rgbToHex_rgb_text (v : rgb) :
  0 <= r v <= 255 -> 0 <= g v <= 255 -> 0 <= b v <= 255 ->
  rgbToHex (rgb_text v) = String "#"%char (hex2 (r v) ++ hex2 (g v) ++ hex2 (b v)).
Proof.
  intros Hr Hg Hb. unfold rgbToHex. rewrite match_digits_rgb_text by assumption.
  unfold channel. cbn [nth_error option_map].
  destruct (decimal_byte _ Hr) as (_ & _ & ->).
  destruct (decimal_byte _ Hg) as (_ & _ & ->).
  destruct (decimal_byte _ Hb) as (_ & _ & ->).
  rewrite pack_bytes by lia. cbn [Js.num_toString].
  rewrite toString16_packed by lia. reflexivity.
Qed.

Lemma rgb_call_not_hex6 (s : string) : is_rgb_call s = true -> is_hex6 s = false.
Proof.
  unfold is_rgb_call, is_hex6. destruct s as [|c0 s]; [discriminate |].
  destruct (Ascii.eqb_spec c0 "#"%char) as [-> | Hne].
  - destruct s as [|c1 [|c2 s]]; discriminate.
  - intros _. destruct c0 as [[] [] [] [] [] [] [] []]; try reflexivity.
    now contradiction Hne.
Qed.

(** X20.  A colour that is written as an [rgb(] call and whose first three
    numbers are bytes is normalized to the [#rrggbb] text of these
    bytes, in lower case: a text that passes the hex test, that
    [hexToRgb] reads back as the same three channels, and that a second
    normalization leaves as it is.  A colour already written as
    [#RRGGBB] is only trimmed, its letters keep their case. *)
Theorem normalize_color_rgb (c : string) (v : rgb) :
  (is_hex6 (Js.trim c) = true -> normalize_color c = inr (Js.trim c))
  /\ (is_rgb_call (Js.trim c) = true ->
      rgbStringToObject (Js.trim c) = Some v ->
      0 <= r v <= 255 -> 0 <= g v <= 255 -> 0 <= b v <= 255 ->
      normalize_color c = inr (String "#"%char (hex2 (r v) ++ hex2 (g v) ++ hex2 (b v)))
      /\ is_hex6 (String "#"%char (hex2 (r v) ++ hex2 (g v) ++ hex2 (b v))) = true
      /\ hexToRgb (String "#"%char (hex2 (r v) ++ hex2 (g v) ++ hex2 (b v))) = Some v
      /\ normalize_color (String "#"%char (hex2 (r v) ++ hex2 (g v) ++ hex2 (b v)))
         = inr (String "#"%char (hex2 (r v) ++ hex2 (g v) ++ hex2 (b v)))).
Proof.
  split.
  - intros H. unfold normalize_color. now rewrite H.
  - intros Hcall Hv Hr Hg Hb.
    destruct (hexToRgb_hex2 (r v) (g v) (b v)) as [H6 Hback]; try lia.
    split; [| split; [exact H6 | split]].
    + unfold normalize_color.
      rewrite (rgb_call_not_hex6 _ Hcall), Hcall, Hv.
      now rewrite rgbToHex_rgb_text.
    + rewrite Hback. now destruct v.
    + now apply normalize_color_hex6.
Qed.

Lemma normalize_color_rgb_witness :
  normalize_color "  RGB (255, 128, 0) " = inr "#ff8000".
Proof.
  assert (H1 : is_rgb_call (Js.trim "  RGB (255, 128, 0) ") = true)
    by (vm_compute; reflexivity).
  assert (H2 : rgbStringToObject (Js.trim "  RGB (255, 128, 0) ")
               = Some {| r := 255; g := 128; b := 0 |}) by (vm_compute; reflexivity).
  apply (proj2 (normalize_color_rgb "  RGB (255, 128, 0) " {| r := 255; g := 128; b := 0 |})
           H1 H2); cbn; lia.
Defined.

(** ** The checkpoint written by a load *)

Lemma reopened_storage (found_canvas : bool) (palette : list entry) (st : bot) :
  storage (reopened found_canvas palette st) = storage st.
Proof. reflexivity. Qed.

(** X21.  An accepted load of at most 50,000 tasks writes a checkpoint
    from which a later session gets the whole queue back, at cursor 0
    and under the same name.  A larger load writes none: the slot keeps
    what it held before, so until the first autosave a later session
    finds the checkpoint of the image loaded earlier, or nothing. *)
Theorem load_checkpoint (items : list raw) (norm : list task) (name : option string)
    (st loader : bot) :
  normalize_all items = inr norm ->
  ((List.length (dedup norm) <= largeSaveCap)%nat ->
   storage_ok st = true ->
   storage loader = storage (snd (loadImageFromData (Array items) name st)) ->
   exists st', loadState loader = (true, st')
     /\ pixels st' = dedup norm /\ currentPixel st' = 0%nat
     /\ imageName st'
        = match name with
          | Some n => if String.eqb n "" then default_name else n
          | None => default_name
          end)
  /\ ((largeSaveCap < List.length (dedup norm))%nat ->
      storage (snd (loadImageFromData (Array items) name st)) = storage st
      /\ loadState (reopened true [] (snd (loadImageFromData (Array items) name st)))
         = loadState (reopened true [] st)).
Proof.
  intros Hn. unfold loadImageFromData. rewrite Hn. cbn [snd]. split.
  - intros Hle Hok Hs.
    rewrite (proj2 (Nat.leb_le _ _) Hle) in Hs.
    match type of Hs with
    | _ = storage (saveState ?s) =>
        destruct (restore_spec s loader Hok Hs)
          as (st' & Hl & _ & _ & _ & Hi & _ & _ & Hp & Hc & _)
    end.
    exists st'. split; [exact Hl |]. split; [| split; [exact Hc |]].
    + rewrite Hp. cbn [pixels currentPixel skipn]. now apply firstn_all2.
    + rewrite Hi. cbn [imageName]. destruct name as [n|]; reflexivity.
  - intros Hlt. apply Nat.leb_gt in Hlt. rewrite Hlt. split; reflexivity.
Qed.

Lemma load_checkpoint_witness :
  exists st',
    loadState
      (reopened true []
         (snd (loadImageFromData (Array [item_at 2 0 "#0000ff"; item_at 1 0 "#00ff00"])
                 (Some "Two") (new_bot true []))))
    = (true, st')
    /\ pixels st' = [ {| px := 1; py := 0; pcolor := "#00ff00" |};
                      {| px := 2; py := 0; pcolor := "#0000ff" |} ].
Proof.
  assert (Hn : normalize_all [item_at 2 0 "#0000ff"; item_at 1 0 "#00ff00"]
               = inr [ {| px := 2; py := 0; pcolor := "#0000ff" |};
                       {| px := 1; py := 0; pcolor := "#00ff00" |} ])
    by (vm_compute; reflexivity).
  destruct (proj1 (load_checkpoint _ _ (Some "Two") (new_bot true [])
                     (reopened true []
                        (snd (loadImageFromData
                                (Array [item_at 2 0 "#0000ff"; item_at 1 0 "#00ff00"])
                                (Some "Two") (new_bot true []))))
                     Hn))
    as (st' & H1 & H2 & _).
  - unfold largeSaveCap. cbn. lia.
  - reflexivity.
  - apply reopened_storage.
  - exists st'. split; [exact H1 |]. rewrite H2. vm_compute. reflexivity.
Defined.


(** ** The drawing loop of release 1.3.0 *)

Lemma acts_refl (st : bot) : acts [] st st.
Proof.
  unfold acts. repeat split. exists []. split; [now rewrite app_nil_r | reflexivity].
Qed.

Lemma acts_trans (pg1 pg2 : list event) (s1 s2 s3 : bot) :
  acts pg1 s1 s2 -> acts pg2 s2 s3 -> acts (pg1 ++ pg2) s1 s3.
Proof.
  intros (A1 & A2 & A3 & A4 & A5 & A6 & A7 & e1 & T1 & P1)
         (B1 & B2 & B3 & B4 & B5 & B6 & B7 & e2 & T2 & P2).
  unfold acts. repeat split; try congruence.
  exists (e1 ++ e2)%list. split.
  - rewrite T2, T1. now rewrite app_assoc.
  - unfold page_events in *. rewrite filter_app. now rewrite P1, P2.
Qed.

Ltac by_acts :=
  unfold acts; cbn; repeat split;
  eexists; split;
  [ rewrite <- ?app_assoc; first [reflexivity | symmetry; apply app_nil_r]
  | reflexivity ].

Lemma kuro_saveState_acts (st : bot) :
  acts [] st (Kuro.saveState st)
  /\ currentPixel (Kuro.saveState st) = currentPixel st.
Proof.
  unfold Kuro.saveState. destruct (storage_ok st); (split; [by_acts | reflexivity]).
Qed.

Lemma kuro_place_acts (cx cy : Z) (st : bot) :
  canvas st = true ->
  acts [CanvasClick cx cy] st (Kuro.place never cx cy st)
  /\ currentPixel (Kuro.place never cx cy st) = S (currentPixel st).
Proof.
  intros Hc. unfold Kuro.place, Kuro.await, never, clickCanvas. rewrite Hc.
  set (s1 := set_currentPixel _ _).
  assert (A1 : acts [CanvasClick cx cy] st s1) by by_acts.
  assert (C1 : currentPixel s1 = S (currentPixel st)) by reflexivity.
  set (s2 := if (currentPixel s1 mod autosaveEvery =? 0)%nat
             then Kuro.saveState s1 else s1).
  assert (A2 : acts [] s1 s2 /\ currentPixel s2 = currentPixel s1).
  { unfold s2. destruct (_ =? _)%nat; [apply kuro_saveState_acts |].
    split; [apply acts_refl | reflexivity]. }
  destruct A2 as [A2 C2].
  assert (A3 : acts [] s2 (emit (Sleep (delay s2)) s2)) by by_acts.
  split.
  - change [CanvasClick cx cy] with (([CanvasClick cx cy] ++ []) ++ [])%list.
    eapply acts_trans; [eapply acts_trans; [exact A1 | exact A2] | exact A3].
  - cbn. now rewrite C2.
Qed.

Lemma kuro_step_acts {M : Math} (p : task) (st : bot) :
  canvas st = true ->
  (useAutoPalette st = true -> colorPalette st <> []) ->
  acts (earlier_turn st p) st (Kuro.drawStep never p st)
  /\ currentPixel (Kuro.drawStep never p st) = S (currentPixel st).
Proof.
  intros Hc Hpal. unfold Kuro.drawStep, earlier_turn.
  destruct (useAutoPalette st) eqn:Hauto.
  - unfold Kuro.selectColor.
    destruct (Kuro.findClosestColor (colorPalette st) (pcolor p)) as [e|] eqn:F.
    + cbn [negb andb]. cbn [useAutoPalette set_selectedColor emit set_trace].
      rewrite Hauto. unfold Kuro.await, never.
      set (s1 := emit (Sleep 200) _).
      assert (A1 : acts [SwatchClick (element e)] st s1) by (unfold acts; cbn; repeat split;
        try assumption; eexists; split;
        [rewrite <- ?app_assoc; reflexivity | reflexivity]).
      assert (Hc1 : canvas s1 = true) by exact Hc.
      destruct (kuro_place_acts (startX st + px p) (startY st + py p) s1 Hc1) as [A2 C2].
      split; [eapply acts_trans; [exact A1 | exact A2] | exact C2].
    + apply findClosestColor_none in F. now apply Hpal in F.
  - apply (kuro_place_acts _ _ st Hc).
Qed.

Lemma kuro_loop_acts {M : Math} (fuel : nat) :
  forall st,
    canvas st = true -> isRunning st = true ->
    (useAutoPalette st = true -> colorPalette st <> []) ->
    (currentPixel st <= List.length (pixels st))%nat ->
    fuel = (List.length (pixels st) - currentPixel st)%nat ->
    exists st',
      Kuro.drawLoop fuel never st = Some st'
      /\ acts (flat_map (earlier_turn st) (skipn (currentPixel st) (pixels st))) st st'
      /\ currentPixel st' = List.length (pixels st).
Proof.
  induction fuel as [|fuel IH]; intros st Hc Hrun Hpal Hle Hf.
  - exists st. assert (E : currentPixel st = List.length (pixels st)) by lia.
    assert (Hl : looping st = false).
    { unfold looping. rewrite Hrun, E. cbn. apply Nat.ltb_irrefl. }
    cbn. rewrite Hl. split; [reflexivity |].
    split; [| exact E]. rewrite E, skipn_all. apply acts_refl.
  - assert (Hlt : (currentPixel st < List.length (pixels st))%nat) by lia.
    assert (Hl : looping st = true).
    { unfold looping. rewrite Hrun. cbn. now apply Nat.ltb_lt. }
    cbn [Kuro.drawLoop]. rewrite Hl.
    destruct (nth_error (pixels st) (currentPixel st)) as [p|] eqn:Hp;
      [| apply nth_error_None in Hp; lia].
    destruct (kuro_step_acts p st Hc Hpal) as [A C].
    pose proof A as (P1 & P2 & P3 & P4 & P5 & P6 & P7 & _).
    destruct (IH (Kuro.drawStep never p st)) as (st' & Hloop & A' & C').
    + now rewrite P4.
    + now rewrite P7.
    + rewrite P6, P5. exact Hpal.
    + rewrite C, P1. lia.
    + rewrite C, P1. lia.
    + exists st'. split; [exact Hloop |]. split; [| now rewrite C', P1].
      rewrite (skipn_nth_error _ _ _ Hp). cbn [flat_map].
      eapply acts_trans; [exact A |].
      rewrite C, P1 in A'.
      replace (flat_map (earlier_turn (Kuro.drawStep never p st)))
        with (flat_map (earlier_turn st)) in A'; [exact A' |].
      f_equal. unfold earlier_turn. now rewrite P2, P3, P5, P6.
Qed.

Lemma kuro_prepare_spec {M : Math} (st : bot) :
  pixels (Kuro.prepare st) = pixels st
  /\ currentPixel (Kuro.prepare st) = currentPixel st
  /\ canvas (Kuro.prepare st) = canvas st
  /\ isRunning (Kuro.prepare st) = true
  /\ (useAutoPalette (Kuro.prepare st) = true -> colorPalette (Kuro.prepare st) <> [])
  /\ (exists evs, trace (Kuro.prepare st) = (trace st ++ evs)%list /\ page_events evs = [])
  /\ forall p, earlier_turn (Kuro.prepare st) p = earlier_turn st p.
Proof.
  unfold Kuro.prepare, warn_once, earlier_turn.
  destruct (useAutoPalette st) eqn:Ha; cbn [andb].
  - destruct (colorPalette st) as [|e0 pal] eqn:Hp; cbn [List.length Nat.eqb].
    + destruct (_autoWarned st); cbn; rewrite ?Hp;
        repeat split; try discriminate;
        eexists; (split; [rewrite <- ?app_assoc; reflexivity | reflexivity]).
    + cbn. rewrite Ha, Hp. repeat split; try discriminate.
      eexists; split; reflexivity.
  - cbn. rewrite Ha. repeat split; try discriminate.
    eexists; split; reflexivity.
Qed.

(** X22.  A run of release 1.3.0 that nobody stops, from a cursor inside
    the queue: it comes to its end with the cursor at the end of the
    queue, the running flag off and the checkpoint removed.  On the page
    it does, for each remaining task in queue order, a click on the
    board at the start position plus the task's coordinates (no cell
    size enters), preceded in auto mode by a click on the swatch nearest
    to the task's colour, which this release takes whether the entry is
    locked or not.  With an empty palette it clicks no swatch. *)
Theorem earlier_start_clicks {M : Math} (st : bot) :
  isRunning st = false -> canvas st = true ->
  (currentPixel st < List.length (pixels st))%nat ->
  exists st' evs,
    Kuro.start never st = Some st'
    /\ trace st' = (trace st ++ evs)%list
    /\ page_events evs
       = flat_map (earlier_turn st) (skipn (currentPixel st) (pixels st))
    /\ currentPixel st' = List.length (pixels st)
    /\ isRunning st' = false
    /\ storage st' = None.
Proof.
  intros Hrun Hc Hlt. unfold Kuro.start. rewrite Hrun, Hc.
  assert (Hne : Nat.eqb (List.length (pixels st)) 0 = false) by (apply Nat.eqb_neq; lia).
  rewrite Hne. cbn [negb].
  set (s0 := Kuro.prepare st).
  pose proof (kuro_prepare_spec st) as P. fold s0 in P. rewrite Hc in P.
  destruct P as (P1 & P2 & P3 & P4 & P5 & (ev0 & T0 & G0) & P6).
  destruct (kuro_loop_acts (List.length (pixels s0) - currentPixel s0) s0 P3 P4 P5)
    as (s1 & Hloop & A & C); [rewrite P1, P2; lia | reflexivity |].
  rewrite Hloop. cbn [option_map].
  destruct A as (A1 & _ & _ & _ & _ & _ & _ & ev1 & T1 & G1).
  unfold Kuro.finish.
  assert (Hend : (List.length (pixels (set_isRunning false s1))
                  <=? currentPixel (set_isRunning false s1))%nat = true).
  { apply Nat.leb_le. cbn. rewrite C, A1. lia. }
  rewrite Hend.
  exists (clearState (say LogFinished (set_isRunning false s1))),
         (ev0 ++ ev1 ++ [Console LogFinished])%list.
  split; [reflexivity |]. split; [| split; [| split; [| split]]].
  - cbn. rewrite T1, T0. now rewrite <- !app_assoc.
  - unfold page_events in *. rewrite !filter_app, G0, G1. cbn [filter app].
    rewrite app_nil_r, P1, P2. apply flat_map_ext. exact P6.
  - cbn [currentPixel clearState say emit set_trace set_storage set_isRunning].
    now rewrite C, P1.
  - reflexivity.
  - reflexivity.
Qed.

(** A locked swatch is the nearest one: release 1.3.0 clicks it. *)
Lemma earlier_start_clicks_witness :
  exists st' evs,
    Kuro.start never
      (set_startX 10
         (set_pixels [ {| px := 2; py := 1; pcolor := "#000000" |} ]
            (new_bot true [ {| element := 7; color := "rgb(0, 0, 1)"; locked := true |} ])))
    = Some st'
    /\ trace st' = evs
    /\ page_events evs = [SwatchClick 7; CanvasClick 12 1].
Proof.
  destruct (earlier_start_clicks
              (set_startX 10
                 (set_pixels [ {| px := 2; py := 1; pcolor := "#000000" |} ]
                    (new_bot true
                       [ {| element := 7; color := "rgb(0, 0, 1)"; locked := true |} ]))))
    as (st' & evs & H1 & H2 & H3 & _).
  - reflexivity.
  - reflexivity.
  - cbn. lia.
  - exists st', evs. split; [exact H1 |]. split; [exact H2 |].
    rewrite H3. vm_compute. reflexivity.
Defined.

(** ** Colour modes *)




(** ** Hex colours there and back *)

(** X24.  A colour of the form [#RRGGBB] is read by [hexToRgb] as three
    channels between 0 and 255, and writing these channels back through
    [rgbToHex] gives the colour itself with its letters in lower case,
    which [hexToRgb] reads as the same channels again. *)
Theorem hex_round_trip (h : string) :
  is_hex6 h = true ->
  exists v,
    hexToRgb h = Some v
    /\ 0 <= r v <= 255 /\ 0 <= g v <= 255 /\ 0 <= b v <= 255
    /\ rgbToHex (rgb_text v) = lower_text h
    /\ hexToRgb (lower_text h) = Some v.
Proof.
  unfold is_hex6. intros H.
  destruct h as [|c0 body]; [discriminate |].
  destruct (Ascii.eqb_spec c0 "#"%char) as [-> | Hne];
    [| destruct c0 as [[] [] [] [] [] [] [] []]; try discriminate; now contradiction Hne].
  apply andb_prop in H as [Hlen Hall].
  destruct body as [|c1 [|c2 [|c3 [|c4 [|c5 [|c6 [|c7 rest]]]]]]]; try discriminate.
  cbn [Js.all_chars] in Hall.
  repeat match type of Hall with
         | (_ && _)%bool = true => apply andb_prop in Hall as [?H Hall]
         end.
  destruct (hex_pair c1 c2) as [Rr Er]; try assumption.
  destruct (hex_pair c3 c4) as [Rg Eg]; try assumption.
  destruct (hex_pair c5 c6) as [Rb Eb]; try assumption.
  assert (Hh : hexToRgb (String "#" (String c1 (String c2 (String c3 (String c4
                 (String c5 (String c6 "")))))))
               = Some {| r := Js.parseInt16 (String c1 (String c2 ""));
                         g := Js.parseInt16 (String c3 (String c4 ""));
                         b := Js.parseInt16 (String c5 (String c6 "")) |}).
  { unfold hexToRgb. cbn [String.length Nat.eqb Js.all_chars andb substring].
    rewrite H, H0, H1, H2, H3, H4. reflexivity. }
  eexists. split; [exact Hh |]. cbn [r g b].
  split; [exact Rr |]. split; [exact Rg |]. split; [exact Rb |].
  assert (Hback : rgbToHex (rgb_text
                     {| r := Js.parseInt16 (String c1 (String c2 ""));
                        g := Js.parseInt16 (String c3 (String c4 ""));
                        b := Js.parseInt16 (String c5 (String c6 "")) |})
                  = lower_text (String "#" (String c1 (String c2 (String c3 (String c4
                      (String c5 (String c6 "")))))))).
  { rewrite rgbToHex_rgb_text by assumption. cbn [r g b]. rewrite Er, Eg, Eb.
    reflexivity. }
  split; [exact Hback |].
  rewrite <- Hback, rgbToHex_rgb_text by assumption.
  apply hexToRgb_hex2; cbn [r g b]; lia.
Qed.

Lemma hex_round_trip_witness :
  exists v,
    hexToRgb "#FF80aB" = Some v
    /\ rgbToHex (rgb_text v) = "#ff80ab".
Proof.
  destruct (hex_round_trip "#FF80aB" eq_refl) as (v & H1 & _ & _ & _ & H2 & _).
  exists v. split; [exact H1 | exact H2].
Defined.

(** ** A cell size given by hand *)

Lemma round_small (q : Q) : (0 < q)%Q -> (q < 1 # 2)%Q -> round q = 0.
Proof.
  intros H0 H1. unfold round.
  assert (L : (inject_Z 0 <= q + (1 # 2))%Q).
  { apply Qle_trans with q; [now apply Qlt_le_weak |].
    rewrite <- (Qplus_0_r q) at 1. apply Qplus_le_r. discriminate. }
  assert (U : (q + (1 # 2) < inject_Z 1)%Q).
  { apply Qlt_le_trans with ((1 # 2) + (1 # 2))%Q; [now apply Qplus_lt_l |].
    discriminate. }
  apply Qfloor_resp_le in L. rewrite Qfloor_Z in L.
  pose proof (Qfloor_le (q + (1 # 2))) as F.
  assert (F2 : (inject_Z (Qfloor (q + (1 # 2))) < inject_Z 1)%Q)
    by (eapply Qle_lt_trans; [exact F | exact U]).
  rewrite <- Zlt_Qlt in F2. lia.
Qed.

Lemma round_half_up (q : Q) : (1 # 2 <= q)%Q -> 1 <= round q.
Proof.
  intros H. unfold round.
  apply Z.le_trans with (Qfloor (inject_Z 1)); [rewrite Qfloor_Z; lia |].
  apply Qfloor_resp_le.
  apply Qle_trans with ((1 # 2) + (1 # 2))%Q; [discriminate |].
  now apply Qplus_le_l.
Qed.

(** X25.  [setCellSize] turns down anything but two positive finite
    numbers, with a warning and no other change.  Given two such
    numbers it stores both, rounded.  A size of one half or more rounds
    to at least 1 and is the size the loop uses; a smaller one rounds to
    0, which the loop treats as not calibrated: the width in use is then
    1, and the height in use is the width in use. *)
Theorem setCellSize_effect (w h : jsval) (st : bot) :
  (positive_number w = None \/ positive_number h = None ->
   setCellSize w h st = say WarnCellSize st)
  /\ (forall qw qh,
        positive_number w = Some qw -> positive_number h = Some qh ->
        cellW (setCellSize w h st) = Some (round qw)
        /\ cellH (setCellSize w h st) = Some (round qh)
        /\ ((1 # 2 <= qw)%Q ->
            1 <= round qw /\ gridW (setCellSize w h st) = round qw)
        /\ ((qw < 1 # 2)%Q -> gridW (setCellSize w h st) = 1)
        /\ ((1 # 2 <= qh)%Q ->
            1 <= round qh /\ gridH (setCellSize w h st) = round qh)
        /\ ((qh < 1 # 2)%Q ->
            gridH (setCellSize w h st) = gridW (setCellSize w h st))).
Proof.
  split.
  - unfold setCellSize. intros [-> | H]; [reflexivity |].
    rewrite H. now destruct (positive_number w).
  - intros qw qh Hw Hh.
    destruct (setCellSize_grid w h qw qh st Hw Hh) as (CW & CH & _).
    assert (Pw : (0 < qw)%Q).
    { unfold positive_number in Hw. destruct w as [| [q| | |] | |]; try discriminate.
      destruct (Qle_bool q 0) eqn:E; [discriminate |]. injection Hw as <-.
      apply Qnot_le_lt. intros Hle. apply Qle_bool_iff in Hle. congruence. }
    assert (Ph : (0 < qh)%Q).
    { unfold positive_number in Hh. destruct h as [| [q| | |] | |]; try discriminate.
      destruct (Qle_bool q 0) eqn:E; [discriminate |]. injection Hh as <-.
      apply Qnot_le_lt. intros Hle. apply Qle_bool_iff in Hle. congruence. }
    split; [exact CW |]. split; [exact CH |].
    unfold gridH, gridW. rewrite CW, CH.
    split; [| split; [| split]].
    + intros Hq. pose proof (round_half_up qw Hq) as R.
      split; [exact R |]. destruct (Z.ltb_spec 0 (round qw)); [reflexivity | lia].
    + intros Hq. now rewrite (round_small qw Pw Hq).
    + intros Hq. pose proof (round_half_up qh Hq) as R.
      split; [exact R |]. destruct (Z.ltb_spec 0 (round qh)); [reflexivity | lia].
    + intros Hq. now rewrite (round_small qh Ph Hq).
Qed.

Lemma setCellSize_effect_witness :
  gridW (setCellSize (JNumber (Fin (3 # 10))) (JNumber (Fin 14)) (new_bot true [])) = 1
  /\ gridH (setCellSize (JNumber (Fin (3 # 10))) (JNumber (Fin 14)) (new_bot true [])) = 14.
Proof.
  destruct (proj2 (setCellSize_effect (JNumber (Fin (3 # 10))) (JNumber (Fin 14))
                     (new_bot true []))
              (3 # 10) (inject_Z 14) eq_refl eq_refl) as (_ & _ & _ & Hw & Hh & _).
  split.
  - apply Hw. reflexivity.
  - rewrite (proj2 (Hh ltac:(discriminate))). reflexivity.
Defined.
